(** * pod-webhook-tracker: the counter update engine of [main.go]

    A shallow embedding of the webhook server of [main.go] (the first of
    the two drafts in the file, the one that serves [/increment] and
    [/decrement]) and of the library calls it relies on:

    - [strconv.Atoi] / [strconv.Itoa] on Go's 64-bit [int];
    - [http.ResponseWriter], [http.Error] and [fmt.Fprintf] on it;
    - [retry.RetryOnConflict] with [retry.DefaultBackoff];
    - the two clientset calls [Pods(ns).List] and [Pods(ns).Update], and
      a cluster that answers them: field selectors read as
      [fields.ParseSelector] reads them, optimistic concurrency on the
      resource version.

    Store calls are the only effects of the engine.  A request is a value
    of the free monad [Prog] over those two calls, so that one and the
    same definition of [updateLabel] is run sequentially against any
    clientset ([exec]) and interleaved with other requests against a shared
    cluster ([runSchedule]). *)

From Stdlib Require Import ZArith String Ascii DecimalString DecimalPos DecimalZ Lia.
From stdpp Require Import base option list gmap strings.

Local Open Scope Z_scope.
Local Open Scope string_scope.

(** ** Go's [int] (amd64 and arm64 builds: 64 bits, two's complement) *)

Definition MinInt : Z := - 2 ^ 63.
Definition MaxInt : Z := 2 ^ 63 - 1.

Definition inInt (z : Z) : Prop := MinInt <= z <= MaxInt.

(** The result of an [int] operation whose mathematical value is [z]. *)
Definition wrapInt (z : Z) : Z := (z + 2 ^ 63) mod 2 ^ 64 - 2 ^ 63.

(** ** Errors *)

(** [metav1.StatusReason], as far as the engine can tell reasons apart;
    [StatusReasonUnknown] is also what [errors.ReasonForError] reports for
    an error that is no API status at all (a transport failure, a
    cancelled context). *)
Inductive StatusReason :=
| StatusReasonUnknown
| StatusReasonConflict
| StatusReasonNotFound
| StatusReasonInvalid
| StatusReasonBadRequest.

(** What a clientset call returns as its error. *)
Record apiError := { reason : StatusReason; message : string }.

Inductive NumErrKind := ErrSyntax | ErrRange.

(** The values of Go's [error] that flow through the engine. *)
Inductive error :=
| APIErr (e : apiError)
| NumError (fn num : string) (kind : NumErrKind)
| Errorf (text : string)
| ErrWaitTimeout
| TraceErr (err : error) (text : string).

(** [trace.Wrap(err, msg)]. *)
Definition Wrap (err : error) (text : string) : error := TraceErr err text.

(** [errors.IsConflict]: the reason of the API status found in the chain
    of wrapped errors ([TraceErr] unwraps to the error it carries). *)
Fixpoint IsConflict (err : error) : bool :=
  match err with
  | APIErr e =>
      match reason e with StatusReasonConflict => true | _ => false end
  | TraceErr err' _ => IsConflict err'
  | _ => false
  end.

(** ** strconv *)

Definition Itoa (i : Z) : string := NilZero.string_of_int (Z.to_int i).

(** The mathematical value of an optionally signed, non-empty run of
    decimal digits; [None] for anything else. *)
Definition parseDecimal (s : string) : option Z :=
  match s with
  | String "+" s' => Z.of_uint <$> NilZero.uint_of_string s'
  | _ => Z.of_int <$> NilZero.int_of_string s
  end.

(** [strconv.Atoi]: a syntax error for a string that is no decimal
    integer, a range error for one that does not fit [int]. *)
Definition Atoi (s : string) : error + Z :=
  match parseDecimal s with
  | None => inl (NumError "Atoi" s ErrSyntax)
  | Some z =>
      if ((MinInt <=? z) && (z <=? MaxInt))%Z then inr z
      else inl (NumError "Atoi" s ErrRange)
  end.

(** A base-10 integer as a string: an optional sign and one digit or
    more. *)
Definition isDigit (a : ascii) : bool :=
  (48 <=? nat_of_ascii a)%nat && (nat_of_ascii a <=? 57)%nat.

Fixpoint allDigits (s : string) : bool :=
  match s with
  | EmptyString => true
  | String a s' => isDigit a && allDigits s'
  end.

Definition unsignedDecimal (s : string) : bool :=
  match s with
  | EmptyString => false
  | _ => allDigits s
  end.

Definition isDecimalInteger (s : string) : bool :=
  match s with
  | String a s' =>
      if Ascii.eqb a "+" || Ascii.eqb a "-" then unsignedDecimal s'
      else unsignedDecimal s
  | EmptyString => false
  end.

(** ** net/http *)

Definition StatusOK : nat := 200.
Definition StatusBadRequest : nat := 400.
Definition StatusNotFound : nat := 404.
Definition StatusMethodNotAllowed : nat := 405.
Definition StatusInternalServerError : nat := 500.

Definition MethodPost : string := "POST".

(** The state of an [http.ResponseWriter]: the status line, once it is
    written, and the bytes of the body written so far. *)
Record ResponseWriter := { statusCode : option nat; body : string }.

Definition newResponse : ResponseWriter :=
  {| statusCode := None; body := EmptyString |}.

(** [w.WriteHeader(code)]: the first call fixes the status; a later call
    is superfluous and changes nothing. *)
Definition WriteHeader (code : nat) (w : ResponseWriter) : ResponseWriter :=
  match statusCode w with
  | None => {| statusCode := Some code; body := body w |}
  | Some _ => w
  end.

(** [w.Write(data)]: writes the header with 200 if none was written yet. *)
Definition Write (data : string) (w : ResponseWriter) : ResponseWriter :=
  let w' := WriteHeader StatusOK w in
  {| statusCode := statusCode w'; body := body w' ++ data |}.

Definition newline : string := String (ascii_of_nat 10) EmptyString.

(** [http.Error(w, msg, code)]: [WriteHeader(code)], then the message and
    a newline. *)
Definition http_Error (w : ResponseWriter) (msg : string) (code : nat)
  : ResponseWriter :=
  Write (msg ++ newline) (WriteHeader code w).

Record Request := {
  Method : string;
  Path : string;
  Query : list (string * string)
}.

(** [r.URL.Query().Get(key)]: the first value of [key], or the empty
    string. *)
Fixpoint Get (q : list (string * string)) (key : string) : string :=
  match q with
  | [] => EmptyString
  | (k, v) :: q' => if String.eqb k key then v else Get q' key
  end.

(** ** Pods and the clientset *)

(** The part of [v1.Pod] the engine reads or writes.  [Labels] is a Go
    map: [None] is the nil map. *)
Record Pod := {
  Name : string;
  Namespace : string;
  Labels : option (gmap string string);
  ResourceVersion : N
}.

(** [valueStr, ok := labels[key]]. *)
Definition getLabel (labels : option (gmap string string)) (key : string)
  : option string :=
  match labels with
  | None => None
  | Some m => m !! key
  end.

(** [delete(labels, key)]: no effect on a nil map. *)
Definition deleteLabel (labels : option (gmap string string)) (key : string)
  : option (gmap string string) :=
  match labels with
  | None => None
  | Some m => Some (delete key m)
  end.

(** [if labels == nil { labels = make(...) }; labels[key] = value]. *)
Definition setLabel (labels : option (gmap string string)) (key value : string)
  : option (gmap string string) :=
  match labels with
  | None => Some (<[key := value]> ∅)
  | Some m => Some (<[key := value]> m)
  end.

Definition withLabels (pod : Pod) (labels : option (gmap string string)) : Pod :=
  {| Name := Name pod; Namespace := Namespace pod;
     Labels := labels; ResourceVersion := ResourceVersion pod |}.

Definition withResourceVersion (pod : Pod) (version : N) : Pod :=
  {| Name := Name pod; Namespace := Namespace pod;
     Labels := Labels pod; ResourceVersion := version |}.

Record ListOptions := {
  FieldSelector : string;
  LabelSelector : string;
  Limit : nat
}.

(** A request in progress: it is finished, or it waits for the answer to
    a [List] or to an [Update]. *)
Inductive Prog (A : Type) : Type :=
| Ret (a : A)
| CallList (ns : string) (opts : ListOptions)
    (k : apiError + list Pod -> Prog A)
| CallUpdate (ns : string) (pod : Pod) (k : apiError + Pod -> Prog A).

Arguments Ret {A} a.
Arguments CallList {A} ns opts k.
Arguments CallUpdate {A} ns pod k.

Fixpoint bind {A B : Type} (m : Prog A) (f : A -> Prog B) : Prog B :=
  match m with
  | Ret a => f a
  | CallList ns opts k => CallList ns opts (fun r => bind (k r) f)
  | CallUpdate ns pod k => CallUpdate ns pod (fun r => bind (k r) f)
  end.

#[global] Instance Prog_ret : MRet Prog := @Ret.
#[global] Instance Prog_bind : MBind Prog := fun A B f m => bind m f.

Definition PodsList (ns : string) (opts : ListOptions)
  : Prog (apiError + list Pod) :=
  CallList ns opts Ret.
Definition PodsUpdate (ns : string) (pod : Pod) : Prog (apiError + Pod) :=
  CallUpdate ns pod Ret.

(** ** k8s.io/client-go/util/retry *)

Record Backoff := { Steps : nat }.

(** [retry.DefaultBackoff]: four steps (10ms, factor 5, jitter 0.1; the
    sleeps between the steps are not modelled). *)
Definition DefaultBackoff : Backoff := {| Steps := 4 |}.

(** [wait.ExponentialBackoff]: call [condition] until it reports done or
    an error, at most [steps] times; [ErrWaitTimeout] once the steps are
    used up.  [St] is the state the closure [condition] updates. *)
Fixpoint ExponentialBackoff {St : Type} (steps : nat)
    (condition : St -> Prog (St * (bool * option error))) (st : St)
  : Prog (St * option error) :=
  match steps with
  | O => Ret (st, Some ErrWaitTimeout)
  | S steps' =>
      '(st', (ok, err)) ← condition st;
      match err, ok with
      | Some _, _ | None, true => Ret (st', err)
      | None, false => ExponentialBackoff steps' condition st'
      end
  end.

(** [retry.OnError]: the closure state is the state [W] of [fn] and the
    variable [lastErr], which takes the place of the error of a backoff
    that ran out of steps. *)
Definition OnError {W : Type} (backoff : Backoff) (retriable : error -> bool)
    (fn : W -> Prog (W * option error)) (w : W) : Prog (W * option error) :=
  '((w', lastErr), err) ←
    ExponentialBackoff (Steps backoff)
      (fun '(w, lastErr) =>
         '(w', err) ← fn w;
         match err with
         | None => Ret ((w', lastErr), (true, None))
         | Some e =>
             if retriable e then Ret ((w', Some e), (false, None))
             else Ret ((w', lastErr), (false, Some e))
         end)
      (w, None);
  match err with
  | Some ErrWaitTimeout => Ret (w', lastErr)
  | _ => Ret (w', err)
  end.

Definition RetryOnConflict {W : Type} (backoff : Backoff)
    (fn : W -> Prog (W * option error)) (w : W) : Prog (W * option error) :=
  OnError backoff IsConflict fn w.

(** ** The webhook server *)

Section Engine.

(** [strconv.Quote], which [%q] formats a string with. *)
Variable Quote : string -> string.

(** The fields of the server, but for [kubeConfig]. *)
Record webhookServer := {
  namespace : string;
  labelSelector : string;
  address : string;
  label : string;
  removeOnZero : bool;
  allowNegative : bool
}.

(** The values [configureFlags] gives the fields when no flag is set. *)
Definition configureFlags : webhookServer :=
  {| namespace := "default";
     labelSelector := EmptyString;
     address := "0.0.0.0:8080";
     label := "active-jobs";
     removeOnZero := true;
     allowNegative := false |}.

(** One attempt.  The context and its timeout of 15 seconds are not
    modelled: a call that runs out of time is a call that returns an
    error. *)
Definition updateLabel (ws : webhookServer) (w : ResponseWriter)
    (podName : string) (callback : Z -> Z)
  : Prog (ResponseWriter * option error) :=
  r ← PodsList (namespace ws)
        {| FieldSelector := "metadata.name=" ++ podName;
           LabelSelector := labelSelector ws;
           Limit := 1 |};
  match r with
  | inl err =>
      Ret (http_Error w ("Failed to list pods: " ++ message err)
             StatusInternalServerError,
           Some (Wrap (APIErr err) "failed to list pods"))
  | inr [] =>
      Ret (http_Error w "Pod not found" StatusNotFound,
           Some (Errorf ("pod " ++ podName ++ " not found in namespace "
                           ++ namespace ws)))
  | inr (pod :: _) =>
      let parsed :=
        match getLabel (Labels pod) (label ws) with
        | None => inr 0
        | Some valueStr =>
            match Atoi valueStr with
            | inl err => inl (valueStr, err)
            | inr labelValue => inr labelValue
            end
        end in
      match parsed with
      | inl (valueStr, err) =>
          Ret (http_Error w
                 ("Invalid " ++ Quote (label ws) ++ " label value: "
                    ++ Quote valueStr)
                 StatusInternalServerError,
               Some (Wrap err
                       ("invalid " ++ Quote (label ws) ++ " label value: "
                          ++ Quote valueStr)))
      | inr labelValue =>
          let newValue := callback labelValue in
          let pod' :=
            if (newValue =? 0)%Z && removeOnZero ws
            then withLabels pod (deleteLabel (Labels pod) (label ws))
            else withLabels pod (setLabel (Labels pod) (label ws) (Itoa newValue)) in
          r ← PodsUpdate (Namespace pod') pod';
          match r with
          | inl err =>
              Ret (http_Error w "Failed to update pod label"
                     StatusInternalServerError,
                   Some (Wrap (APIErr err) "failed to update pod label"))
          | inr _ => Ret (Write (Itoa newValue) w, None)
          end
      end
  end.

(** The engine invocation of [updateLabelRequest]: [updateLabel] under
    [retry.RetryOnConflict(retry.DefaultBackoff, ...)]. *)
Definition retryUpdateLabel (ws : webhookServer) (w : ResponseWriter)
    (podName : string) (callback : Z -> Z)
  : Prog (ResponseWriter * option error) :=
  RetryOnConflict DefaultBackoff
    (fun w => updateLabel ws w podName callback) w.

(** The error the engine invocation returns is dropped ([_ = ...]): the
    response writer is all that is left of the request. *)
Definition updateLabelRequest (ws : webhookServer) (w : ResponseWriter)
    (r : Request) (callback : Z -> Z) : Prog ResponseWriter :=
  if negb (String.eqb (Method r) MethodPost) then
    Ret (http_Error w "Method not allowed" StatusMethodNotAllowed)
  else
    let podName := Get (Query r) "pod_name" in
    if String.eqb podName EmptyString then
      Ret (http_Error w "Missing pod_name query parameter" StatusBadRequest)
    else
      '(w', _) ← retryUpdateLabel ws w podName callback;
      Ret w'.

Definition increment (currentValue : Z) : Z :=
  wrapInt (currentValue + 1).

Definition decrement (ws : webhookServer) (currentValue : Z) : Z :=
  if negb (allowNegative ws) && (currentValue <=? 0)%Z then 0
  else wrapInt (currentValue - 1).

Definition buildIncrementHandler (ws : webhookServer)
  : ResponseWriter -> Request -> Prog ResponseWriter :=
  fun w r => updateLabelRequest ws w r increment.

Definition buildDecrementHandler (ws : webhookServer)
  : ResponseWriter -> Request -> Prog ResponseWriter :=
  fun w r => updateLabelRequest ws w r (decrement ws).

(** The routes [run] registers on its [http.ServeMux]; any other path
    gets the mux's own 404. *)
Definition router (ws : webhookServer)
  : ResponseWriter -> Request -> Prog ResponseWriter :=
  fun w r =>
    if String.eqb (Path r) "/increment" then buildIncrementHandler ws w r
    else if String.eqb (Path r) "/decrement" then buildDecrementHandler ws w r
    else Ret (http_Error w "404 page not found" StatusNotFound).

End Engine.

(** ** Running a request against a clientset *)

(** The two calls of [kubernetes.Clientset] the server makes, over the
    state [St] of whatever answers them. *)
Class Clientset (St : Type) := {
  List : string -> ListOptions -> St -> St * (apiError + list Pod);
  Update : string -> Pod -> St -> St * (apiError + Pod)
}.

Inductive Call :=
| ListCall (ns : string) (opts : ListOptions)
| UpdateCall (ns : string) (pod : Pod).

(** A request run to its end: the state of the store afterwards, the
    calls made, in order, and the result. *)
Fixpoint exec {St : Type} `{Clientset St} {A : Type} (p : Prog A) (st : St)
  : St * list Call * A :=
  match p with
  | Ret a => (st, [], a)
  | CallList ns opts k =>
      let '(st1, r) := List ns opts st in
      let '(st2, calls, a) := exec (k r) st1 in
      (st2, ListCall ns opts :: calls, a)
  | CallUpdate ns pod k =>
      let '(st1, r) := Update ns pod st in
      let '(st2, calls, a) := exec (k r) st1 in
      (st2, UpdateCall ns pod :: calls, a)
  end.

Definition isUpdateCall (c : Call) : bool :=
  match c with UpdateCall _ _ => true | ListCall _ _ => false end.



(** ** The cluster: pods by namespace and name, with optimistic
    concurrency on the resource version *)

(** *** Field selectors: [fields.ParseSelector]

    [updateLabel] pastes the pod name into the field selector as it comes
    from the request, so the store reads it as what it is in the selector
    language, and not always as a name. *)

Definition backslash : ascii := Eval cbv in ascii_of_nat 92.

(** [splitTerms]: the selector is cut at every comma that no backslash
    protects; a backslash protects the character after it. *)
Fixpoint splitTermsFrom (inSlash : bool) (s : string) : string * list string :=
  match s with
  | EmptyString => (EmptyString, [])
  | String c s' =>
      let '(term, terms) :=
        splitTermsFrom (negb inSlash && Ascii.eqb c backslash) s' in
      if negb inSlash && Ascii.eqb c ","%char then (EmptyString, term :: terms)
      else (String c term, terms)
  end.

Definition splitTerms (fieldSelector : string) : list string :=
  match fieldSelector with
  | EmptyString => []
  | _ =>
      let '(term, terms) := splitTermsFrom false fieldSelector in
      term :: terms
  end.

(** [splitTerm]: a term is cut at the first of the operators [!=], [==]
    and [=] in it; the Boolean says that the operator is [!=]. *)
Fixpoint splitTerm (term : string) : option (string * bool * string) :=
  match term with
  | EmptyString => None
  | String c rest =>
      match rest with
      | String d rest' =>
          if Ascii.eqb c "!"%char && Ascii.eqb d "="%char then
            Some (EmptyString, true, rest')
          else if Ascii.eqb c "="%char && Ascii.eqb d "="%char then
            Some (EmptyString, false, rest')
          else if Ascii.eqb c "="%char then Some (EmptyString, false, rest)
          else
            match splitTerm rest with
            | Some (lhs, op, rhs) => Some (String c lhs, op, rhs)
            | None => None
            end
      | EmptyString =>
          if Ascii.eqb c "="%char then Some (EmptyString, false, EmptyString)
          else None
      end
  end.

(** [UnescapeValue]: a backslash may stand before a backslash, a comma or
    an equals sign only, and these three may not stand without one. *)
Fixpoint unescapeFrom (inSlash : bool) (s : string) : option string :=
  match s with
  | EmptyString => if inSlash then None else Some EmptyString
  | String c s' =>
      let special :=
        Ascii.eqb c backslash || Ascii.eqb c ","%char || Ascii.eqb c "="%char in
      if inSlash then
        if special then String c <$> unescapeFrom false s' else None
      else if Ascii.eqb c backslash then unescapeFrom true s'
      else if special then None
      else String c <$> unescapeFrom false s'
  end.

Definition UnescapeValue (s : string) : option string := unescapeFrom false s.

(** One requirement of a selector: the field has the value, or has it
    not. *)
Record Requirement := {
  fieldLabel : string;
  notHas : bool;
  fieldValue : string
}.

Fixpoint parseTerms (parts : list string) : option (list Requirement) :=
  match parts with
  | [] => Some []
  | part :: parts' =>
      match part with
      | EmptyString => parseTerms parts'
      | _ =>
          match splitTerm part with
          | None => None
          | Some (lhs, op, rhs) =>
              match UnescapeValue rhs with
              | None => None
              | Some unescapedRHS =>
                  cons {| fieldLabel := lhs; notHas := op;
                          fieldValue := unescapedRHS |}
                    <$> parseTerms parts'
              end
          end
      end
  end.

(** The requirements of a selector, all of which a pod has to meet;
    nothing for a selector that does not parse.  ([ParseSelector] sorts
    the terms first, which decides the error it reports for a selector
    with more than one bad term, and nothing else.) *)
Definition ParseSelector (selector : string) : option (list Requirement) :=
  parseTerms (splitTerms selector).

(** The value a selector names for a field with [=] or [==], if it names
    one. *)
Fixpoint RequiresExactMatch (reqs : list Requirement) (field : string)
  : option string :=
  match reqs with
  | [] => None
  | r :: reqs' =>
      if negb (notHas r) && String.eqb (fieldLabel r) field
      then Some (fieldValue r)
      else RequiresExactMatch reqs' field
  end.

(** The strings that are their own value in a field selector: no comma,
    no equals sign, no backslash.  The names Kubernetes accepts for a pod
    are among them. *)
Fixpoint plainName (s : string) : bool :=
  match s with
  | EmptyString => true
  | String c s' =>
      negb (Ascii.eqb c backslash || Ascii.eqb c ","%char || Ascii.eqb c "="%char)
      && plainName s'
  end.

Definition labelsOf (pod : Pod) : gmap string string :=
  default ∅ (Labels pod).

(** The errors of the store that the engine tells apart by their
    reason; the messages stand for those of the API server. *)
Definition conflictError : apiError :=
  {| reason := StatusReasonConflict;
     message := "the object has been modified; please apply your changes to the latest version and try again" |}.
Definition notFoundError : apiError :=
  {| reason := StatusReasonNotFound; message := "pod not found" |}.
Definition badRequestError : apiError :=
  {| reason := StatusReasonBadRequest; message := "bad request" |}.

(** The cluster, the requests in flight, and the pods of the writes the
    cluster has accepted so far, latest first. *)
Record System (A : Type) := {
  pods : gmap (string * string) Pod;
  requests : list (Prog A);
  accepted : list Pod
}.

Arguments pods {A} _.
Arguments requests {A} _.
Arguments accepted {A} _.

Section Cluster.

(** Whether a label selector, as the server is configured with, selects a
    set of labels: the API server's [labels.Parse] and [Matches]. *)
Variable matches : string -> gmap string string -> bool.

(** The pods of the model carry metadata only, and the store knows the
    two field labels the metadata gives; it refuses a requirement on any
    other label, as the API server refuses a label it does not support.
    (The API server knows more labels of a pod, on its spec and its
    status, which the pods of the model do not have.) *)
Definition knownField (field : string) : bool :=
  String.eqb field "metadata.name" || String.eqb field "metadata.namespace".

Definition podField (key : string * string) (field : string)
  : option string :=
  if String.eqb field "metadata.name" then Some key.2
  else if String.eqb field "metadata.namespace" then Some key.1
  else None.

Definition meets (key : string * string) (r : Requirement) : bool :=
  match podField key (fieldLabel r) with
  | Some v => xorb (notHas r) (String.eqb v (fieldValue r))
  | None => false
  end.

(** The pods in the order of their keys in the store,
    [<namespace>/<name>]. *)
Definition storageKey (key : string * string) : string :=
  key.1 ++ "/" ++ key.2.

Fixpoint insertByKey (e : string * string * Pod)
    (l : list (string * string * Pod)) : list (string * string * Pod) :=
  match l with
  | [] => [e]
  | x :: l' =>
      if String.leb (storageKey e.1) (storageKey x.1) then e :: l
      else x :: insertByKey e l'
  end.

Definition sortedPods (c : gmap (string * string) Pod)
  : list (string * string * Pod) :=
  foldr insertByKey [] (map_to_list c).

(** [Pods(ns).List]: the pods of the namespace, or of every namespace
    when [ns] is empty, that meet the field selector and that the label
    selector selects, in the order of their keys; at most [Limit] of them
    when [Limit] is not 0.  A field selector that does not parse, or names
    a field the store does not know, is a bad request.  As in the API
    server, a selector that names the pod makes the query a lookup of
    that pod. *)
Definition clusterList (ns : string) (opts : ListOptions)
    (c : gmap (string * string) Pod)
  : gmap (string * string) Pod * (apiError + list Pod) :=
  match ParseSelector (FieldSelector opts) with
  | None => (c, inl badRequestError)
  | Some reqs =>
      if negb (forallb (fun r => knownField (fieldLabel r)) reqs)
      then (c, inl badRequestError)
      else
        let candidates :=
          match ns, RequiresExactMatch reqs "metadata.name" with
          | String _ _, Some name =>
              match c !! (ns, name) with
              | Some pod => [(ns, name, pod)]
              | None => []
              end
          | String _ _, None =>
              List.filter (fun e => String.eqb e.1.1 ns) (sortedPods c)
          | EmptyString, _ => sortedPods c
          end in
        let items :=
          snd <$>
            List.filter
              (fun e =>
                 forallb (meets e.1) reqs
                 && matches (LabelSelector opts) (labelsOf e.2))
              candidates in
        (c, inr (match Limit opts with O => items | n => take n items end))
  end.

(** [Pods(ns).Update]: the write is rejected with a conflict, and the
    stored pod left as it is, unless the pod carries the resource version
    of the stored one; a write that is accepted gives the stored pod a new
    resource version. *)
Definition clusterUpdate (ns : string) (pod : Pod)
    (c : gmap (string * string) Pod)
  : gmap (string * string) Pod * (apiError + Pod) :=
  if negb (String.eqb (Namespace pod) ns) then (c, inl badRequestError)
  else
    match c !! (ns, Name pod) with
    | None => (c, inl notFoundError)
    | Some stored =>
        if negb (N.eqb (ResourceVersion pod) (ResourceVersion stored))
        then (c, inl conflictError)
        else
          let pod' :=
            withResourceVersion pod (N.succ (ResourceVersion stored)) in
          (<[(ns, Name pod) := pod']> c, inr pod')
    end.

#[local] Instance cluster : Clientset (gmap (string * string) Pod) :=
  {| List := clusterList; Update := clusterUpdate |}.

(** ** Requests in flight at the same time *)

(** One store call of a request, answered by the cluster; with the pod
    submitted, when the call is a write that the cluster accepts. *)
Definition stepProg {A : Type} (c : gmap (string * string) Pod) (p : Prog A)
  : gmap (string * string) Pod * Prog A * option Pod :=
  match p with
  | Ret a => (c, Ret a, None)
  | CallList ns opts k =>
      let '(c', r) := clusterList ns opts c in (c', k r, None)
  | CallUpdate ns pod k =>
      let '(c', r) := clusterUpdate ns pod c in
      (c', k r, match r with inr _ => Some pod | inl _ => None end)
  end.

(** The request at index [i] makes its next store call. *)
Definition stepAt {A : Type} (i : nat) (sys : System A) : System A :=
  match requests sys !! i with
  | None => sys
  | Some p =>
      let '(c', p', w) := stepProg (pods sys) p in
      {| pods := c';
         requests := <[i := p']> (requests sys);
         accepted := match w with
                     | Some pod => pod :: accepted sys
                     | None => accepted sys
                     end |}
  end.

(** A schedule names, call by call, the request whose turn it is. *)
Definition runSchedule {A : Type} (sched : list nat) (sys : System A)
  : System A :=
  foldl (fun sys i => stepAt i sys) sys sched.

End Cluster.

(** The result of a request that has finished. *)
Definition result {A : Type} (p : Prog A) : option A :=
  match p with Ret a => Some a | _ => None end.

(** An engine invocation that has returned without an error. *)
Definition succeeded (p : Prog (ResponseWriter * option error)) : bool :=
  match p with Ret (_, None) => true | _ => false end.

(** The counter a pod carries: 0 without the label, nothing if the label
    does not parse. *)
Definition counterOf (lbl : string) (pod : Pod) : option Z :=
  match getLabel (Labels pod) lbl with
  | None => Some 0
  | Some valueStr =>
      match Atoi valueStr with inr v => Some v | inl _ => None end
  end.

(** The record [updateLabel] submits for a fetched pod and a new value:
    the label removed, or set to the decimal string of the value. *)
Definition mutated (ws : webhookServer) (pod : Pod) (newValue : Z) : Pod :=
  if (newValue =? 0)%Z && removeOnZero ws
  then withLabels pod (deleteLabel (Labels pod) (label ws))
  else withLabels pod (setLabel (Labels pod) (label ws) (Itoa newValue)).

(** The options of the one query [updateLabel] makes. *)
Definition listOptions (ws : webhookServer) (podName : string) : ListOptions :=
  {| FieldSelector := "metadata.name=" ++ podName;
     LabelSelector := labelSelector ws;
     Limit := 1 |}.

(** ** What the retry loop does, in terms of runs *)

(** What [RetryOnConflict] does with [steps] steps left, in terms of the
    runs of [fn]: stop at the first run that returns no error or an error
    that is no conflict; after a conflict go on, as long as steps are
    left. *)
Fixpoint attempts {St : Type} `{Clientset St} {W : Type} (steps : nat)
    (fn : W -> Prog (W * option error))
    (w : W) (lastErr : option error) (st : St)
  : St * list Call * (W * option error) :=
  match steps with
  | O => (st, [], (w, lastErr))
  | S steps' =>
      let '(st1, c1, (w1, err)) := exec (fn w) st in
      match err with
      | None => (st1, c1, (w1, None))
      | Some e =>
          if IsConflict e then
            let '(st2, c2, r) := attempts steps' fn w1 (Some e) st1 in
            (st2, (c1 ++ c2)%list, r)
          else
            (st1, c1,
             (w1, match e with ErrWaitTimeout => lastErr | _ => Some e end))
      end
  end.

(** ** The ways an attempt ends *)

Definition listFailed (w : ResponseWriter) (err : apiError)
  : ResponseWriter * option error :=
  (http_Error w ("Failed to list pods: " ++ message err)
     StatusInternalServerError,
   Some (Wrap (APIErr err) "failed to list pods")).

Definition podNotFound (ws : webhookServer) (w : ResponseWriter)
    (podName : string)
  : ResponseWriter * option error :=
  (http_Error w "Pod not found" StatusNotFound,
   Some (Errorf ("pod " ++ podName ++ " not found in namespace "
                   ++ namespace ws))).

Definition invalidLabel (Quote : string -> string) (ws : webhookServer)
    (w : ResponseWriter) (valueStr : string) (err : error)
  : ResponseWriter * option error :=
  (http_Error w
     ("Invalid " ++ Quote (label ws) ++ " label value: " ++ Quote valueStr)
     StatusInternalServerError,
   Some (Wrap err
           ("invalid " ++ Quote (label ws) ++ " label value: "
              ++ Quote valueStr))).

Definition updateFailed (w : ResponseWriter) (err : apiError)
  : ResponseWriter * option error :=
  (http_Error w "Failed to update pod label" StatusInternalServerError,
   Some (Wrap (APIErr err) "failed to update pod label")).

Definition updated (w : ResponseWriter) (newValue : Z)
  : ResponseWriter * option error :=
  (Write (Itoa newValue) w, None).

(** [n] attempts in a row, each refused with a conflict: from writer [w]
    and store [st] to writer [w'] and store [st'], the last conflict
    being [e]. *)
Inductive conflicted {St : Type} `{Clientset St} (Quote : string -> string)
    (ws : webhookServer) (podName : string) (cb : Z -> Z)
  : nat -> ResponseWriter -> St -> St -> ResponseWriter -> error -> Prop :=
| conflicted_once w st st' calls w' e :
    exec (updateLabel Quote ws w podName cb) st = (st', calls, (w', Some e)) ->
    IsConflict e = true ->
    conflicted Quote ws podName cb 1 w st st' w' e
| conflicted_again n w st st1 calls w1 e1 st' w' e :
    exec (updateLabel Quote ws w podName cb) st = (st1, calls, (w1, Some e1)) ->
    IsConflict e1 = true ->
    conflicted Quote ws podName cb n w1 st1 st' w' e ->
    conflicted Quote ws podName cb (S n) w st st' w' e.

(** ** The states of concurrent increments *)

(** The engine invocation in the middle of its retry loop: [steps] steps
    left, the response written so far, and the last conflict seen. *)
Definition retryState (Quote : string -> string) (ws : webhookServer)
    (podName : string) (callback : Z -> Z)
    (steps : nat) (w : ResponseWriter) (lastErr : option error)
  : Prog (ResponseWriter * option error) :=
  '((w', lastErr), err) ←
    ExponentialBackoff steps
      (fun '(w, lastErr) =>
         '(w', err) ← updateLabel Quote ws w podName callback;
         match err with
         | None => Ret ((w', lastErr), (true, None))
         | Some e =>
             if IsConflict e then Ret ((w', Some e), (false, None))
             else Ret ((w', lastErr), (false, Some e))
         end)
      (w, lastErr);
  match err with
  | Some ErrWaitTimeout => Ret (w', lastErr)
  | _ => Ret (w', err)
  end.

(** The counter after [k] accepted increments, in [int] arithmetic. *)
Definition counterAfter (v0 : Z) (k : nat) : Z := wrapInt (v0 + Z.of_nat k).

(** Where an increment request can be while [k] writes have been
    accepted and [refused] writes of its own have been refused: at a
    query, with as many steps left as it has not used; at the write of a
    record mutated from a pod read when [j] writes had been accepted, no
    fewer than have been refused to it, and that carried the stored counter
    if no write has been accepted since; at its end with an error, all
    four writes refused; or at its end without one. *)
Definition requestInv (matches : string -> gmap string string -> bool)
    (Quote : string -> string) (ws : webhookServer)
    (podName : string) (v0 : Z) (rv0 : N)
    (k refused : nat) (p : Prog (ResponseWriter * option error))
  : Prop :=
  (exists n w lastErr,
     p = retryState Quote ws podName increment (S n) w lastErr
     /\ (refused + S n = 4)%nat
     /\ (refused <= k)%nat)
  \/ (exists n w snapshot v K2 j,
        p = CallUpdate (namespace ws)
              (mutated ws snapshot (increment v)) K2
        /\ (refused + S n = 4)%nat
        /\ (refused <= j)%nat
        /\ (j <= k)%nat
        /\ Name snapshot = podName
        /\ Namespace snapshot = namespace ws
        /\ ResourceVersion snapshot = (rv0 + N.of_nat j)%N
        /\ (j = k -> v = counterAfter v0 k)
        /\ matches (labelSelector ws)
             (labelsOf (mutated ws snapshot (increment v))) = true
        /\ (forall p2, K2 (inr p2) = Ret (updated w (increment v)))
        /\ (forall err,
              reason err = StatusReasonConflict ->
              K2 (inl err)
              = retryState Quote ws podName increment n
                  (updateFailed w err).1 (updateFailed w err).2))
  \/ (exists w e, p = Ret (w, Some e) /\ refused = 4%nat /\ (4 <= k)%nat)
  \/ (exists w, p = Ret (w, None) /\ (refused < 4)%nat /\ (refused < k)%nat).

Definition systemInv (matches : string -> gmap string string -> bool)
    (Quote : string -> string) (ws : webhookServer)
    (podName : string) (v0 : Z) (rv0 : N) (refused : nat -> nat)
    (sys : System (ResponseWriter * option error)) : Prop :=
  let k := length (accepted sys) in
  (exists cur,
     pods sys !! (namespace ws, podName) = Some cur
     /\ Name cur = podName
     /\ Namespace cur = namespace ws
     /\ counterOf (label ws) cur = Some (counterAfter v0 k)
     /\ ResourceVersion cur = (rv0 + N.of_nat k)%N
     /\ matches (labelSelector ws) (labelsOf cur) = true)
  /\ (forall i p,
        requests sys !! i = Some p ->
        requestInv matches Quote ws podName v0 rv0 k (refused i) p)
  /\ length (List.filter succeeded (requests sys)) = k
  /\ (fun p => (counterOf (label ws) p, ResourceVersion p))
       <$> rev (accepted sys)
     = (fun i => (Some (counterAfter v0 (S i)), (rv0 + N.of_nat i)%N))
         <$> seq 0 k.

(** ** Clusters and configurations to run the engine on *)

(** The part of [strconv.Quote] for strings of printable ASCII that hold
    no quote and no backslash: the string between two quotes. *)
Definition quotePlain (s : string) : string :=
  String (ascii_of_nat 34) (s ++ String (ascii_of_nat 34) EmptyString).

Fixpoint splitOn (sep : ascii) (s : string) : option (string * string) :=
  match s with
  | EmptyString => None
  | String a s' =>
      if Ascii.eqb a sep then Some (EmptyString, s')
      else match splitOn sep s' with
           | Some (l, r) => Some (String a l, r)
           | None => None
           end
  end.

(** The label selectors that are empty (every pod is selected) or one
    equality requirement [key=value]. *)
Definition equalitySelector (selector : string) (labels : gmap string string)
  : bool :=
  match selector with
  | EmptyString => true
  | _ =>
      match splitOn "=" selector with
      | Some (key, value) => bool_decide (labels !! key = Some value)
      | None => false
      end
  end.

Definition job1 : Pod :=
  {| Name := "job-1"; Namespace := "default"; Labels := None;
     ResourceVersion := 7 |}.

Definition activeJob : Pod :=
  {| Name := "job-1"; Namespace := "default";
     Labels := Some {[ "active-jobs" := "1" ]};
     ResourceVersion := 7 |}.

Definition corruptJob : Pod :=
  {| Name := "job-1"; Namespace := "default";
     Labels := Some {[ "active-jobs" := "abc" ]};
     ResourceVersion := 7 |}.

Definition minusOneJob : Pod :=
  {| Name := "job-1"; Namespace := "default";
     Labels := Some {[ "active-jobs" := "-1" ]};
     ResourceVersion := 7 |}.

Definition oneJob : gmap (string * string) Pod :=
  {[ ("default", "job-1") := job1 ]}.

Definition corruptCluster : gmap (string * string) Pod :=
  {[ ("default", "job-1") := corruptJob ]}.

Definition post (path podName : string) : Request :=
  {| Method := "POST"; Path := path; Query := [("pod_name", podName)] |}.

Definition storedLabel (c : gmap (string * string) Pod) (ns name lbl : string)
  : option (option string) :=
  (fun p => getLabel (Labels p) lbl) <$> c !! (ns, name).

Definition okResponse (text : string) : ResponseWriter :=
  {| statusCode := Some StatusOK; body := text |}.

Definition conflictWrapped : error :=
  Wrap (APIErr conflictError) "failed to update pod label".

(** The default configuration, restricted to the pods labelled
    app=worker. *)
Definition workersOnly : webhookServer :=
  {| namespace := "default"; labelSelector := "app=worker";
     address := "0.0.0.0:8080"; label := "active-jobs";
     removeOnZero := true; allowNegative := false |}.

(** Labels kept at zero. *)
Definition keepZero : webhookServer :=
  {| namespace := "default"; labelSelector := EmptyString;
     address := "0.0.0.0:8080"; label := "active-jobs";
     removeOnZero := false; allowNegative := false |}.

(** Negative values allowed, the label removed at zero. *)
Definition signedCounter : webhookServer :=
  {| namespace := "default"; labelSelector := EmptyString;
     address := "0.0.0.0:8080"; label := "active-jobs";
     removeOnZero := true; allowNegative := true |}.




(** Another writer updates the pod: its resource version moves on. *)
Definition touch (ns name : string) (c : gmap (string * string) Pod)
  : gmap (string * string) Pod :=
  match c !! (ns, name) with
  | Some pod =>
      <[(ns, name) :=
          withResourceVersion pod (N.succ (ResourceVersion pod))]> c
  | None => c
  end.


(** Two requests POST /increment?pod_name=job-1 in flight at the same
    time, under the default configuration. *)
Definition twoIncrements : System ResponseWriter :=
  {| pods := oneJob;
     requests :=
       replicate 2
         (router quotePlain configureFlags newResponse
            (post "/increment" "job-1"));
     accepted := [] |}.

(** Five engine invocations of the increment in flight at the same
    time. *)
Definition fiveIncrements : System (ResponseWriter * option error) :=
  {| pods := oneJob;
     requests :=
       replicate 5
         (retryUpdateLabel quotePlain configureFlags newResponse "job-1"
            increment);
     accepted := [] |}.

(** Request 0 reads; then, four times over, another request reads and
    writes before request 0 writes and reads again. *)
Definition starved : list nat :=
  [0; 1; 1; 0; 0; 2; 2; 0; 0; 3; 3; 0; 0; 4; 4; 0]%nat.

(** ** Observations on the calls of a run *)

Definition isListCall (c : Call) : bool :=
  match c with ListCall _ _ => true | UpdateCall _ _ => false end.

(** A request that makes at most [d] more store calls, whatever the
    store answers. *)
Inductive finishesWithin {A : Type} : nat -> Prog A -> Prop :=
| finishes_ret d a : finishesWithin d (Ret a)
| finishes_list d ns opts k :
    (forall r, finishesWithin d (k r)) ->
    finishesWithin (S d) (CallList ns opts k)
| finishes_update d ns pod k :
    (forall r, finishesWithin d (k r)) ->
    finishesWithin (S d) (CallUpdate ns pod k).

(** The turns request [i] gets in a schedule. *)
Definition turns (i : nat) (sched : list nat) : nat :=
  length (List.filter (Nat.eqb i) sched).

(** Whether the next store call of request [i] is a write that the
    cluster refuses with a conflict. *)
Definition refusedAt {A : Type} (i : nat) (sys : System A) : bool :=
  match requests sys !! i with
  | Some (CallUpdate ns pod _) =>
      match (clusterUpdate ns pod (pods sys)).2 with
      | inl err =>
          match reason err with
          | StatusReasonConflict => true
          | _ => false
          end
      | inr _ => false
      end
  | _ => false
  end.

(** The writes of request [i] that the cluster refuses with a conflict
    in the course of a schedule. *)
Fixpoint refusals {A : Type}
    (matches : string -> gmap string string -> bool)
    (i : nat) (sched : list nat) (sys : System A) : nat :=
  match sched with
  | [] => 0
  | j :: sched' =>
      (if Nat.eqb j i && refusedAt i sys then 1 else 0)
      + refusals matches i sched' (stepAt matches j sys)
  end.

(** The requests, of the first [n], whose writes a schedule has refused
    four times. *)
Definition lostCalls {A : Type}
    (matches : string -> gmap string string -> bool)
    (n : nat) (sched : list nat) (sys : System A) : nat :=
  length (List.filter (fun i => Nat.eqb (refusals matches i sched sys) 4)
            (seq 0 n)).

(** An engine invocation that has returned an error. *)
Definition gaveUp (p : Prog (ResponseWriter * option error)) : bool :=
  match p with Ret (_, Some _) => true | _ => false end.

(** ** The other draft in [main.go]: [/register-job] and
    [/unregister-job] *)

Module JobTracker.

Definition activeJobsLabel : string := "active-jobs".

(** The fields of the draft's server, but for [kubeConfig]. *)
Record webhookServer := {
  namespace : string;
  labelSelector : string;
  address : string
}.

(** The values the draft's [configureFlags] gives the fields when no flag
    is set. *)
Definition configureFlags : webhookServer :=
  {| namespace := "default";
     labelSelector := EmptyString;
     address := "0.0.0.0:8080" |}.

Section Engine.

Variable Quote : string -> string.

Definition updateJobsLabel (ws : webhookServer) (w : ResponseWriter)
    (podName : string) (callback : Z -> Z)
  : Prog (ResponseWriter * option error) :=
  r ← PodsList (namespace ws)
        {| FieldSelector := "metadata.name=" ++ podName;
           LabelSelector := labelSelector ws;
           Limit := 1 |};
  match r with
  | inl err =>
      Ret (http_Error w ("Failed to list pods: " ++ message err)
             StatusInternalServerError,
           Some (Wrap (APIErr err) "failed to list pods"))
  | inr [] =>
      Ret (http_Error w "Pod not found" StatusNotFound,
           Some (Errorf ("pod " ++ podName ++ " not found in namespace "
                           ++ namespace ws)))
  | inr (pod :: _) =>
      let parsed :=
        match getLabel (Labels pod) activeJobsLabel with
        | None => inr 0
        | Some activeJobsStr =>
            match Atoi activeJobsStr with
            | inl err => inl (activeJobsStr, err)
            | inr activeJobs => inr activeJobs
            end
        end in
      match parsed with
      | inl (activeJobsStr, err) =>
          Ret (http_Error w
                 ("Invalid active-jobs label value: " ++ Quote activeJobsStr)
                 StatusInternalServerError,
               Some (Wrap err
                       ("invalid active-jobs label value: "
                          ++ Quote activeJobsStr)))
      | inr activeJobs =>
          let newValue := callback activeJobs in
          let pod' :=
            if (newValue <=? 0)%Z
            then withLabels pod (deleteLabel (Labels pod) activeJobsLabel)
            else withLabels pod
                   (setLabel (Labels pod) activeJobsLabel (Itoa newValue)) in
          r ← PodsUpdate (Namespace pod') pod';
          match r with
          | inl err =>
              Ret (http_Error w "Failed to update pod label"
                     StatusInternalServerError,
                   Some (Wrap (APIErr err) "failed to update pod label"))
          | inr _ =>
              Ret (Write (activeJobsLabel ++ " label updated to "
                            ++ Itoa activeJobs ++ " for pod " ++ podName) w,
                   None)
          end
      end
  end.

(** The engine invocation of [updateJobsLabelRequest]. *)
Definition retryUpdateJobsLabel (ws : webhookServer) (w : ResponseWriter)
    (podName : string) (callback : Z -> Z)
  : Prog (ResponseWriter * option error) :=
  RetryOnConflict DefaultBackoff
    (fun w => updateJobsLabel ws w podName callback) w.

Definition updateJobsLabelRequest (ws : webhookServer) (w : ResponseWriter)
    (r : Request) (callback : Z -> Z) : Prog ResponseWriter :=
  if negb (String.eqb (Method r) MethodPost) then
    Ret (http_Error w "Method not allowed" StatusMethodNotAllowed)
  else
    let podName := Get (Query r) "pod_name" in
    if String.eqb podName EmptyString then
      Ret (http_Error w "Missing pod_name query parameter" StatusBadRequest)
    else
      '(w', _) ← retryUpdateJobsLabel ws w podName callback;
      Ret w'.

(** Increment the active jobs count. *)
Definition registerJob (currentValue : Z) : Z := wrapInt (currentValue + 1).

(** Decrement the active jobs count. *)
Definition unregisterJob (currentValue : Z) : Z := wrapInt (currentValue - 1).

Definition buildRegisterJobHandler (ws : webhookServer)
  : ResponseWriter -> Request -> Prog ResponseWriter :=
  fun w r => updateJobsLabelRequest ws w r registerJob.

Definition buildUnregisterJobHandler (ws : webhookServer)
  : ResponseWriter -> Request -> Prog ResponseWriter :=
  fun w r => updateJobsLabelRequest ws w r unregisterJob.

End Engine.

(** The options of the one query [updateJobsLabel] makes. *)
Definition listOptions (ws : webhookServer) (podName : string) : ListOptions :=
  {| FieldSelector := "metadata.name=" ++ podName;
     LabelSelector := labelSelector ws;
     Limit := 1 |}.

(** The record [updateJobsLabel] submits for a fetched pod and a new
    value. *)
Definition mutated (pod : Pod) (newValue : Z) : Pod :=
  if (newValue <=? 0)%Z
  then withLabels pod (deleteLabel (Labels pod) activeJobsLabel)
  else withLabels pod (setLabel (Labels pod) activeJobsLabel (Itoa newValue)).

(** The body of the draft's answer to a request it has served. *)
Definition updatedBody (activeJobs : Z) (podName : string) : string :=
  activeJobsLabel ++ " label updated to " ++ Itoa activeJobs
    ++ " for pod " ++ podName.

End JobTracker.

(** ** More pods and stores to run the engine on *)

Definition workerJob : Pod :=
  {| Name := "job-1"; Namespace := "default";
     Labels := Some (<["app" := "worker"]> {[ "active-jobs" := "1" ]});
     ResourceVersion := 7 |}.

Definition negativeJob : Pod :=
  {| Name := "job-1"; Namespace := "default";
     Labels := Some {[ "active-jobs" := "-5" ]};
     ResourceVersion := 7 |}.

(** A pod whose counter is the largest [int]. *)
Definition fullJob : Pod :=
  {| Name := "job-1"; Namespace := "default";
     Labels := Some {[ "active-jobs" := Itoa MaxInt ]};
     ResourceVersion := 7 |}.

(** A pod whose counter label is one more than the largest [int]. *)
Definition overfullJob : Pod :=
  {| Name := "job-1"; Namespace := "default";
     Labels := Some {[ "active-jobs" := Itoa (MaxInt + 1) ]};
     ResourceVersion := 7 |}.

Definition clusterOf (pod : Pod) : gmap (string * string) Pod :=
  {[ (Namespace pod, Name pod) := pod ]}.

(** A cluster on which another writer gets in before the first [n]
    writes of the server, and not after. *)
Definition interfered (matches : string -> gmap string string -> bool)
  : Clientset (gmap (string * string) Pod * nat) :=
  {| List := fun ns opts '(c, n) =>
       let '(c', r) := clusterList matches ns opts c in ((c', n), r);
     Update := fun ns pod '(c, n) =>
       match n with
       | O => let '(c', r) := clusterUpdate ns pod c in ((c', O), r)
       | S n' =>
           let '(c', r) := clusterUpdate ns pod (touch ns (Name pod) c) in
           ((c', n'), r)
       end |}.

Definition get (path podName : string) : Request :=
  {| Method := "GET"; Path := path; Query := [("pod_name", podName)] |}.

Definition postWithoutName (path : string) : Request :=
  {| Method := "POST"; Path := path; Query := [] |}.

(** Appending to a string that begins with known characters. *)
Ltac push_append :=
  repeat first
    [ progress change (String ?c ?a ++ ?b) with (String c (a ++ b))
    | progress change (EmptyString ++ ?b) with b ].

Ltac push_append_in H :=
  repeat first
    [ progress change (String ?c ?a ++ ?b) with (String c (a ++ b)) in H
    | progress change (EmptyString ++ ?b) with b in H ].

(** * Properties *)

(** ** Integers and their decimal strings *)

Lemma wrapInt_inInt (z : Z) : inInt z -> wrapInt z = z.
Proof.
  unfold inInt, wrapInt, MinInt, MaxInt. intros Hz.
  rewrite Z.mod_small; lia.
Qed.

Lemma wrapInt_range (z : Z) : inInt (wrapInt z).
Proof.
  unfold inInt, wrapInt, MinInt, MaxInt.
  pose proof (Z.mod_pos_bound (z + 2 ^ 63) (2 ^ 64)). lia.
Qed.

Lemma to_int_not_nil (z : Z) :
  Z.to_int z <> Decimal.Pos Decimal.Nil /\ Z.to_int z <> Decimal.Neg Decimal.Nil.
Proof.
  destruct z as [|p|p]; simpl; split; try discriminate;
    intros [= Hp]; revert Hp; apply DecimalPos.Unsigned.to_uint_nonnil.
Qed.

Lemma parseDecimal_plus (s : string) :
  parseDecimal (String "+" s) = Z.of_uint <$> NilZero.uint_of_string s.
Proof. reflexivity. Qed.

Lemma parseDecimal_other (s : string) :
  NilZero.int_of_string s <> None ->
  parseDecimal s = Z.of_int <$> NilZero.int_of_string s.
Proof.
  destruct s as [|a s]; [reflexivity|].
  destruct (Ascii.eqb_spec a "+") as [->|Hne].
  - intros H. exfalso. apply H. simpl.
    destruct (NilEmpty.uint_of_string s); reflexivity.
  - intros _. unfold parseDecimal.
    destruct a as [[] [] [] [] [] [] [] []]; try reflexivity.
    congruence.
Qed.

Lemma parseDecimal_Itoa (z : Z) : parseDecimal (Itoa z) = Some z.
Proof.
  destruct (to_int_not_nil z) as [Hp Hn].
  pose proof (NilZero.isi (Z.to_int z) Hp Hn) as Hisi.
  rewrite parseDecimal_other; unfold Itoa; rewrite Hisi; [|discriminate].
  simpl. now rewrite DecimalZ.of_to.
Qed.

Lemma Atoi_Itoa (z : Z) : inInt z -> Atoi (Itoa z) = inr z.
Proof.
  intros [Hlo Hhi]. unfold Atoi. rewrite parseDecimal_Itoa.
  destruct (Z.leb_spec MinInt z); [|lia].
  destruct (Z.leb_spec z MaxInt); [|lia].
  reflexivity.
Qed.

Lemma Atoi_inInt (s : string) (z : Z) : Atoi s = inr z -> inInt z.
Proof.
  unfold Atoi, inInt. destruct (parseDecimal s) as [z'|]; [|discriminate].
  destruct (Z.leb_spec MinInt z'); [|discriminate].
  destruct (Z.leb_spec z' MaxInt); [|discriminate].
  intros [= <-]. lia.
Qed.

Lemma uint_of_string_allDigits (s : string) :
  allDigits s = false -> NilEmpty.uint_of_string s = None.
Proof.
  induction s as [|a s IH]; [discriminate|].
  cbn [allDigits NilEmpty.uint_of_string]. intros Hd.
  destruct (NilEmpty.uint_of_string s) as [d|]; [|reflexivity].
  destruct (allDigits s); [|discriminate (IH eq_refl)].
  rewrite andb_true_r in Hd.
  destruct a as [[] [] [] [] [] [] [] []]; try reflexivity; discriminate.
Qed.

Lemma uint_of_string_unsignedDecimal (s : string) :
  unsignedDecimal s = false -> NilZero.uint_of_string s = None.
Proof.
  destruct s as [|a s]; [reflexivity|].
  intros Hd. apply (uint_of_string_allDigits (String a s)), Hd.
Qed.

(** A string that is no base-10 integer is a syntax error for [Atoi]. *)
Lemma Atoi_not_decimal (s : string) :
  isDecimalInteger s = false -> Atoi s = inl (NumError "Atoi" s ErrSyntax).
Proof.
  intros Hd. unfold Atoi.
  assert (Hp : parseDecimal s = None); [|rewrite Hp; reflexivity].
  destruct s as [|a s]; [reflexivity|].
  cbn [isDecimalInteger] in Hd.
  destruct (Ascii.eqb_spec a "+") as [->|Hplus].
  - rewrite parseDecimal_plus.
    rewrite (uint_of_string_unsignedDecimal s Hd). reflexivity.
  - assert (Hint : NilZero.int_of_string (String a s) = None).
    { cbn [NilZero.int_of_string].
      destruct (Ascii.eqb a "-"); cbn [orb] in Hd;
        rewrite (uint_of_string_unsignedDecimal _ Hd); reflexivity. }
    unfold parseDecimal.
    destruct a as [[] [] [] [] [] [] [] []];
      try (rewrite Hint; reflexivity).
    congruence.
Qed.

Lemma Atoi_error_not_conflict (s : string) (e : error) :
  Atoi s = inl e -> IsConflict e = false /\ e <> ErrWaitTimeout.
Proof.
  unfold Atoi. destruct (parseDecimal s) as [z|].
  - destruct (_ && _); [discriminate|]. intros [= <-]. split; [reflexivity|discriminate].
  - intros [= <-]. split; [reflexivity|discriminate].
Qed.

(** ** Sequential runs *)

Section Sequential.

Context {St : Type} `{Clientset St}.

Lemma exec_bind {A B : Type} (m : Prog A) (f : A -> Prog B) (st : St) :
  exec (bind m f) st =
  let '(st1, c1, a) := exec m st in
  let '(st2, c2, b) := exec (f a) st1 in
  (st2, (c1 ++ c2)%list, b).
Proof.
  revert st. induction m as [a|ns opts k IH|ns pod k IH]; intros st; simpl.
  - destruct (exec (f a) st) as [[st2 c2] b]. reflexivity.
  - destruct (List ns opts st) as [st1 r]. rewrite IH.
    destruct (exec (k r) st1) as [[st2 c1] a].
    destruct (exec (f a) st2) as [[st3 c2] b]. reflexivity.
  - destruct (Update ns pod st) as [st1 r]. rewrite IH.
    destruct (exec (k r) st1) as [[st2 c1] a].
    destruct (exec (f a) st2) as [[st3 c2] b]. reflexivity.
Qed.

Lemma exec_OnError_attempts {W : Type} (steps : nat)
    (fn : W -> Prog (W * option error)) (w : W) (lastErr : option error)
    (st : St) :
  exec ('((w', lastErr), err) ←
         ExponentialBackoff steps
           (fun '(w, lastErr) =>
              '(w', err) ← fn w;
              match err with
              | None => Ret ((w', lastErr), (true, None))
              | Some e =>
                  if IsConflict e then Ret ((w', Some e), (false, None))
                  else Ret ((w', lastErr), (false, Some e))
              end)
           (w, lastErr);
       match err with
       | Some ErrWaitTimeout => Ret (w', lastErr)
       | _ => Ret (w', err)
       end) st
  = attempts steps fn w lastErr st.
Proof.
  revert w lastErr st.
  induction steps as [|n IH]; intros w lastErr st; [reflexivity|].
  unfold mbind, Prog_bind in *. simpl ExponentialBackoff.
  unfold mbind, Prog_bind. simpl attempts.
  rewrite !exec_bind.
  destruct (exec (fn w) st) as [[st1 c1] [w1 [e|]]]; simpl.
  - destruct (IsConflict e) eqn:Hc; simpl.
    + rewrite <- IH, exec_bind.
      destruct (exec (ExponentialBackoff _ _ _) st1) as [[st2 c2] [[w2 le2] err2]].
      simpl. destruct err2 as [[]|]; simpl; rewrite !app_nil_r; reflexivity.
    + destruct e; simpl; rewrite ?app_nil_r; reflexivity.
  - rewrite !app_nil_r. reflexivity.
Qed.

Lemma exec_RetryOnConflict {W : Type} (backoff : Backoff)
    (fn : W -> Prog (W * option error)) (w : W) (st : St) :
  exec (RetryOnConflict backoff fn w) st = attempts (Steps backoff) fn w None st.
Proof. apply exec_OnError_attempts. Qed.

End Sequential.

(** ** One attempt, and the retried invocation, against any clientset *)

Section Attempt.

Context {St : Type} `{Clientset St}.
Variable Quote : string -> string.
Variable ws : webhookServer.

Lemma exec_updateLabel_list_error w podName cb st st1 err :
  List (namespace ws) (listOptions ws podName) st = (st1, inl err) ->
  exec (updateLabel Quote ws w podName cb) st =
  (st1, [ListCall (namespace ws) (listOptions ws podName)], listFailed w err).
Proof.
  intros HL. unfold updateLabel, listOptions in *. simpl. rewrite HL.
  reflexivity.
Qed.

Lemma exec_updateLabel_no_pod w podName cb st st1 :
  List (namespace ws) (listOptions ws podName) st = (st1, inr []) ->
  exec (updateLabel Quote ws w podName cb) st =
  (st1, [ListCall (namespace ws) (listOptions ws podName)],
   podNotFound ws w podName).
Proof.
  intros HL. unfold updateLabel, listOptions in *. simpl. rewrite HL.
  reflexivity.
Qed.

Lemma exec_updateLabel_corrupt w podName cb st st1 pod rest valueStr err :
  List (namespace ws) (listOptions ws podName) st = (st1, inr (pod :: rest)) ->
  getLabel (Labels pod) (label ws) = Some valueStr ->
  Atoi valueStr = inl err ->
  exec (updateLabel Quote ws w podName cb) st =
  (st1, [ListCall (namespace ws) (listOptions ws podName)],
   invalidLabel Quote ws w valueStr err).
Proof.
  intros HL Hlbl Hparse. unfold updateLabel, listOptions in *. simpl.
  rewrite HL. simpl. rewrite Hlbl, Hparse. reflexivity.
Qed.

Lemma exec_updateLabel_write w podName cb st st1 pod rest v :
  List (namespace ws) (listOptions ws podName) st = (st1, inr (pod :: rest)) ->
  counterOf (label ws) pod = Some v ->
  exec (updateLabel Quote ws w podName cb) st =
  let '(st2, r) := Update (Namespace pod) (mutated ws pod (cb v)) st1 in
  (st2,
   [ListCall (namespace ws) (listOptions ws podName);
    UpdateCall (Namespace pod) (mutated ws pod (cb v))],
   match r with
   | inl err => updateFailed w err
   | inr _ => updated w (cb v)
   end).
Proof.
  intros HL Hctr. unfold updateLabel, listOptions in *. simpl.
  rewrite HL. simpl. unfold counterOf in Hctr.
  assert (Hns : forall nv, Namespace (mutated ws pod nv) = Namespace pod).
  { intros nv. unfold mutated. destruct (_ && _); reflexivity. }
  destruct (getLabel (Labels pod) (label ws)) as [valueStr|].
  - destruct (Atoi valueStr) as [e|v']; [discriminate|].
    injection Hctr as ->. fold (mutated ws pod (cb v)). rewrite Hns. simpl.
    destruct (Update _ _ st1) as [st2 [err|p2]]; reflexivity.
  - injection Hctr as <-. fold (mutated ws pod (cb 0)). rewrite Hns. simpl.
    destruct (Update _ _ st1) as [st2 [err|p2]]; reflexivity.
Qed.

(** An attempt that ends without a conflict is the whole invocation. *)
Lemma exec_retry_first_attempt w podName cb st st1 calls w1 err :
  exec (updateLabel Quote ws w podName cb) st = (st1, calls, (w1, err)) ->
  (forall e, err = Some e -> IsConflict e = false /\ e <> ErrWaitTimeout) ->
  exec (retryUpdateLabel Quote ws w podName cb) st = (st1, calls, (w1, err)).
Proof.
  intros Hrun Herr. unfold retryUpdateLabel.
  rewrite exec_RetryOnConflict.
  change (Steps DefaultBackoff) with 4%nat. cbn [attempts]. rewrite Hrun.
  destruct err as [e|]; [|reflexivity].
  destruct (Herr e eq_refl) as [-> Hne].
  destruct e; try reflexivity. congruence.
Qed.

(** A well-formed request is its engine invocation, with the error
    dropped. *)
Lemma exec_updateLabelRequest w r cb st :
  Method r = MethodPost ->
  Get (Query r) "pod_name" <> EmptyString ->
  exec (updateLabelRequest Quote ws w r cb) st =
  let '(st', calls, (w', _)) :=
    exec (retryUpdateLabel Quote ws w (Get (Query r) "pod_name") cb) st in
  (st', calls, w').
Proof.
  intros HM HQ. unfold updateLabelRequest. rewrite HM.
  change (negb (String.eqb MethodPost MethodPost)) with false. cbv iota.
  destruct (String.eqb_spec (Get (Query r) "pod_name") EmptyString) as [|_];
    [contradiction|].
  unfold mbind, Prog_bind. rewrite exec_bind.
  destruct (exec _ st) as [[st' calls] [w' err]]. simpl.
  rewrite app_nil_r. reflexivity.
Qed.

End Attempt.

(** ** The cluster's answers *)

Section ClusterFacts.

Variable matches : string -> gmap string string -> bool.

(** A plain name is one term of a selector, and its own value. *)
Lemma plainName_cons c s :
  plainName (String c s) = true ->
  Ascii.eqb c backslash = false /\ Ascii.eqb c "," = false
  /\ Ascii.eqb c "=" = false /\ plainName s = true.
Proof.
  cbn [plainName]. intros H. apply andb_prop in H as [Hc Hs].
  apply negb_true_iff in Hc.
  apply orb_false_elim in Hc as [Hc Heq].
  apply orb_false_elim in Hc as [Hslash Hcomma].
  repeat split; assumption.
Qed.

Lemma splitTermsFrom_plain s :
  plainName s = true -> splitTermsFrom false s = (s, []).
Proof.
  induction s as [|c s IH]; [reflexivity|].
  intros H. apply plainName_cons in H as (Hslash & Hcomma & _ & Hs).
  cbn [splitTermsFrom negb andb]. rewrite Hslash, Hcomma, (IH Hs).
  reflexivity.
Qed.

Lemma unescapeFrom_plain s :
  plainName s = true -> unescapeFrom false s = Some s.
Proof.
  induction s as [|c s IH]; [reflexivity|].
  intros H. apply plainName_cons in H as (Hslash & Hcomma & Heq & Hs).
  cbn [unescapeFrom]. rewrite Hslash, Hcomma, Heq, (IH Hs). reflexivity.
Qed.

Lemma ParseSelector_name podName :
  plainName podName = true ->
  ParseSelector ("metadata.name=" ++ podName)
  = Some [{| fieldLabel := "metadata.name"; notHas := false;
             fieldValue := podName |}].
Proof.
  intros Hplain. unfold ParseSelector, splitTerms.
  cbv [String.append].
  cbn [splitTermsFrom negb andb Ascii.eqb Bool.eqb backslash].
  rewrite (splitTermsFrom_plain _ Hplain).
  pose proof (unescapeFrom_plain _ Hplain) as Hvalue.
  destruct podName as [|d rest]; [reflexivity|].
  apply plainName_cons in Hplain as (_ & _ & Heq & _).
  cbn [parseTerms splitTerm Ascii.eqb Bool.eqb andb]. rewrite Heq.
  unfold UnescapeValue. rewrite Hvalue. reflexivity.
Qed.

(** A pod name with a comma or an equals sign in it is more than a name
    to the store. *)
Lemma append_empty_r (s : string) : s ++ EmptyString = s.
Proof.
  induction s as [|c s IH]; [reflexivity|].
  change (String c s ++ EmptyString) with (String c (s ++ EmptyString)).
  rewrite IH. reflexivity.
Qed.

Lemma splitTermsFrom_plain_app a b :
  plainName a = true ->
  splitTermsFrom false (a ++ b)
  = (a ++ (splitTermsFrom false b).1, (splitTermsFrom false b).2).
Proof.
  induction a as [|c a IH]; intros Hplain.
  - change (EmptyString ++ b) with b.
    destruct (splitTermsFrom false b) as [t ts]. reflexivity.
  - apply plainName_cons in Hplain as (Hslash & Hcomma & _ & Ha).
    change (String c a ++ b) with (String c (a ++ b)).
    cbn [splitTermsFrom negb andb]. rewrite Hslash, Hcomma, (IH Ha).
    reflexivity.
Qed.

Lemma splitTerm_value (lhs value : string) :
  forallb (fun c => negb (Ascii.eqb c "!") && negb (Ascii.eqb c "="))
    (list_ascii_of_string lhs) = true ->
  (forall rest, value <> String "=" rest) ->
  splitTerm (lhs ++ String "=" value) = Some (lhs, false, value).
Proof.
  intros Hl Hv. induction lhs as [|c lhs IH].
  - change (EmptyString ++ String "=" value) with (String "=" value).
    destruct value as [|d value]; [reflexivity|].
    cbn [splitTerm Ascii.eqb Bool.eqb andb].
    destruct (Ascii.eqb_spec d "=") as [->|_]; [|reflexivity].
    exfalso. apply (Hv value). reflexivity.
  - cbn [list_ascii_of_string forallb] in Hl.
    apply andb_prop in Hl as [Hc Hl]. apply andb_prop in Hc as [Hbang Heq].
    apply negb_true_iff in Hbang, Heq.
    specialize (IH Hl).
    change (String c lhs ++ String "=" value)
      with (String c (lhs ++ String "=" value)).
    cbn [splitTerm].
    destruct (lhs ++ String "=" value) as [|d rest] eqn:Hrest.
    + destruct lhs; discriminate.
    + rewrite Hbang, Heq. cbn [andb]. rewrite IH. reflexivity.
Qed.

Lemma plainName_head (value rest : string) :
  plainName value = true -> value <> String "=" rest.
Proof. intros Hv ->. discriminate. Qed.

Lemma unescapeFrom_bare_equals (value : string) :
  plainName value = true ->
  unescapeFrom false (value ++ "=") = None.
Proof.
  induction value as [|c value IH]; intros Hv; [reflexivity|].
  apply plainName_cons in Hv as (Hslash & Hcomma & Heq & Hv).
  change (String c value ++ "=") with (String c (value ++ "=")).
  cbn [unescapeFrom]. rewrite Hslash, Hcomma, Heq, (IH Hv). reflexivity.
Qed.

Lemma ParseSelector_name_namespace (n ns : string) :
  plainName n = true ->
  plainName ns = true ->
  ParseSelector ("metadata.name=" ++ n ++ ",metadata.namespace=" ++ ns)
  = Some [{| fieldLabel := "metadata.name"; notHas := false;
             fieldValue := n |};
          {| fieldLabel := "metadata.namespace"; notHas := false;
             fieldValue := ns |}].
Proof.
  intros Hn Hns.
  assert (Hterms : splitTerms ("metadata.name=" ++ n
                                 ++ ",metadata.namespace=" ++ ns)
                   = ["metadata.name" ++ String "=" n;
                      "metadata.namespace" ++ String "=" ns]).
  { unfold splitTerms. push_append. cbv iota.
    cbn [splitTermsFrom negb andb Ascii.eqb Bool.eqb backslash].
    rewrite (splitTermsFrom_plain_app _ _ Hn).
    cbn [splitTermsFrom negb andb Ascii.eqb Bool.eqb backslash fst snd].
    rewrite (splitTermsFrom_plain _ Hns). cbn [fst snd].
    rewrite append_empty_r. reflexivity. }
  unfold ParseSelector. rewrite Hterms.
  assert (Hname : splitTerm ("metadata.name" ++ String "=" n)
                  = Some ("metadata.name", false, n))
    by (apply splitTerm_value;
        [reflexivity|intros rest; apply plainName_head, Hn]).
  assert (Hnamespace : splitTerm ("metadata.namespace" ++ String "=" ns)
                       = Some ("metadata.namespace", false, ns))
    by (apply splitTerm_value;
        [reflexivity|intros rest; apply plainName_head, Hns]).
  cbn [parseTerms]. push_append. cbv iota.
  push_append_in Hname. push_append_in Hnamespace.
  rewrite Hname, Hnamespace. unfold UnescapeValue.
  rewrite (unescapeFrom_plain _ Hn), (unescapeFrom_plain _ Hns).
  reflexivity.
Qed.

Lemma ParseSelector_bare_equals (n : string) :
  plainName n = true ->
  n <> EmptyString ->
  ParseSelector ("metadata.name=" ++ n ++ "=") = None.
Proof.
  intros Hn Hne.
  assert (Hterms : splitTerms ("metadata.name=" ++ n ++ "=")
                   = ["metadata.name" ++ String "=" (n ++ "=")]).
  { unfold splitTerms. push_append. cbv iota.
    cbn [splitTermsFrom negb andb Ascii.eqb Bool.eqb backslash].
    rewrite (splitTermsFrom_plain_app _ _ Hn).
    cbn [splitTermsFrom negb andb Ascii.eqb Bool.eqb backslash fst snd].
    reflexivity. }
  unfold ParseSelector. rewrite Hterms.
  assert (Hname : splitTerm ("metadata.name" ++ String "=" (n ++ "="))
                  = Some ("metadata.name", false, n ++ "=")).
  { apply splitTerm_value; [reflexivity|].
    intros rest Heq. destruct n as [|c n]; [congruence|].
    apply plainName_cons in Hn as (_ & _ & Hc & _).
    change (String c n ++ "=") with (String c (n ++ "=")) in Heq.
    injection Heq as -> _. discriminate. }
  cbn [parseTerms]. push_append. cbv iota. push_append_in Hname.
  rewrite Hname. unfold UnescapeValue.
  rewrite (unescapeFrom_bare_equals _ Hn). reflexivity.
Qed.

(** A query never changes the cluster. *)
Lemma clusterList_pods ns opts c : (clusterList matches ns opts c).1 = c.
Proof.
  unfold clusterList. destruct (ParseSelector _); [|reflexivity].
  destruct (negb _); reflexivity.
Qed.

(** The query of [updateLabel] for a plain name, in a namespace, is the
    lookup of the pod of that name. *)
Lemma clusterList_named (ns podName selector : string) c :
  ns <> EmptyString ->
  plainName podName = true ->
  clusterList matches ns
    {| FieldSelector := "metadata.name=" ++ podName;
       LabelSelector := selector; Limit := 1 |} c
  = (c, inr match c !! (ns, podName) with
            | Some pod => if matches selector (labelsOf pod) then [pod] else []
            | None => []
            end).
Proof.
  intros Hns Hplain. unfold clusterList. cbn [FieldSelector LabelSelector Limit].
  rewrite (ParseSelector_name _ Hplain).
  destruct ns as [|a ns]; [contradiction|].
  cbn [forallb fieldLabel RequiresExactMatch notHas fieldValue negb andb].
  change (knownField "metadata.name") with true.
  change (String.eqb "metadata.name" "metadata.name") with true.
  cbn [negb andb].
  assert (Hmeets : meets (String a ns, podName)
                     {| fieldLabel := "metadata.name"; notHas := false;
                        fieldValue := podName |} = true).
  { unfold meets, podField. cbn [fieldLabel notHas fieldValue snd].
    change (String.eqb "metadata.name" "metadata.name") with true.
    cbn iota. rewrite String.eqb_refl. reflexivity. }
  destruct (c !! (String a ns, podName)) as [pod|]; [|reflexivity].
  cbn [List.filter forallb fst snd]. rewrite Hmeets. cbn [andb negb].
  destruct (matches selector (labelsOf pod)); reflexivity.
Qed.

Lemma clusterList_present (ws : webhookServer) podName c cur :
  namespace ws <> EmptyString ->
  plainName podName = true ->
  c !! (namespace ws, podName) = Some cur ->
  clusterList matches (namespace ws) (listOptions ws podName) c
  = (c, inr (if matches (labelSelector ws) (labelsOf cur) then [cur] else [])).
Proof.
  intros Hns Hplain Hc. unfold listOptions.
  rewrite (clusterList_named _ _ _ _ Hns Hplain), Hc. reflexivity.
Qed.

Lemma clusterList_selected (ws : webhookServer) podName c pod :
  namespace ws <> EmptyString ->
  plainName podName = true ->
  c !! (namespace ws, podName) = Some pod ->
  matches (labelSelector ws) (labelsOf pod) = true ->
  clusterList matches (namespace ws) (listOptions ws podName) c
  = (c, inr [pod]).
Proof.
  intros Hns Hplain Hc Hm.
  rewrite (clusterList_present ws _ _ _ Hns Hplain Hc), Hm. reflexivity.
Qed.

(** No pod of that name in the namespace, or one that the selector
    excludes: the answer is the same empty list. *)
Lemma clusterList_nothing (ws : webhookServer) podName c :
  namespace ws <> EmptyString ->
  plainName podName = true ->
  c !! (namespace ws, podName) = None \/
  (exists pod, c !! (namespace ws, podName) = Some pod /\
               matches (labelSelector ws) (labelsOf pod) = false) ->
  clusterList matches (namespace ws) (listOptions ws podName) c = (c, inr []).
Proof.
  intros Hns Hplain Hc. unfold listOptions.
  rewrite (clusterList_named _ _ _ _ Hns Hplain).
  destruct Hc as [->|(pod & -> & ->)]; reflexivity.
Qed.

(** A write that carries the stored resource version is accepted. *)
Lemma clusterUpdate_accepted ns c pod stored :
  Namespace pod = ns ->
  c !! (ns, Name pod) = Some stored ->
  ResourceVersion pod = ResourceVersion stored ->
  clusterUpdate ns pod c =
  (<[(ns, Name pod) :=
       withResourceVersion pod (N.succ (ResourceVersion stored))]> c,
   inr (withResourceVersion pod (N.succ (ResourceVersion stored)))).
Proof.
  intros Hns Hc Hrv. unfold clusterUpdate.
  rewrite Hns, String.eqb_refl, Hc, Hrv, N.eqb_refl. reflexivity.
Qed.

(** A write that carries another resource version is rejected, and the
    cluster stays as it is. *)
Lemma clusterUpdate_conflict ns c pod stored :
  Namespace pod = ns ->
  c !! (ns, Name pod) = Some stored ->
  ResourceVersion pod <> ResourceVersion stored ->
  clusterUpdate ns pod c = (c, inl conflictError).
Proof.
  intros Hns Hc Hrv. unfold clusterUpdate.
  rewrite Hns, String.eqb_refl, Hc.
  destruct (N.eqb_spec (ResourceVersion pod) (ResourceVersion stored));
    [contradiction|reflexivity].
Qed.

End ClusterFacts.

(** ** Requests that fail without a retry *)

Section Failures.

Variable matches : string -> gmap string string -> bool.
Variable Quote : string -> string.
Variable ws : webhookServer.

(** C6. A request (POST) that names a pod which the configured namespace
    does not hold, or holds but the configured selector excludes, gets 404
    and the "not found" error from the engine; the response, the error and
    the calls made are the same in the two cases; the one call is the
    query: nothing is retried and nothing written.  The pod name is a
    name: it holds no comma, no equals sign and no backslash, which
    [updateLabel] would hand to the store as parts of the field selector;
    and the server is configured with a namespace. *)
Theorem not_found_is_404 (c : gmap (string * string) Pod) (r : Request)
    (callback : Z -> Z) :
  Method r = MethodPost ->
  Get (Query r) "pod_name" <> EmptyString ->
  plainName (Get (Query r) "pod_name") = true ->
  namespace ws <> EmptyString ->
  c !! (namespace ws, Get (Query r) "pod_name") = None \/
  (exists pod, c !! (namespace ws, Get (Query r) "pod_name") = Some pod /\
               matches (labelSelector ws) (labelsOf pod) = false) ->
  let podName := Get (Query r) "pod_name" in
  let notFound :=
    Errorf ("pod " ++ podName ++ " not found in namespace " ++ namespace ws) in
  let response :=
    {| statusCode := Some StatusNotFound;
       body := "Pod not found" ++ newline |} in
  @exec _ (cluster matches) _
    (retryUpdateLabel Quote ws newResponse podName callback) c
  = (c, [ListCall (namespace ws) (listOptions ws podName)],
     (response, Some notFound))
  /\ @exec _ (cluster matches) _
       (updateLabelRequest Quote ws newResponse r callback) c
     = (c, [ListCall (namespace ws) (listOptions ws podName)], response).
Proof.
  intros HM HQ Hplain Hns Hc podName notFound response.
  assert (Hrun :
    @exec _ (cluster matches) _
      (retryUpdateLabel Quote ws newResponse podName callback) c
    = (c, [ListCall (namespace ws) (listOptions ws podName)],
       (response, Some notFound))).
  { apply (@exec_retry_first_attempt _ (cluster matches)).
    - apply (@exec_updateLabel_no_pod _ (cluster matches)).
      apply clusterList_nothing; assumption.
    - intros e [= <-]. split; [reflexivity|discriminate]. }
  split; [exact Hrun|].
  rewrite (@exec_updateLabelRequest _ (cluster matches)) by assumption.
  fold podName. rewrite Hrun. reflexivity.
Qed.

End Failures.

(** ** The engine against any clientset *)

Section AnyClientset.

Context {St : Type} `{Clientset St}.
Variable Quote : string -> string.
Variable ws : webhookServer.

(** C5. When the pod fetched carries the counter label with a value that
    [strconv.Atoi] rejects, an increment and a decrement request answer
    500 with the "invalid label value" message, the engine returns the
    parse error, and the query is the only call made: the attempt is not
    repeated and no write is submitted.  ([Atoi_not_decimal]: every
    string that is no base-10 integer is such a value.) *)
Theorem corrupt_value_is_500_and_not_written
    (st st1 : St) (r : Request) (pod : Pod) (rest : list Pod)
    (valueStr : string) (err : error) :
  Method r = MethodPost ->
  Get (Query r) "pod_name" <> EmptyString ->
  let podName := Get (Query r) "pod_name" in
  List (namespace ws) (listOptions ws podName) st = (st1, inr (pod :: rest)) ->
  getLabel (Labels pod) (label ws) = Some valueStr ->
  Atoi valueStr = inl err ->
  let response :=
    {| statusCode := Some StatusInternalServerError;
       body := ("Invalid " ++ Quote (label ws) ++ " label value: "
                  ++ Quote valueStr) ++ newline |} in
  let calls := [ListCall (namespace ws) (listOptions ws podName)] in
  (forall callback,
     exec (retryUpdateLabel Quote ws newResponse podName callback) st
     = (st1, calls,
        (response,
         Some (Wrap err ("invalid " ++ Quote (label ws) ++ " label value: "
                           ++ Quote valueStr)))))
  /\ exec (buildIncrementHandler Quote ws newResponse r) st
     = (st1, calls, response)
  /\ exec (buildDecrementHandler Quote ws newResponse r) st
     = (st1, calls, response).
Proof.
  intros HM HQ podName HL Hlbl Hparse response calls.
  assert (Hrun : forall callback,
    exec (retryUpdateLabel Quote ws newResponse podName callback) st
    = (st1, calls,
       (response,
        Some (Wrap err ("invalid " ++ Quote (label ws) ++ " label value: "
                          ++ Quote valueStr))))).
  { intros callback.
    assert (Hresp : invalidLabel Quote ws newResponse valueStr err
                    = (response,
                       Some (Wrap err ("invalid " ++ Quote (label ws)
                                         ++ " label value: " ++ Quote valueStr)))).
    { unfold invalidLabel, response, http_Error, Write, WriteHeader. simpl.
      reflexivity. }
    rewrite <- Hresp.
    apply exec_retry_first_attempt.
    - eapply exec_updateLabel_corrupt; eassumption.
    - intros e [= <-]. simpl. destruct (Atoi_error_not_conflict _ _ Hparse) as [Hc _].
      split; [exact Hc|discriminate]. }
  split; [exact Hrun|].
  unfold buildIncrementHandler, buildDecrementHandler.
  rewrite !exec_updateLabelRequest by assumption.
  fold podName. rewrite !Hrun. repeat split; reflexivity.
Qed.

Lemma mutated_Namespace (pod : Pod) (newValue : Z) :
  Namespace (mutated ws pod newValue) = Namespace pod.
Proof. unfold mutated. destruct (_ && _); reflexivity. Qed.

Lemma mutated_Name (pod : Pod) (newValue : Z) :
  Name (mutated ws pod newValue) = Name pod.
Proof. unfold mutated. destruct (_ && _); reflexivity. Qed.

Lemma mutated_ResourceVersion (pod : Pod) (newValue : Z) :
  ResourceVersion (mutated ws pod newValue) = ResourceVersion pod.
Proof. unfold mutated. destruct (_ && _); reflexivity. Qed.

Lemma getLabel_deleteLabel labels key :
  getLabel (deleteLabel labels key) key = None.
Proof. destruct labels as [m|]; simpl; [apply lookup_delete_eq|reflexivity]. Qed.

Lemma getLabel_setLabel labels key value :
  getLabel (setLabel labels key value) key = Some value.
Proof. destruct labels as [m|]; simpl; apply lookup_insert_eq. Qed.

Lemma getLabel_deleteLabel_ne labels key key' :
  key <> key' -> getLabel (deleteLabel labels key) key' = getLabel labels key'.
Proof.
  intros Hne. destruct labels as [m|]; simpl; [|reflexivity].
  apply lookup_delete_ne. exact Hne.
Qed.

Lemma getLabel_setLabel_ne labels key value key' :
  key <> key' -> getLabel (setLabel labels key value) key' = getLabel labels key'.
Proof.
  intros Hne. destruct labels as [m|]; simpl.
  - apply lookup_insert_ne. exact Hne.
  - rewrite lookup_insert_ne by exact Hne. apply lookup_empty.
Qed.

(** The counter label of the record submitted for a new value. *)
Lemma getLabel_mutated (pod : Pod) (newValue : Z) :
  getLabel (Labels (mutated ws pod newValue)) (label ws) =
  if (newValue =? 0)%Z && removeOnZero ws then None else Some (Itoa newValue).
Proof.
  unfold mutated. destruct (_ && _); simpl.
  - apply getLabel_deleteLabel.
  - apply getLabel_setLabel.
Qed.

Lemma getLabel_mutated_ne (pod : Pod) (newValue : Z) (key : string) :
  label ws <> key ->
  getLabel (Labels (mutated ws pod newValue)) key = getLabel (Labels pod) key.
Proof.
  intros Hne. unfold mutated. destruct (_ && _); simpl.
  - apply getLabel_deleteLabel_ne, Hne.
  - apply getLabel_setLabel_ne, Hne.
Qed.

(** C3. With negative values not allowed, a decrement request for a pod
    whose counter reads 0 computes 0 (the floor is in the delta function
    itself) and submits the record with the counter label removed, or set
    to the string 0 when labels are kept at zero; when the store accepts
    the write the request answers 200 with body 0 and the engine returns
    no error. *)
Theorem decrement_floor_at_zero
    (st st1 st2 : St) (r : Request) (pod p2 : Pod) (rest : list Pod) :
  Method r = MethodPost ->
  Get (Query r) "pod_name" <> EmptyString ->
  allowNegative ws = false ->
  let podName := Get (Query r) "pod_name" in
  let written := mutated ws pod 0 in
  List (namespace ws) (listOptions ws podName) st = (st1, inr (pod :: rest)) ->
  counterOf (label ws) pod = Some 0 ->
  Update (Namespace pod) written st1 = (st2, inr p2) ->
  let calls := [ListCall (namespace ws) (listOptions ws podName);
                UpdateCall (Namespace pod) written] in
  let response := {| statusCode := Some StatusOK; body := "0" |} in
  decrement ws 0 = 0
  /\ getLabel (Labels written) (label ws)
     = (if removeOnZero ws then None else Some "0")
  /\ exec (retryUpdateLabel Quote ws newResponse podName (decrement ws)) st
     = (st2, calls, (response, None))
  /\ exec (buildDecrementHandler Quote ws newResponse r) st
     = (st2, calls, response).
Proof.
  intros HM HQ Hneg podName written HL Hctr HU calls response.
  assert (Hdec : decrement ws 0 = 0).
  { unfold decrement. rewrite Hneg. reflexivity. }
  assert (Hrun :
    exec (retryUpdateLabel Quote ws newResponse podName (decrement ws)) st
    = (st2, calls, (response, None))).
  { apply exec_retry_first_attempt; [|discriminate].
    rewrite (exec_updateLabel_write Quote ws _ _ _ _ _ _ _ _ HL Hctr).
    rewrite Hdec. fold written. rewrite HU. reflexivity. }
  split; [exact Hdec|]. split.
  - unfold written. rewrite getLabel_mutated. simpl.
    destruct (removeOnZero ws); reflexivity.
  - split; [exact Hrun|].
    unfold buildDecrementHandler.
    rewrite exec_updateLabelRequest by assumption.
    fold podName. rewrite Hrun. reflexivity.
Qed.

(** C4. When a decrement computes exactly 0, the record the attempt
    submits has the counter label absent if the label is removed at zero,
    and present with the string 0 if not; every other label is as
    fetched. *)
Theorem decrement_to_zero_label
    (st st1 : St) (w : ResponseWriter) (podName : string)
    (pod : Pod) (rest : list Pod) (v : Z) :
  List (namespace ws) (listOptions ws podName) st = (st1, inr (pod :: rest)) ->
  counterOf (label ws) pod = Some v ->
  decrement ws v = 0 ->
  exists written,
    (exec (updateLabel Quote ws w podName (decrement ws)) st).1.2
    = [ListCall (namespace ws) (listOptions ws podName);
       UpdateCall (Namespace pod) written]
    /\ getLabel (Labels written) (label ws)
       = (if removeOnZero ws then None else Some "0")
    /\ (forall key, label ws <> key ->
          getLabel (Labels written) key = getLabel (Labels pod) key).
Proof.
  intros HL Hctr Hzero. exists (mutated ws pod 0). split; [|split].
  - rewrite (exec_updateLabel_write Quote ws _ _ _ _ _ _ _ _ HL Hctr).
    rewrite Hzero. destruct (Update _ _ st1) as [st2 res]. reflexivity.
  - rewrite getLabel_mutated. simpl. destruct (removeOnZero ws); reflexivity.
  - intros key Hne. apply getLabel_mutated_ne, Hne.
Qed.

(** C8, as amended.  A pod fetched without the counter label is treated
    as a counter of 0: the delta function is applied to 0, whatever it is.
    The increment has no floor and no ceiling test: for every [int] but
    the largest it is the successor, for negative values as for others;
    at the largest [int] the addition of Go wraps around, and the
    increment is the smallest [int]. *)
Theorem absent_label_reads_as_zero
    (st st1 : St) (w : ResponseWriter) (podName : string)
    (pod : Pod) (rest : list Pod) (callback : Z -> Z) :
  List (namespace ws) (listOptions ws podName) st = (st1, inr (pod :: rest)) ->
  getLabel (Labels pod) (label ws) = None ->
  exec (updateLabel Quote ws w podName callback) st
  = (let '(st2, res) :=
       Update (Namespace pod) (mutated ws pod (callback 0)) st1 in
     (st2,
      [ListCall (namespace ws) (listOptions ws podName);
       UpdateCall (Namespace pod) (mutated ws pod (callback 0))],
      match res with
      | inl err => updateFailed w err
      | inr _ => updated w (callback 0)
      end))
  /\ increment 0 = 1
  /\ (forall v, inInt v ->
        increment v = (if (v =? MaxInt)%Z then MinInt else v + 1)).
Proof.
  intros HL Hlbl. split; [|split].
  - apply (exec_updateLabel_write Quote ws w podName callback st st1 pod rest 0 HL).
    unfold counterOf. rewrite Hlbl. reflexivity.
  - reflexivity.
  - intros v Hv. unfold increment.
    destruct (Z.eqb_spec v MaxInt) as [->|Hne]; [reflexivity|].
    apply wrapInt_inInt. unfold inInt, MinInt, MaxInt in *. lia.
Qed.

(** C10, as amended.  Removal at zero is decided on the new value alone:
    with removal at zero, an increment of a counter of -1 submits the
    record without the counter label; and with negative values not
    allowed and labels kept at zero, a decrement of a pod without the
    counter label submits the record with the label set to the string
    0. *)
Theorem zero_policy_on_any_operation
    (st st1 : St) (w : ResponseWriter) (podName : string)
    (pod : Pod) (rest : list Pod) :
  List (namespace ws) (listOptions ws podName) st = (st1, inr (pod :: rest)) ->
  (removeOnZero ws = true ->
   counterOf (label ws) pod = Some (-1) ->
   increment (-1) = 0 /\
   exists written,
     (exec (updateLabel Quote ws w podName increment) st).1.2
     = [ListCall (namespace ws) (listOptions ws podName);
        UpdateCall (Namespace pod) written]
     /\ getLabel (Labels written) (label ws) = None)
  /\
  (allowNegative ws = false ->
   removeOnZero ws = false ->
   getLabel (Labels pod) (label ws) = None ->
   decrement ws 0 = 0 /\
   exists written,
     (exec (updateLabel Quote ws w podName (decrement ws)) st).1.2
     = [ListCall (namespace ws) (listOptions ws podName);
        UpdateCall (Namespace pod) written]
     /\ getLabel (Labels written) (label ws) = Some "0").
Proof.
  intros HL. split.
  - intros Hrm Hctr. split; [reflexivity|].
    exists (mutated ws pod 0). split.
    + rewrite (exec_updateLabel_write Quote ws _ _ _ _ _ _ _ _ HL Hctr).
      change (increment (-1)) with 0.
      destruct (Update _ _ st1) as [st2 res]. reflexivity.
    + rewrite getLabel_mutated, Hrm. reflexivity.
  - intros Hneg Hrm Hlbl.
    assert (Hdec : decrement ws 0 = 0).
    { unfold decrement. rewrite Hneg. reflexivity. }
    split; [exact Hdec|].
    assert (Hctr : counterOf (label ws) pod = Some 0).
    { unfold counterOf. rewrite Hlbl. reflexivity. }
    exists (mutated ws pod 0). split.
    + rewrite (exec_updateLabel_write Quote ws _ _ _ _ _ _ _ _ HL Hctr).
      rewrite Hdec. destruct (Update _ _ st1) as [st2 res]. reflexivity.
    + rewrite getLabel_mutated, Hrm. reflexivity.
Qed.

Lemma statusCode_http_Error w msg code :
  statusCode (http_Error w msg code) =
  Some (default code (statusCode w)).
Proof.
  unfold http_Error, Write, WriteHeader.
  destruct (statusCode w) as [c|] eqn:Hs; simpl; rewrite ?Hs; reflexivity.
Qed.

Lemma statusCode_Write w data :
  statusCode (Write data w) = Some (default StatusOK (statusCode w)).
Proof.
  unfold Write, WriteHeader.
  destruct (statusCode w) as [c|] eqn:Hs; simpl; rewrite ?Hs; reflexivity.
Qed.

(** The ways an attempt ends. *)
Lemma exec_updateLabel_cases w podName cb st st' calls w' err :
  exec (updateLabel Quote ws w podName cb) st = (st', calls, (w', err)) ->
  (exists e, (w', err) = listFailed w e)
  \/ (w', err) = podNotFound ws w podName
  \/ (exists valueStr e,
        Atoi valueStr = inl e /\ (w', err) = invalidLabel Quote ws w valueStr e)
  \/ (exists e, (w', err) = updateFailed w e)
  \/ (exists v, (w', err) = updated w v).
Proof.
  unfold updateLabel. simpl.
  destruct (List _ _ st) as [st1 [e|[|pod rest]]]; simpl.
  - intros [= <- <- <- <-]. left. exists e. reflexivity.
  - intros [= <- <- <- <-]. right. left. reflexivity.
  - destruct (getLabel (Labels pod) (label ws)) as [valueStr|].
    + destruct (Atoi valueStr) as [e|v] eqn:Hparse; simpl.
      * intros [= <- <- <- <-]. right. right. left.
        exists valueStr, e. split; [exact Hparse|reflexivity].
      * destruct (Update _ _ st1) as [st2 [e|p2]]; simpl;
          intros [= <- <- <- <-]; right; right; right.
        -- left. exists e. reflexivity.
        -- right. exists (cb v). reflexivity.
    + simpl. destruct (Update _ _ st1) as [st2 [e|p2]]; simpl;
        intros [= <- <- <- <-]; right; right; right.
      * left. exists e. reflexivity.
      * right. exists (cb 0). reflexivity.
Qed.

(** An attempt that returns a conflict has written a 500. *)
Lemma conflict_attempt_status w podName cb st st' calls w' e :
  exec (updateLabel Quote ws w podName cb) st = (st', calls, (w', Some e)) ->
  IsConflict e = true ->
  statusCode w' = Some (default StatusInternalServerError (statusCode w)).
Proof.
  intros Hrun Hc.
  destruct (exec_updateLabel_cases _ _ _ _ _ _ _ _ Hrun)
    as [(e1 & Heq)|[Heq|[(s & e1 & Hp & Heq)|[(e1 & Heq)|(v & Heq)]]]];
    unfold listFailed, podNotFound, invalidLabel, updateFailed, updated in Heq.
  - injection Heq as -> _. apply statusCode_http_Error.
  - injection Heq as _ ->. discriminate.
  - injection Heq as _ ->. simpl in Hc.
    destruct (Atoi_error_not_conflict _ _ Hp). congruence.
  - injection Heq as -> _. apply statusCode_http_Error.
  - discriminate.
Qed.

Lemma conflicted_attempts podName cb n w st st' w' e lastErr :
  conflicted Quote ws podName cb n w st st' w' e ->
  exists calls,
    attempts n (fun w => updateLabel Quote ws w podName cb) w lastErr st
    = (st', calls, (w', Some e)).
Proof.
  intros Hc. revert lastErr.
  induction Hc as [w st st' calls w' e Hrun He
                  |n w st st1 calls w1 e1 st' w' e Hrun He1 Hc IH];
    intros lastErr.
  - exists (calls ++ [])%list. cbn [attempts]. rewrite Hrun, He. reflexivity.
  - destruct (IH (Some e1)) as [calls2 Hatt].
    exists (calls ++ calls2)%list.
    cbn [attempts]. rewrite Hrun, He1, Hatt. reflexivity.
Qed.

Lemma conflicted_status podName cb n w st st' w' e :
  conflicted Quote ws podName cb n w st st' w' e ->
  statusCode w' = Some (default StatusInternalServerError (statusCode w))
  /\ IsConflict e = true.
Proof.
  induction 1 as [w st st' calls w' e Hrun He
                 |n w st st1 calls w1 e1 st' w' e Hrun He1 Hc [IH1 IH2]].
  - split; [|exact He]. eapply conflict_attempt_status; eassumption.
  - split; [|exact IH2]. rewrite IH1.
    rewrite (conflict_attempt_status _ _ _ _ _ _ _ _ Hrun He1). reflexivity.
Qed.






(** An attempt makes at most two store calls, the invocation at most
    four attempts: the retry is bounded. *)
Lemma updateLabel_calls_bounded w podName cb st :
  (length (exec (updateLabel Quote ws w podName cb) st).1.2 <= 2)%nat.
Proof.
  unfold updateLabel. simpl.
  destruct (List _ _ st) as [st1 [e|[|pod rest]]]; simpl; try lia.
  destruct (getLabel (Labels pod) (label ws)) as [valueStr|].
  - destruct (Atoi valueStr) as [e|v]; simpl; [lia|].
    destruct (Update _ _ st1) as [st2 [e|p2]]; simpl; lia.
  - simpl. destruct (Update _ _ st1) as [st2 [e|p2]]; simpl; lia.
Qed.

Lemma attempts_calls_bounded n w podName cb lastErr st :
  (length (attempts n (fun w => updateLabel Quote ws w podName cb)
             w lastErr st).1.2 <= 2 * n)%nat.
Proof.
  revert w lastErr st. induction n as [|n IH]; intros w lastErr st;
    [simpl; lia|].
  cbn [attempts].
  pose proof (updateLabel_calls_bounded w podName cb st) as Hone.
  destruct (exec (updateLabel Quote ws w podName cb) st)
    as [[st1 c1] [w1 [e|]]]; cbn [fst snd] in *; [|lia].
  destruct (IsConflict e); cbn [fst snd]; [|lia].
  specialize (IH w1 (Some e) st1).
  destruct (attempts n _ w1 (Some e) st1) as [[st2 c2] r].
  cbn [fst snd] in *. rewrite length_app. lia.
Qed.

Lemma retryUpdateLabel_calls_bounded w podName cb st :
  (length (exec (retryUpdateLabel Quote ws w podName cb) st).1.2 <= 8)%nat.
Proof.
  unfold retryUpdateLabel. rewrite exec_RetryOnConflict.
  apply (attempts_calls_bounded 4).
Qed.

End AnyClientset.

(** ** Requests served one after the other by the cluster *)

Section Served.

Variable matches : string -> gmap string string -> bool.
Variable Quote : string -> string.
Variable ws : webhookServer.

Lemma counterOf_mutated (pod : Pod) (newValue : Z) :
  inInt newValue ->
  counterOf (label ws) (mutated ws pod newValue) = Some newValue.
Proof.
  intros Hin. unfold counterOf. rewrite getLabel_mutated.
  destruct (Z.eqb_spec newValue 0) as [->|Hne]; simpl.
  - destruct (removeOnZero ws); reflexivity.
  - rewrite Atoi_Itoa by exact Hin. reflexivity.
Qed.

Lemma counterOf_withResourceVersion lbl pod version :
  counterOf lbl (withResourceVersion pod version) = counterOf lbl pod.
Proof. reflexivity. Qed.

(** With nobody else writing, the engine invocation for a pod that the
    cluster holds and the selector selects makes one query and one write,
    which the cluster accepts. *)
Lemma exec_cluster_accepted (c : gmap (string * string) Pod)
    (podName : string) (pod : Pod) (v : Z) (callback : Z -> Z)
    (w : ResponseWriter) :
  c !! (namespace ws, podName) = Some pod ->
  Name pod = podName ->
  Namespace pod = namespace ws ->
  matches (labelSelector ws) (labelsOf pod) = true ->
  counterOf (label ws) pod = Some v ->
  namespace ws <> EmptyString ->
  plainName podName = true ->
  let written := mutated ws pod (callback v) in
  @exec _ (cluster matches) _
    (retryUpdateLabel Quote ws w podName callback) c
  = (<[(namespace ws, podName) :=
         withResourceVersion written (N.succ (ResourceVersion pod))]> c,
     [ListCall (namespace ws) (listOptions ws podName);
      UpdateCall (namespace ws) written],
     (Write (Itoa (callback v)) w, None)).
Proof.
  intros Hc Hname Hns Hm Hctr Hnsne Hplain written.
  apply (@exec_retry_first_attempt _ (cluster matches)); [|discriminate].
  rewrite (@exec_updateLabel_write _ (cluster matches) Quote ws w podName
             callback c c pod [] v).
  - fold written. rewrite Hns. simpl Update.
    rewrite (clusterUpdate_accepted (namespace ws) c written pod).
    + unfold written. rewrite mutated_Name, Hname. reflexivity.
    + unfold written. rewrite mutated_Namespace. exact Hns.
    + unfold written. rewrite mutated_Name, Hname. exact Hc.
    + unfold written. apply mutated_ResourceVersion.
  - simpl List. apply clusterList_selected; assumption.
  - exact Hctr.
Qed.

(** The same at the level of the handler: 200, the new value as body. *)
Lemma exec_cluster_request (c : gmap (string * string) Pod)
    (r : Request) (pod : Pod) (v : Z) (callback : Z -> Z) :
  Method r = MethodPost ->
  Get (Query r) "pod_name" <> EmptyString ->
  c !! (namespace ws, Get (Query r) "pod_name") = Some pod ->
  Name pod = Get (Query r) "pod_name" ->
  Namespace pod = namespace ws ->
  matches (labelSelector ws) (labelsOf pod) = true ->
  counterOf (label ws) pod = Some v ->
  namespace ws <> EmptyString ->
  plainName (Get (Query r) "pod_name") = true ->
  let written := mutated ws pod (callback v) in
  @exec _ (cluster matches) _
    (updateLabelRequest Quote ws newResponse r callback) c
  = (<[(namespace ws, Get (Query r) "pod_name") :=
         withResourceVersion written (N.succ (ResourceVersion pod))]> c,
     [ListCall (namespace ws) (listOptions ws (Get (Query r) "pod_name"));
      UpdateCall (namespace ws) written],
     {| statusCode := Some StatusOK; body := Itoa (callback v) |}).
Proof.
  intros HM HQ Hc Hname Hns Hm Hctr Hnsne Hplain written.
  rewrite (@exec_updateLabelRequest _ (cluster matches)) by assumption.
  rewrite (exec_cluster_accepted c _ pod v callback newResponse)
    by assumption.
  reflexivity.
Qed.

End Served.

(** C7. Under the default configuration, with a selector (the empty one)
    that selects every pod, and a pod job-1 in namespace default that has
    no active-jobs label: POST /increment?pod_name=job-1 answers 200 with
    body 1 and leaves the label at 1; a second one answers 2; POST
    /decrement?pod_name=job-1 then answers 1, and once more 0, after which
    the pod is there without the label. *)
Theorem default_scenario
    (matches : string -> gmap string string -> bool)
    (Quote : string -> string)
    (c0 : gmap (string * string) Pod) (pod : Pod) :
  (forall labels, matches EmptyString labels = true) ->
  c0 !! ("default", "job-1") = Some pod ->
  Name pod = "job-1" ->
  Namespace pod = "default" ->
  getLabel (Labels pod) "active-jobs" = None ->
  let serve path c :=
    @exec _ (cluster matches) _
      (router Quote configureFlags newResponse
         {| Method := "POST"; Path := path;
            Query := [("pod_name", "job-1")] |}) c in
  let activeJobs (c : gmap (string * string) Pod) :=
    (fun p => getLabel (Labels p) "active-jobs") <$> c !! ("default", "job-1") in
  let ok text := {| statusCode := Some StatusOK; body := text |} in
  let s1 := serve "/increment" c0 in
  let s2 := serve "/increment" s1.1.1 in
  let s3 := serve "/decrement" s2.1.1 in
  let s4 := serve "/decrement" s3.1.1 in
  s1.2 = ok "1" /\ activeJobs s1.1.1 = Some (Some "1")
  /\ s2.2 = ok "2" /\ activeJobs s2.1.1 = Some (Some "2")
  /\ s3.2 = ok "1" /\ activeJobs s3.1.1 = Some (Some "1")
  /\ s4.2 = ok "0" /\ activeJobs s4.1.1 = Some None.
Proof.
  intros Hall Hc0 Hname Hns Hlbl serve activeJobs ok s1 s2 s3 s4.
  set (ws := configureFlags).
  set (inc := {| Method := "POST"; Path := "/increment";
                 Query := [("pod_name", "job-1")] |}).
  set (dec := {| Method := "POST"; Path := "/decrement";
                 Query := [("pod_name", "job-1")] |}).
  assert (Hstep : forall c p v cb r,
            r = inc \/ r = dec ->
            c !! ("default", "job-1") = Some p ->
            Name p = "job-1" -> Namespace p = "default" ->
            counterOf "active-jobs" p = Some v ->
            inInt (cb v) ->
            let p' := withResourceVersion (mutated ws p (cb v))
                        (N.succ (ResourceVersion p)) in
            let res := @exec _ (cluster matches) _
                         (updateLabelRequest Quote ws newResponse r cb) c in
            res.2 = ok (Itoa (cb v))
            /\ res.1.1 !! ("default", "job-1") = Some p'
            /\ Name p' = "job-1" /\ Namespace p' = "default"
            /\ counterOf "active-jobs" p' = Some (cb v)
            /\ getLabel (Labels p') "active-jobs"
               = (if (cb v =? 0)%Z then None else Some (Itoa (cb v)))).
  { intros c p v cb r Hr Hc Hn Hnsp Hctr Hin p' res.
    assert (Hres : res =
      (<[("default", "job-1") := p']> c,
       [ListCall "default" (listOptions ws "job-1");
        UpdateCall "default" (mutated ws p (cb v))],
       ok (Itoa (cb v)))).
    { unfold res.
      destruct Hr as [-> | ->];
        (etransitivity;
         [apply (exec_cluster_request matches Quote ws c _ p v cb);
          try assumption; try reflexivity; try discriminate; apply Hall
         |reflexivity]). }
    rewrite Hres. simpl. split; [reflexivity|]. split.
    - apply lookup_insert_eq.
    - unfold p'.
      change (Name (mutated ws p (cb v)) = "job-1"
              /\ Namespace (mutated ws p (cb v)) = "default"
              /\ counterOf (label ws) (mutated ws p (cb v)) = Some (cb v)
              /\ getLabel (Labels (mutated ws p (cb v))) (label ws)
                 = (if (cb v =? 0)%Z then None else Some (Itoa (cb v)))).
      rewrite mutated_Name, mutated_Namespace, getLabel_mutated.
      repeat split; try assumption.
      + apply (counterOf_mutated ws p (cb v) Hin).
      + change (removeOnZero ws) with true.
        destruct (cb v =? 0)%Z; reflexivity. }
  assert (Hctr0 : counterOf "active-jobs" pod = Some 0).
  { unfold counterOf. rewrite Hlbl. reflexivity. }
  assert (Hin : forall z, -5 <= z <= 5 -> inInt z).
  { intros z Hz. unfold inInt, MinInt, MaxInt. lia. }
  destruct (Hstep c0 pod 0 increment inc (or_introl eq_refl)
              Hc0 Hname Hns Hctr0 (Hin 1 ltac:(lia)))
    as (Hr1 & Hc1 & Hn1 & Hns1 & Hctr1 & Hl1).
  fold ws in s1. change (serve "/increment" c0) with
    (@exec _ (cluster matches) _
       (updateLabelRequest Quote ws newResponse inc increment) c0) in s1.
  destruct (Hstep s1.1.1 _ 1 increment inc (or_introl eq_refl)
              Hc1 Hn1 Hns1 Hctr1 (Hin 2 ltac:(lia)))
    as (Hr2 & Hc2 & Hn2 & Hns2 & Hctr2 & Hl2).
  change (serve "/increment" s1.1.1) with
    (@exec _ (cluster matches) _
       (updateLabelRequest Quote ws newResponse inc increment) s1.1.1) in s2.
  destruct (Hstep s2.1.1 _ 2 (decrement ws) dec (or_intror eq_refl)
              Hc2 Hn2 Hns2 Hctr2 (Hin 1 ltac:(lia)))
    as (Hr3 & Hc3 & Hn3 & Hns3 & Hctr3 & Hl3).
  change (serve "/decrement" s2.1.1) with
    (@exec _ (cluster matches) _
       (updateLabelRequest Quote ws newResponse dec (decrement ws)) s2.1.1) in s3.
  destruct (Hstep s3.1.1 _ 1 (decrement ws) dec (or_intror eq_refl)
              Hc3 Hn3 Hns3 Hctr3 (Hin 0 ltac:(lia)))
    as (Hr4 & Hc4 & Hn4 & Hns4 & Hctr4 & Hl4).
  change (serve "/decrement" s3.1.1) with
    (@exec _ (cluster matches) _
       (updateLabelRequest Quote ws newResponse dec (decrement ws)) s3.1.1) in s4.
  unfold activeJobs.
  fold s1 in Hr1, Hc1. fold s2 in Hr2, Hc2. fold s3 in Hr3, Hc3.
  fold s4 in Hr4, Hc4.
  rewrite Hr1, Hc1, Hr2, Hc2, Hr3, Hc3, Hr4, Hc4.
  cbn [fmap option_fmap option_map]. rewrite Hl1, Hl2, Hl3, Hl4.
  repeat split; reflexivity.
Qed.

(** ** Requests in flight at the same time *)

Section Interleaved.

Variable matches : string -> gmap string string -> bool.
Variable Quote : string -> string.
Variable ws : webhookServer.
Variable podName : string.
Variable callback : Z -> Z.

Lemma retryUpdateLabel_retryState w :
  retryUpdateLabel Quote ws w podName callback
  = retryState Quote ws podName callback (Steps DefaultBackoff) w None.
Proof. reflexivity. Qed.

Lemma retryState_zero w lastErr :
  retryState Quote ws podName callback 0 w lastErr = Ret (w, lastErr).
Proof. reflexivity. Qed.

(** With steps left, the invocation is at a query.  An empty answer ends
    it; a pod whose counter parses takes it to the write of the mutated
    record, which ends it when accepted and takes it to the next step
    when refused with a conflict. *)
Lemma retryState_succ n w lastErr :
  exists K,
    retryState Quote ws podName callback (S n) w lastErr
    = CallList (namespace ws) (listOptions ws podName) K
    /\ K (inr []) = Ret (podNotFound ws w podName)
    /\ (forall pod rest v,
          counterOf (label ws) pod = Some v ->
          exists K2,
            K (inr (pod :: rest))
            = CallUpdate (Namespace pod) (mutated ws pod (callback v)) K2
            /\ (forall p2, K2 (inr p2) = Ret (updated w (callback v)))
            /\ (forall err,
                  reason err = StatusReasonConflict ->
                  K2 (inl err)
                  = retryState Quote ws podName callback n
                      (updateFailed w err).1 (updateFailed w err).2)).
Proof.
  eexists. split; [reflexivity|]. split; [reflexivity|].
  intros pod rest v Hctr. unfold counterOf in Hctr.
  cbn beta iota.
  assert (Hns : forall nv, Namespace (mutated ws pod nv) = Namespace pod).
  { intros nv. apply mutated_Namespace. }
  destruct (getLabel (Labels pod) (label ws)) as [valueStr|].
  - destruct (Atoi valueStr) as [e|v']; [discriminate|].
    injection Hctr as ->. rewrite <- (Hns (callback v)).
    eexists. split; [reflexivity|]. split; [reflexivity|].
    intros err Hr. cbn. rewrite Hr. reflexivity.
  - injection Hctr as <-. rewrite <- (Hns (callback 0)).
    eexists. split; [reflexivity|]. split; [reflexivity|].
    intros err Hr. cbn. rewrite Hr. reflexivity.
Qed.

End Interleaved.

(** ** Every request comes to an end *)

Lemma finishesWithin_le {A : Type} (d d' : nat) (p : Prog A) :
  (d <= d')%nat -> finishesWithin d p -> finishesWithin d' p.
Proof.
  intros Hle Hp. revert d' Hle.
  induction Hp as [d a|d ns opts k Hk IH|d ns pod k Hk IH]; intros d' Hle.
  - constructor.
  - destruct d' as [|d']; [lia|]. constructor. intros r. apply IH. lia.
  - destruct d' as [|d']; [lia|]. constructor. intros r. apply IH. lia.
Qed.

Lemma finishesWithin_bind {A B : Type} (d d' : nat) (m : Prog A)
    (f : A -> Prog B) :
  finishesWithin d m ->
  (forall a, finishesWithin d' (f a)) ->
  finishesWithin (d + d') (bind m f).
Proof.
  intros Hm Hf.
  induction Hm as [d a|d ns opts k Hk IH|d ns pod k Hk IH]; cbn [bind].
  - apply (finishesWithin_le d'); [lia|apply Hf].
  - change (S d + d')%nat with (S (d + d')). constructor. exact IH.
  - change (S d + d')%nat with (S (d + d')). constructor. exact IH.
Qed.

Lemma finishesWithin_zero {A : Type} (p : Prog A) :
  finishesWithin 0 p -> exists a, p = Ret a.
Proof. inversion 1; subst. eexists. reflexivity. Qed.

Lemma updateLabel_finishes Quote ws w podName cb :
  finishesWithin 2 (updateLabel Quote ws w podName cb).
Proof.
  unfold updateLabel, PodsList, PodsUpdate, mbind, Prog_bind. cbn [bind].
  constructor. intros [e|[|pod rest]]; try constructor.
  destruct (getLabel (Labels pod) (label ws)) as [valueStr|].
  - destruct (Atoi valueStr) as [e|v]; cbn [bind]; constructor.
    intros [e|p2]; constructor.
  - cbn [bind]. constructor. intros [e|p2]; constructor.
Qed.

Lemma ExponentialBackoff_finishes {W : Type} (d n : nat)
    (condition : W -> Prog (W * (bool * option error))) (st : W) :
  (forall st, finishesWithin d (condition st)) ->
  finishesWithin (n * d) (ExponentialBackoff n condition st).
Proof.
  intros Hc. revert st. induction n as [|n IH]; intros st; [constructor|].
  cbn [ExponentialBackoff]. unfold mbind, Prog_bind.
  change (S n * d)%nat with (d + n * d)%nat.
  apply finishesWithin_bind; [apply Hc|].
  intros [st' [ok [e|]]]; [constructor|].
  destruct ok; [constructor|apply IH].
Qed.

Lemma retryUpdateLabel_finishes Quote ws w podName cb :
  finishesWithin 8 (retryUpdateLabel Quote ws w podName cb).
Proof.
  unfold retryUpdateLabel, RetryOnConflict, OnError, mbind, Prog_bind.
  change 8%nat with (4 * 2 + 0)%nat.
  apply finishesWithin_bind.
  - apply ExponentialBackoff_finishes. intros [w' lastErr].
    change 2%nat with (2 + 0)%nat.
    apply finishesWithin_bind; [apply updateLabel_finishes|].
    intros [w1 [e|]]; [|constructor].
    destruct (IsConflict e); constructor.
  - intros [[w' lastErr] [[]|]]; constructor.
Qed.

Lemma updateLabelRequest_finishes Quote ws w r cb :
  finishesWithin 8 (updateLabelRequest Quote ws w r cb).
Proof.
  unfold updateLabelRequest.
  destruct (negb _); [constructor|].
  destruct (String.eqb _ _); [constructor|].
  unfold mbind, Prog_bind. change 8%nat with (8 + 0)%nat.
  apply finishesWithin_bind; [apply retryUpdateLabel_finishes|].
  intros [w' e]. constructor.
Qed.

Lemma stepProg_finishes {A : Type}
    (matches : string -> gmap string string -> bool)
    (c : gmap (string * string) Pod) (d : nat) (p : Prog A) :
  finishesWithin (S d) p -> finishesWithin d (stepProg matches c p).1.2.
Proof.
  intros Hp. inversion Hp as [d' a|d' ns opts k Hk|d' ns pod k Hk]; subst;
    cbn [stepProg].
  - constructor.
  - destruct (clusterList matches ns opts c) as [c' res]. apply Hk.
  - destruct (clusterUpdate ns pod c) as [c' res]. apply Hk.
Qed.

Lemma stepAt_other {A : Type}
    (matches : string -> gmap string string -> bool)
    (i j : nat) (sys : System A) :
  i <> j -> requests (stepAt matches j sys) !! i = requests sys !! i.
Proof.
  intros Hne. unfold stepAt.
  destruct (requests sys !! j) as [p|]; [|reflexivity].
  destruct (stepProg matches (pods sys) p) as [[c' p'] wr].
  cbn [requests]. apply list_lookup_insert_ne. congruence.
Qed.

Lemma stepAt_same {A : Type}
    (matches : string -> gmap string string -> bool)
    (i : nat) (sys : System A) (p : Prog A) :
  requests sys !! i = Some p ->
  requests (stepAt matches i sys) !! i
  = Some (stepProg matches (pods sys) p).1.2.
Proof.
  intros Hi. unfold stepAt. rewrite Hi.
  destruct (stepProg matches (pods sys) p) as [[c' p'] wr].
  cbn [requests fst snd]. apply list_lookup_insert_eq.
  apply lookup_lt_Some in Hi. exact Hi.
Qed.

Lemma runSchedule_finishes {A : Type}
    (matches : string -> gmap string string -> bool)
    (sched : list nat) (i d : nat) (sys : System A) (p : Prog A) :
  requests sys !! i = Some p ->
  finishesWithin d p ->
  (d <= turns i sched)%nat ->
  exists a, requests (runSchedule matches sched sys) !! i = Some (Ret a).
Proof.
  revert d sys p. induction sched as [|j sched IH]; intros d sys p Hi Hp Hd.
  - cbn in Hd. assert (d = 0%nat) as -> by lia.
    destruct (finishesWithin_zero p Hp) as [a ->]. exists a. exact Hi.
  - change (runSchedule matches (j :: sched) sys)
      with (runSchedule matches sched (stepAt matches j sys)).
    unfold turns in Hd. cbn [List.filter] in Hd.
    destruct (Nat.eqb_spec i j) as [<-|Hne].
    + cbn [length] in Hd. fold (turns i sched) in Hd.
      destruct d as [|d].
      * destruct (finishesWithin_zero p Hp) as [a ->].
        apply (IH 0%nat _ (Ret a)); [|constructor|lia].
        rewrite (stepAt_same matches i sys (Ret a) Hi). reflexivity.
      * apply (IH d _ (stepProg matches (pods sys) p).1.2);
          [apply stepAt_same, Hi|apply stepProg_finishes, Hp|lia].
    + fold (turns i sched) in Hd.
      apply (IH d _ p); [|exact Hp|exact Hd].
      rewrite stepAt_other by exact Hne. exact Hi.
Qed.

(** ** No lost update among concurrent increments *)

Lemma wrapInt_succ (a : Z) : wrapInt (wrapInt a + 1) = wrapInt (a + 1).
Proof.
  unfold wrapInt.
  replace ((a + 2 ^ 63) mod 2 ^ 64 - 2 ^ 63 + 1 + 2 ^ 63)
    with ((a + 2 ^ 63) mod 2 ^ 64 + 1) by lia.
  rewrite Zplus_mod_idemp_l. f_equal. f_equal. lia.
Qed.

Lemma succeeded_count_insert (ps : list (Prog (ResponseWriter * option error)))
    (i : nat) (p p' : Prog (ResponseWriter * option error)) :
  ps !! i = Some p ->
  (length (List.filter succeeded (<[i := p']> ps))
   + (if succeeded p then 1 else 0)
   = length (List.filter succeeded ps)
     + (if succeeded p' then 1 else 0))%nat.
Proof.
  revert i. induction ps as [|q ps IH]; intros [|i] Hi; try discriminate.
  - injection Hi as ->. simpl.
    destruct (succeeded p), (succeeded p'); simpl; lia.
  - simpl in Hi. specialize (IH i Hi). simpl.
    destruct (succeeded q); simpl; lia.
Qed.

Lemma succeeded_count_le (ps : list (Prog (ResponseWriter * option error))) :
  (length (List.filter succeeded ps) <= length ps)%nat.
Proof.
  induction ps as [|q ps IH]; simpl; [lia|].
  destruct (succeeded q); simpl; lia.
Qed.

(** No invocation both succeeds and gives up, and a finished one does one
    of the two. *)
Lemma finished_count (ps : list (Prog (ResponseWriter * option error))) :
  (length (List.filter succeeded ps) + length (List.filter gaveUp ps)
   <= length ps)%nat
  /\ ((forall p, In p ps -> exists r, p = Ret r) ->
      (length (List.filter succeeded ps) + length (List.filter gaveUp ps)
       = length ps)%nat).
Proof.
  induction ps as [|q ps [IH1 IH2]]; [split; [simpl; lia|reflexivity]|].
  split.
  - destruct q as [[w [e|]]| |]; simpl; lia.
  - intros Hall.
    pose proof (IH2 (fun p Hp => Hall p (or_intror Hp))) as IH.
    destruct (Hall q (or_introl eq_refl)) as [[w [e|]] ->]; simpl; lia.
Qed.

(** Counting the elements of a list by a test on their positions. *)
Lemma filter_seq_length {A : Type} (f : A -> bool) (g : nat -> bool)
    (l : list A) (s : nat) :
  (forall i p, l !! i = Some p -> f p = g (s + i)%nat) ->
  length (List.filter f l) = length (List.filter g (seq s (length l))).
Proof.
  revert s. induction l as [|a l IH]; intros s H; [reflexivity|].
  cbn [List.filter length seq].
  pose proof (H 0%nat a eq_refl) as Ha. rewrite Nat.add_0_r in Ha.
  assert (IH' : length (List.filter f l)
                = length (List.filter g (seq (S s) (length l)))).
  { apply IH. intros i p Hi. rewrite (H (S i) p Hi). f_equal. lia. }
  rewrite Ha. destruct (g s); cbn [length]; rewrite IH'; reflexivity.
Qed.

Lemma labelsOf_lookup (pod : Pod) (key : string) :
  labelsOf pod !! key = getLabel (Labels pod) key.
Proof.
  unfold labelsOf, getLabel.
  destruct (Labels pod); [reflexivity|apply lookup_empty].
Qed.

Section NoLostUpdate.

Variable matches : string -> gmap string string -> bool.
Variable Quote : string -> string.
Variable ws : webhookServer.
Variable podName : string.
Variable v0 : Z.
Variable rv0 : N.

Hypothesis namespace_set : namespace ws <> EmptyString.
Hypothesis podName_plain : plainName podName = true.

(** The selector does not look at the counter label. *)
Hypothesis selector_ignores_counter :
  forall m1 m2 : gmap string string,
    (forall key, key <> label ws -> m1 !! key = m2 !! key) ->
    matches (labelSelector ws) m1 = matches (labelSelector ws) m2.

Lemma selected_mutated (pod : Pod) (newValue : Z) :
  matches (labelSelector ws) (labelsOf (mutated ws pod newValue))
  = matches (labelSelector ws) (labelsOf pod).
Proof.
  apply selector_ignores_counter. intros key Hne.
  rewrite !labelsOf_lookup. apply getLabel_mutated_ne. congruence.
Qed.

Lemma requestInv_accepted k c p :
  requestInv matches Quote ws podName v0 rv0 k c p ->
  requestInv matches Quote ws podName v0 rv0 (S k) c p.
Proof.
  intros [(n & w & lastErr & -> & Hn & Hle)
         |[(n & w & snapshot & v & K2 & j & -> & Hn & Hcj & Hjk & Hsn & Hsns
            & Hrv & Heq & Hsel & Hok & Hconf)
          |[(w & e & -> & Hc & Hk)|(w & -> & Hc & Hk)]]].
  - left. exists n, w, lastErr. split; [reflexivity|]. split; lia.
  - right. left. exists n, w, snapshot, v, K2, j.
    split; [reflexivity|]. split; [exact Hn|]. split; [exact Hcj|].
    split; [lia|]. split; [exact Hsn|]. split; [exact Hsns|].
    split; [exact Hrv|]. split; [intros ->; lia|].
    split; [exact Hsel|]. split; assumption.
  - right. right. left. exists w, e. split; [reflexivity|]. split; lia.
  - right. right. right. exists w. split; [reflexivity|]. split; lia.
Qed.

Lemma retryState_requestInv k c n w e :
  (c + n = 4)%nat -> (c <= k)%nat ->
  requestInv matches Quote ws podName v0 rv0 k c
    (retryState Quote ws podName increment n w (Some e)).
Proof.
  intros Hn Hk. destruct n as [|n].
  - right. right. left. exists w, e. split; [reflexivity|]. split; lia.
  - left. exists n, w, (Some e). split; [reflexivity|]. split; lia.
Qed.

Lemma retryState_not_succeeded n w e :
  succeeded (retryState Quote ws podName increment n w (Some e)) = false.
Proof.
  destruct n as [|n]; [reflexivity|].
  destruct (retryState_succ Quote ws podName increment n w (Some e))
    as (K & -> & _). reflexivity.
Qed.

(** A request has given up exactly when four of its writes have been
    refused. *)
Lemma requestInv_gaveUp k c p :
  requestInv matches Quote ws podName v0 rv0 k c p ->
  gaveUp p = Nat.eqb c 4.
Proof.
  intros [(n & w & lastErr & -> & Hn & _)
         |[(n & w & snapshot & v & K2 & j & -> & Hn & _)
          |[(w & e & -> & -> & _)|(w & -> & Hc & _)]]].
  - destruct (retryState_succ Quote ws podName increment n w lastErr)
      as (K & -> & _).
    cbn [gaveUp]. symmetry. apply Nat.eqb_neq. lia.
  - cbn [gaveUp]. symmetry. apply Nat.eqb_neq. lia.
  - reflexivity.
  - cbn [gaveUp]. symmetry. apply Nat.eqb_neq. lia.
Qed.

(** Every refusal of a write answers a write of another request that
    the cluster has accepted since the pod was read. *)
Lemma requestInv_bounds k c p :
  requestInv matches Quote ws podName v0 rv0 k c p ->
  (c <= 4)%nat /\ (c <= k)%nat.
Proof.
  intros [(n & w & lastErr & -> & Hn & Hle)
         |[(n & w & snapshot & v & K2 & j & -> & Hn & Hcj & Hjk & _)
          |[(w & e & -> & Hc & Hk)|(w & -> & Hc & Hk)]]]; lia.
Qed.

(** The record a request is about to write was read after the latest
    refusal of a write of its own, and carries the successor of the
    stored counter if nothing has been written since it was read. *)
Lemma requestInv_write k c ns pod K :
  requestInv matches Quote ws podName v0 rv0 k c (CallUpdate ns pod K) ->
  (rv0 + N.of_nat c <= ResourceVersion pod)%N
  /\ (ResourceVersion pod <= rv0 + N.of_nat k)%N
  /\ (ResourceVersion pod = (rv0 + N.of_nat k)%N ->
      counterOf (label ws) pod = Some (counterAfter v0 (S k))).
Proof.
  intros [(n & w & lastErr & Hp & _)
         |[(n & w & snapshot & v & K2 & j & Hp & Hn & Hcj & Hjk & Hsn & Hsns
            & Hrv & Heq & _)
          |[(w & e & Hp & _)|(w & Hp & _)]]]; try discriminate.
  injection Hp as -> -> _.
  rewrite mutated_ResourceVersion, Hrv.
  split; [lia|]. split; [lia|].
  intros Hcur. assert (j = k) as Hj by lia.
  rewrite (counterOf_mutated ws snapshot (increment v) (wrapInt_range _)).
  rewrite (Heq Hj). unfold increment, counterAfter.
  rewrite wrapInt_succ. do 2 f_equal. lia.
Qed.

Lemma systemInv_ext (refused refused' : nat -> nat)
    (sys : System (ResponseWriter * option error)) :
  (forall i, refused i = refused' i) ->
  systemInv matches Quote ws podName v0 rv0 refused sys ->
  systemInv matches Quote ws podName v0 rv0 refused' sys.
Proof.
  intros Hext (Hcur & Hall & Hrest).
  split; [exact Hcur|]. split; [|exact Hrest].
  intros i p Hi. rewrite <- Hext. apply Hall, Hi.
Qed.

(** Every store call of every request keeps the invariant, and counts as
    a refusal for the request that makes it if it is a refused write. *)
Lemma stepAt_systemInv (i : nat)
    (sys : System (ResponseWriter * option error)) (refused : nat -> nat) :
  systemInv matches Quote ws podName v0 rv0 refused sys ->
  systemInv matches Quote ws podName v0 rv0
    (fun j => ((if Nat.eqb i j && refusedAt j sys then 1 else 0)
               + refused j)%nat)
    (stepAt matches i sys).
Proof.
  intros ((cur & Hc & Hname & Hns & Hctr & Hrv & Hsel)
          & Hall & Hcount & Hlog).
  set (k := length (accepted sys)) in *.
  assert (Hothers : forall k' c' p',
            k' = k \/ k' = S k ->
            requestInv matches Quote ws podName v0 rv0 k' c' p' ->
            c' = ((if refusedAt i sys then 1 else 0) + refused i)%nat ->
            forall j q,
              <[i := p']> (requests sys) !! j = Some q ->
              requestInv matches Quote ws podName v0 rv0 k'
                ((if Nat.eqb i j && refusedAt j sys then 1 else 0)
                 + refused j) q).
  { intros k' c' p' Hk' Hp' Hc' j q Hj.
    apply list_lookup_insert_Some in Hj as [(<- & <- & Hlt)|(Hne & Hj)].
    - rewrite Nat.eqb_refl. cbn [andb]. rewrite <- Hc'. exact Hp'.
    - apply Nat.eqb_neq in Hne. rewrite Hne. cbn [andb Nat.add].
      destruct Hk' as [-> | ->];
        [apply Hall, Hj|apply requestInv_accepted, Hall, Hj]. }
  unfold stepAt. destruct (requests sys !! i) as [p|] eqn:Hi.
  2:{ split; [exists cur; repeat split; assumption|].
      split; [|split; assumption].
      intros j q Hj. destruct (Nat.eqb_spec i j) as [->|Hne]; [congruence|].
      cbn [andb Nat.add]. apply Hall, Hj. }
  destruct (Hall i p Hi)
    as [(n & w & lastErr & -> & Hn & Hle)
       |[(n & w & snapshot & v & K2 & j & -> & Hn & Hcj & Hjk & Hsn & Hsns
          & Hsrv & Heq & Hssel & Hok & Hconf)
        |Hdone]].
  - (* at a query *)
    destruct (retryState_succ Quote ws podName increment n w lastErr)
      as (K & HK & Hnil & Hcons).
    rewrite HK in Hi |- *. cbn [stepProg].
    rewrite (clusterList_present matches ws podName _ cur
               namespace_set podName_plain Hc), Hsel.
    destruct (Hcons cur [] _ Hctr) as (K2 & HK2 & Hok & Hconf).
    rewrite HK2, Hns.
    assert (Href : refusedAt i sys = false).
    { unfold refusedAt. rewrite Hi. reflexivity. }
    split; [|split; [|split]]; cbn [pods requests accepted]; fold k.
    + exists cur. repeat split; assumption.
    + apply (Hothers k (refused i) _ (or_introl eq_refl));
        [|rewrite Href; reflexivity].
      right. left. exists n, w, cur, (counterAfter v0 k), K2, k.
      split; [reflexivity|]. split; [exact Hn|]. split; [exact Hle|].
      split; [lia|]. split; [exact Hname|]. split; [exact Hns|].
      split; [exact Hrv|]. split; [reflexivity|].
      split; [rewrite selected_mutated; exact Hsel|].
      split; assumption.
    + pose proof (succeeded_count_insert _ _ _
                    (CallUpdate (namespace ws)
                       (mutated ws cur (increment (counterAfter v0 k))) K2)
                    Hi) as Hcnt.
      cbn [succeeded] in Hcnt. lia.
    + exact Hlog.
  - (* at a write *)
    cbn [stepProg].
    assert (Hmns : Namespace (mutated ws snapshot (increment v))
                   = namespace ws).
    { rewrite mutated_Namespace. exact Hsns. }
    assert (Hmc : pods sys !! (namespace ws,
                               Name (mutated ws snapshot (increment v)))
                  = Some cur).
    { rewrite mutated_Name, Hsn. exact Hc. }
    destruct (Nat.eq_dec j k) as [Hjeq|Hjne].
    + (* accepted *)
      assert (Hsame : ResourceVersion (mutated ws snapshot (increment v))
                      = ResourceVersion cur).
      { rewrite mutated_ResourceVersion, Hsrv, Hrv, Hjeq. reflexivity. }
      assert (Href : refusedAt i sys = false).
      { unfold refusedAt. rewrite Hi.
        rewrite (clusterUpdate_accepted _ _ _ cur Hmns Hmc Hsame).
        reflexivity. }
      rewrite (clusterUpdate_accepted _ _ _ cur Hmns Hmc Hsame).
      rewrite Hok.
      assert (Hv : increment v = counterAfter v0 (S k)).
      { rewrite (Heq Hjeq). unfold increment, counterAfter.
        rewrite wrapInt_succ. f_equal. lia. }
      split; [|split; [|split]]; cbn [pods requests accepted length];
        fold k.
      * exists (withResourceVersion (mutated ws snapshot (increment v))
                  (N.succ (ResourceVersion cur))).
        rewrite mutated_Name, Hsn.
        split; [apply lookup_insert_eq|].
        cbn [Name Namespace withResourceVersion].
        rewrite mutated_Name, mutated_Namespace.
        split; [exact Hsn|]. split; [exact Hsns|]. split; [|split].
        -- rewrite counterOf_withResourceVersion, <- Hv.
           apply counterOf_mutated. apply wrapInt_range.
        -- unfold withResourceVersion. cbn [ResourceVersion].
           rewrite Hrv, Nat2N.inj_succ. lia.
        -- exact Hssel.
      * apply (Hothers (S k) (refused i) _ (or_intror eq_refl));
          [|rewrite Href; reflexivity].
        right. right. right. exists (Write (Itoa (increment v)) w).
        split; [reflexivity|]. split; lia.
      * pose proof (succeeded_count_insert _ _ _
                      (Ret (updated w (increment v))) Hi) as Hcnt.
        cbn [succeeded updated] in Hcnt. lia.
      * cbn [rev]. rewrite fmap_app, Hlog, seq_S, fmap_app. f_equal.
        cbn [fmap list_fmap Nat.add].
        rewrite (counterOf_mutated ws snapshot (increment v)
                   (wrapInt_range _)).
        rewrite Hsame, Hrv, Hv. reflexivity.
    + (* refused *)
      assert (Hdiff : ResourceVersion (mutated ws snapshot (increment v))
                      <> ResourceVersion cur).
      { rewrite mutated_ResourceVersion, Hsrv, Hrv. lia. }
      assert (Href : refusedAt i sys = true).
      { unfold refusedAt. rewrite Hi.
        rewrite (clusterUpdate_conflict _ _ _ cur Hmns Hmc Hdiff).
        reflexivity. }
      rewrite (clusterUpdate_conflict _ _ _ cur Hmns Hmc Hdiff).
      rewrite (Hconf conflictError eq_refl).
      split; [|split; [|split]]; cbn [pods requests accepted]; fold k.
      * exists cur. repeat split; assumption.
      * apply (Hothers k (S (refused i)) _ (or_introl eq_refl));
          [|rewrite Href; reflexivity].
        cbn [updateFailed fst snd]. apply retryState_requestInv; lia.
      * pose proof (succeeded_count_insert _ _ _
                      (retryState Quote ws podName increment n
                         (updateFailed w conflictError).1
                         (updateFailed w conflictError).2) Hi) as Hcnt.
        cbn [updateFailed snd] in Hcnt.
        rewrite retryState_not_succeeded in Hcnt.
        cbn [succeeded] in Hcnt. cbn [updateFailed snd]. lia.
      * exact Hlog.
  - (* finished *)
    assert (Hret : exists r, p = Ret r).
    { destruct Hdone as [(w & e & -> & _)|(w & -> & _)];
        eexists; reflexivity. }
    destruct Hret as [r ->]. cbn [stepProg].
    rewrite list_insert_id by exact Hi.
    assert (Href : refusedAt i sys = false).
    { unfold refusedAt. rewrite Hi. reflexivity. }
    split; [|split; [|split]]; cbn [pods requests accepted]; fold k;
      try assumption.
    + exists cur. repeat split; assumption.
    + intros j q Hj. destruct (Nat.eqb_spec i j) as [<-|Hne].
      * rewrite Href. cbn [andb Nat.add]. apply Hall, Hj.
      * cbn [andb Nat.add]. apply Hall, Hj.
Qed.

Lemma runSchedule_systemInv (sched : list nat) :
  forall (sys : System (ResponseWriter * option error))
         (refused : nat -> nat),
    systemInv matches Quote ws podName v0 rv0 refused sys ->
    systemInv matches Quote ws podName v0 rv0
      (fun j => (refusals matches j sched sys + refused j)%nat)
      (runSchedule matches sched sys).
Proof.
  induction sched as [|i sched IH]; intros sys refused Hinv; [exact Hinv|].
  change (runSchedule matches (i :: sched) sys)
    with (runSchedule matches sched (stepAt matches i sys)).
  apply (systemInv_ext
           (fun j =>
              (refusals matches j sched (stepAt matches i sys)
               + ((if Nat.eqb i j && refusedAt j sys then 1 else 0)
                  + refused j))%nat)).
  - intros j. cbn [refusals]. lia.
  - apply IH, stepAt_systemInv, Hinv.
Qed.

End NoLostUpdate.

(** ** Concurrent increments *)

Lemma stepAt_length {A : Type} matches (i : nat) (sys : System A) :
  length (requests (stepAt matches i sys)) = length (requests sys).
Proof.
  unfold stepAt. destruct (requests sys !! i) as [p|]; [|reflexivity].
  destruct (stepProg matches (pods sys) p) as [[c' p'] w]. simpl.
  apply length_insert.
Qed.

Lemma runSchedule_length {A : Type} matches (sched : list nat) (sys : System A) :
  length (requests (runSchedule matches sched sys)) = length (requests sys).
Proof.
  revert sys. induction sched as [|i sched IH]; intros sys; [reflexivity|].
  change (runSchedule matches (i :: sched) sys)
    with (runSchedule matches sched (stepAt matches i sys)).
  rewrite IH. apply stepAt_length.
Qed.

Lemma succeeded_count_replicate (n : nat)
    (p : Prog (ResponseWriter * option error)) :
  succeeded p = false -> List.filter succeeded (replicate n p) = [].
Proof.
  intros Hp. induction n as [|n IH]; [reflexivity|].
  simpl. rewrite Hp. exact IH.
Qed.

(** C1, as amended.  [n] increment invocations for one pod are in flight
    at the same time, from a counter of [v0]; their store calls are
    interleaved in any order.  The pod is named by a name, in a namespace,
    and the selector selects it whatever its counter.

    At every moment the stored counter is [v0] plus the number of
    invocations that have returned without an error (in [int] arithmetic;
    exactly that sum when [v0 + n] fits an [int]), and that number is the
    number of writes the cluster has accepted.  The accepted writes were
    each computed from a different version of the record: the i-th from
    the version left by the one before it, with the successor of the value
    that one wrote.

    An invocation is lost in one way only: it gives up, with an error,
    exactly when four of its writes have been refused, and each refusal
    answers a write of another invocation that the cluster has accepted
    in between.  The record an invocation is about to write was read
    after the latest refusal of a write of its own, never before, and
    carries the successor of the stored counter if nothing has been
    written since.  Every invocation has finished after eight turns.  So
    once all have finished the counter is [v0 + n] less the invocations
    refused four times: at least [min n 4] are applied, and all of them
    when [n <= 4]. *)
Theorem increments_are_not_lost
    (matches : string -> gmap string string -> bool)
    (Quote : string -> string) (ws : webhookServer) (podName : string)
    (c0 : gmap (string * string) Pod) (pod0 : Pod) (v0 : Z) (n : nat)
    (sched : list nat) :
  namespace ws <> EmptyString ->
  plainName podName = true ->
  c0 !! (namespace ws, podName) = Some pod0 ->
  Name pod0 = podName ->
  Namespace pod0 = namespace ws ->
  counterOf (label ws) pod0 = Some v0 ->
  matches (labelSelector ws) (labelsOf pod0) = true ->
  (forall m1 m2 : gmap string string,
     (forall key, key <> label ws -> m1 !! key = m2 !! key) ->
     matches (labelSelector ws) m1 = matches (labelSelector ws) m2) ->
  let start :=
    {| pods := c0;
       requests :=
         replicate n
           (retryUpdateLabel Quote ws newResponse podName increment);
       accepted := [] |} in
  let sys := runSchedule matches sched start in
  let k := length (List.filter succeeded (requests sys)) in
  let lost := lostCalls matches n sched start in
  length (accepted sys) = k
  /\ (k + lost <= n)%nat
  /\ (exists cur,
        pods sys !! (namespace ws, podName) = Some cur
        /\ counterOf (label ws) cur = Some (wrapInt (v0 + Z.of_nat k))
        /\ (v0 + Z.of_nat n <= MaxInt ->
            counterOf (label ws) cur = Some (v0 + Z.of_nat k)))
  /\ (fun p => (counterOf (label ws) p, ResourceVersion p))
       <$> rev (accepted sys)
     = (fun i => (Some (wrapInt (v0 + Z.of_nat (S i))),
                  (ResourceVersion pod0 + N.of_nat i)%N))
         <$> seq 0 k
  /\ (forall i, (i < n)%nat ->
        (refusals matches i sched start <= 4)%nat
        /\ (refusals matches i sched start <= length (accepted sys))%nat
        /\ (refusals matches i sched start = 4%nat <->
            exists w e, requests sys !! i = Some (Ret (w, Some e)))
        /\ ((8 <= turns i sched)%nat ->
            exists r, requests sys !! i = Some (Ret r))
        /\ (forall ns pod K,
              requests sys !! i = Some (CallUpdate ns pod K) ->
              (ResourceVersion pod0
               + N.of_nat (refusals matches i sched start)
               <= ResourceVersion pod)%N
              /\ (ResourceVersion pod
                  <= ResourceVersion pod0 + N.of_nat (length (accepted sys)))%N
              /\ (ResourceVersion pod
                  = (ResourceVersion pod0
                     + N.of_nat (length (accepted sys)))%N ->
                  counterOf (label ws) pod
                  = Some (wrapInt
                            (v0 + Z.of_nat (S (length (accepted sys))))))))
  /\ ((forall i, (i < n)%nat -> (8 <= turns i sched)%nat) ->
      (k + lost = n)%nat
      /\ (Nat.min n 4 <= k)%nat
      /\ (v0 + Z.of_nat n <= MaxInt ->
          exists cur,
            pods sys !! (namespace ws, podName) = Some cur
            /\ counterOf (label ws) cur
               = Some (v0 + Z.of_nat n - Z.of_nat lost))).
Proof.
  intros Hnsne Hplain Hc Hname Hns Hctr Hsel Hign start sys k lost.
  assert (Hv0 : inInt v0).
  { unfold counterOf in Hctr.
    destruct (getLabel (Labels pod0) (label ws)) as [s|].
    - destruct (Atoi s) as [e|v] eqn:Hs; [discriminate|].
      injection Hctr as <-. eapply Atoi_inInt, Hs.
    - injection Hctr as <-. unfold inInt, MinInt, MaxInt. lia. }
  assert (Hstart : systemInv matches Quote ws podName v0
                     (ResourceVersion pod0) (fun _ => 0%nat) start).
  { split; [|split; [|split]]; cbn [start pods requests accepted length].
    - exists pod0. repeat split; try assumption.
      + unfold counterAfter. rewrite Z.add_0_r, wrapInt_inInt; assumption.
      + cbn [N.of_nat]. lia.
    - intros i p Hi. apply lookup_replicate in Hi as [-> _].
      left. exists 3%nat, newResponse, None.
      split; [reflexivity|]. split; lia.
    - rewrite succeeded_count_replicate; reflexivity.
    - reflexivity. }
  pose proof (systemInv_ext matches Quote ws podName v0
                (ResourceVersion pod0) _
                (fun j => refusals matches j sched start) sys
                (fun j => Nat.add_0_r _)
                (runSchedule_systemInv matches Quote ws podName v0
                   (ResourceVersion pod0) Hnsne Hplain Hign sched start
                   (fun _ => 0%nat) Hstart))
    as ((cur & Hcur & _ & _ & Hcctr & _) & Hall & Hcount & Hlog).
  fold sys in Hcur, Hcctr, Hcount, Hlog, Hall. fold k in Hcount.
  rewrite <- Hcount in Hcctr, Hlog. fold k in Hcctr, Hlog.
  assert (Hlen : length (requests sys) = n).
  { unfold sys. rewrite runSchedule_length. cbn [start requests].
    apply length_replicate. }
  assert (Hlost : length (List.filter gaveUp (requests sys)) = lost).
  { unfold lost, lostCalls. rewrite <- Hlen.
    apply (filter_seq_length gaveUp
             (fun i => Nat.eqb (refusals matches i sched start) 4)
             (requests sys) 0).
    intros i p Hi. cbn [Nat.add].
    apply (requestInv_gaveUp matches Quote ws podName v0
             (ResourceVersion pod0) _ _ _ (Hall i p Hi)). }
  destruct (finished_count (requests sys)) as [Hle Hfinished].
  rewrite Hlost, Hlen in Hle, Hfinished. fold k in Hle, Hfinished.
  assert (Hreq : forall i, (i < n)%nat ->
            exists p, requests sys !! i = Some p
                      /\ requestInv matches Quote ws podName v0
                           (ResourceVersion pod0) (length (accepted sys))
                           (refusals matches i sched start) p).
  { intros i Hi. destruct (lookup_lt_is_Some_2 (requests sys) i) as [p Hp];
      [rewrite Hlen; exact Hi|].
    exists p. split; [exact Hp|]. apply Hall, Hp. }
  assert (Hturns : forall i, (i < n)%nat -> (8 <= turns i sched)%nat ->
            exists r, requests sys !! i = Some (Ret r)).
  { intros i Hi Ht.
    apply (runSchedule_finishes matches sched i 8 start
             (retryUpdateLabel Quote ws newResponse podName increment));
      [|apply retryUpdateLabel_finishes|exact Ht].
    cbn [start requests]. apply lookup_replicate_2, Hi. }
  split; [symmetry; exact Hcount|]. split; [exact Hle|]. split; [|split].
  - exists cur. split; [exact Hcur|]. split; [exact Hcctr|].
    intros Hfit. rewrite Hcctr. f_equal. apply wrapInt_inInt.
    unfold inInt, MinInt, MaxInt in *. lia.
  - exact Hlog.
  - split.
    + intros i Hi. destruct (Hreq i Hi) as (p & Hp & Hinv).
      destruct (requestInv_bounds _ _ _ _ _ _ _ _ _ Hinv) as [H4 Hk].
      pose proof (requestInv_gaveUp _ _ _ _ _ _ _ _ _ Hinv) as Hg.
      split; [exact H4|]. split; [exact Hk|]. split; [split|split].
      * intros Hfour. rewrite Hfour in Hg. cbn [Nat.eqb] in Hg.
        destruct p as [[w [e|]]| |]; try discriminate.
        exists w, e. exact Hp.
      * intros (w & e & Hp'). rewrite Hp in Hp'. injection Hp' as ->.
        cbn [gaveUp] in Hg. symmetry in Hg. apply Nat.eqb_eq in Hg.
        exact Hg.
      * apply Hturns, Hi.
      * intros ns pod K Hp'. rewrite Hp in Hp'. injection Hp' as ->.
        apply (requestInv_write matches Quote ws podName v0
                 (ResourceVersion pod0) _ _ _ _ _ Hinv).
    + intros Hall8.
      assert (Hk : (k + lost = n)%nat).
      { apply Hfinished. intros p Hp.
        apply list_elem_of_In, list_elem_of_lookup in Hp as [i Hi].
        pose proof (lookup_lt_Some _ _ _ Hi) as Hlt. rewrite Hlen in Hlt.
        destruct (Hturns i Hlt (Hall8 i Hlt)) as [r Hr].
        rewrite Hi in Hr. injection Hr as ->. exists r. reflexivity. }
      split; [exact Hk|]. split.
      * unfold lost, lostCalls in Hk.
        destruct (List.filter _ (seq 0 n)) as [|i rest] eqn:Hf.
        -- cbn [length] in Hk. lia.
        -- assert (Hin : In i (List.filter
                                 (fun i => Nat.eqb
                                             (refusals matches i sched start) 4)
                                 (seq 0 n)))
             by (rewrite Hf; left; reflexivity).
           apply filter_In in Hin as [Hin Hfour].
           apply in_seq in Hin. apply Nat.eqb_eq in Hfour.
           destruct (Hreq i ltac:(lia)) as (p & Hp & Hinv).
           destruct (requestInv_bounds _ _ _ _ _ _ _ _ _ Hinv) as [_ Hacc].
           rewrite Hfour, <- Hcount in Hacc. lia.
      * intros Hfit. exists cur. split; [exact Hcur|].
        rewrite Hcctr. unfold counterAfter. rewrite wrapInt_inInt.
        -- f_equal. lia.
        -- unfold inInt, MinInt, MaxInt in *. lia.
Qed.

(** C1: a run in which the claim, as stated, fails.  Five increments are
    in flight for a pod without the label; every write of request 0 is
    refused, four times, and the request gives up.  All five have
    finished, four without error, and the stored counter is 4, not 5. *)
Lemma five_increments_four_applied :
  let sys := runSchedule equalitySelector starved fiveIncrements in
  result <$> requests sys
  = [Some ({| statusCode := Some StatusInternalServerError;
              body := ("Failed to update pod label" ++ newline)
                        ++ ("Failed to update pod label" ++ newline)
                        ++ ("Failed to update pod label" ++ newline)
                        ++ ("Failed to update pod label" ++ newline) |},
           Some conflictWrapped);
     Some (okResponse "1", None);
     Some (okResponse "2", None);
     Some (okResponse "3", None);
     Some (okResponse "4", None)]
  /\ storedLabel (pods sys) "default" "job-1" "active-jobs" = Some (Some "4")
  /\ (counterOf "active-jobs" <$> pods sys !! ("default", "job-1"))
     <> Some (Some (0 + 5)).
Proof.
  vm_compute. split; [reflexivity|]. split; [reflexivity|]. discriminate.
Qed.

(** C2: the response of a request whose first write is refused and whose
    second attempt succeeds.  Two requests POST /increment?pod_name=job-1
    are in flight; request 1 reads and writes between the read and the
    write of request 0.  Both increments are applied and request 0 writes
    the new value 2 into its body, but its status is the 500 that the
    refused attempt had already written. *)
Lemma conflict_then_success_answers_500 :
  let sys := runSchedule equalitySelector [0; 1; 1; 0; 0; 0]%nat twoIncrements in
  result <$> requests sys
  = [Some {| statusCode := Some StatusInternalServerError;
             body := ("Failed to update pod label" ++ newline) ++ "2" |};
     Some (okResponse "1")]
  /\ storedLabel (pods sys) "default" "job-1" "active-jobs" = Some (Some "2")
  /\ length (accepted sys) = 2%nat.
Proof.
  vm_compute. repeat split; reflexivity.
Qed.

(** C8: a run in which the claim, as stated, fails.  The pod carries
    the largest [int] as its counter; POST /increment?pod_name=job-1 is
    answered 200, and the value it answers and stores is not the
    successor of the counter but the smallest [int]. *)
Lemma increment_of_the_largest_int_wraps :
  let res :=
    @exec _ (cluster equalitySelector) _
      (router quotePlain configureFlags newResponse
         (post "/increment" "job-1")) (clusterOf fullJob) in
  counterOf "active-jobs" fullJob = Some 9223372036854775807
  /\ res.2 = okResponse "-9223372036854775808"
  /\ storedLabel res.1.1 "default" "job-1" "active-jobs"
     = Some (Some "-9223372036854775808")
  /\ increment 9223372036854775807 <> 9223372036854775807 + 1.
Proof.
  vm_compute. split; [reflexivity|]. split; [reflexivity|].
  split; [reflexivity|]. discriminate.
Qed.


(** C10: a run in which the claim, as stated, fails.  With negative
    values allowed and labels kept at zero, a decrement of a pod without
    the counter label writes the label -1, not 0. *)
Lemma decrement_of_absent_label_writes_minus_one :
  let ws :=
    {| namespace := "default"; labelSelector := EmptyString;
       address := "0.0.0.0:8080"; label := "active-jobs";
       removeOnZero := false; allowNegative := true |} in
  let res :=
    @exec _ (cluster equalitySelector) _
      (router quotePlain ws newResponse (post "/decrement" "job-1")) oneJob in
  res.2 = okResponse "-1"
  /\ storedLabel res.1.1 "default" "job-1" "active-jobs" = Some (Some "-1")
  /\ storedLabel res.1.1 "default" "job-1" "active-jobs" <> Some (Some "0").
Proof.
  vm_compute. split; [reflexivity|]. split; [reflexivity|]. discriminate.
Qed.

(** ** The theorems at work on the example cluster *)

Lemma increments_are_not_lost_witness :
  let sys := runSchedule equalitySelector starved fiveIncrements in
  oneJob !! ("default", "job-1") = Some job1
  /\ counterOf "active-jobs" job1 = Some 0
  /\ plainName "job-1" = true
  /\ equalitySelector EmptyString (labelsOf job1) = true
  /\ length (accepted sys) = length (List.filter succeeded (requests sys))
  /\ (exists cur,
        pods sys !! ("default", "job-1") = Some cur
        /\ counterOf "active-jobs" cur
           = Some (0 + Z.of_nat
                         (length (List.filter succeeded (requests sys)))))
  /\ (refusals equalitySelector 0 starved fiveIncrements = 4%nat <->
      exists w e, requests sys !! 0%nat = Some (Ret (w, Some e))).
Proof.
  intros sys.
  assert (H0 : namespace configureFlags <> EmptyString) by discriminate.
  assert (H1 : oneJob !! (namespace configureFlags, "job-1") = Some job1)
    by apply lookup_singleton_eq.
  assert (H2 : counterOf (label configureFlags) job1 = Some 0)
    by reflexivity.
  assert (H3 : forall m1 m2 : gmap string string,
            (forall key, key <> label configureFlags ->
                         m1 !! key = m2 !! key) ->
            equalitySelector (labelSelector configureFlags) m1
            = equalitySelector (labelSelector configureFlags) m2)
    by (intros m1 m2 _; reflexivity).
  destruct (increments_are_not_lost equalitySelector quotePlain configureFlags
              "job-1" oneJob job1 0 5 starved H0 eq_refl H1 eq_refl eq_refl
              H2 eq_refl H3)
    as (Hacc & _ & (cur & Hcur & _ & Hfit) & _ & Heach & _).
  split; [exact H1|]. split; [exact H2|]. split; [reflexivity|].
  split; [reflexivity|]. split; [exact Hacc|]. split.
  - exists cur. split; [exact Hcur|]. apply Hfit.
    unfold MaxInt. lia.
  - destruct (Heach 0%nat ltac:(lia)) as (_ & _ & Hiff & _). exact Hiff.
Defined.

Lemma not_found_is_404_witness :
  let notFound :=
    {| statusCode := Some StatusNotFound;
       body := "Pod not found" ++ newline |} in
  oneJob !! ("default", "job-2") = None
  /\ equalitySelector "app=worker" (labelsOf job1) = false
  /\ (@exec _ (cluster equalitySelector) _
        (updateLabelRequest quotePlain configureFlags newResponse
           (post "/increment" "job-2") increment) oneJob).2
     = notFound
  /\ (@exec _ (cluster equalitySelector) _
        (updateLabelRequest quotePlain workersOnly newResponse
           (post "/increment" "job-1") increment) oneJob).2
     = notFound.
Proof.
  intros notFound.
  assert (H1 : oneJob !! ("default", "job-2") = None)
    by (apply lookup_singleton_ne; discriminate).
  assert (H2 : equalitySelector "app=worker" (labelsOf job1) = false)
    by (vm_compute; reflexivity).
  split; [exact H1|]. split; [exact H2|]. split.
  - pose proof (not_found_is_404 equalitySelector quotePlain
                  configureFlags oneJob (post "/increment" "job-2")
                  increment eq_refl
                  ltac:(discriminate) eq_refl ltac:(discriminate)
                  (or_introl H1)) as Hthm.
    cbv zeta in Hthm. destruct Hthm as [_ Hreq]. rewrite Hreq. reflexivity.
  - assert (H3 : oneJob !! ("default", "job-1") = Some job1)
      by apply lookup_singleton_eq.
    pose proof (not_found_is_404 equalitySelector quotePlain
                  workersOnly oneJob (post "/increment" "job-1")
                  increment eq_refl
                  ltac:(discriminate) eq_refl ltac:(discriminate)
                  (or_intror (ex_intro _ job1 (conj H3 H2)))) as Hthm.
    cbv zeta in Hthm. destruct Hthm as [_ Hreq]. rewrite Hreq. reflexivity.
Defined.

Lemma corrupt_value_is_500_and_not_written_witness :
  let response :=
    {| statusCode := Some StatusInternalServerError;
       body := ("Invalid " ++ quotePlain "active-jobs" ++ " label value: "
                  ++ quotePlain "abc") ++ newline |} in
  let calls := [ListCall "default" (listOptions configureFlags "job-1")] in
  getLabel (Labels corruptJob) "active-jobs" = Some "abc"
  /\ Atoi "abc" = inl (NumError "Atoi" "abc" ErrSyntax)
  /\ @exec _ (cluster equalitySelector) _
       (buildIncrementHandler quotePlain configureFlags newResponse
          (post "/increment" "job-1")) corruptCluster
     = (corruptCluster, calls, response)
  /\ @exec _ (cluster equalitySelector) _
       (buildDecrementHandler quotePlain configureFlags newResponse
          (post "/increment" "job-1")) corruptCluster
     = (corruptCluster, calls, response).
Proof.
  intros response calls.
  assert (H1 : getLabel (Labels corruptJob) (label configureFlags) = Some "abc")
    by apply lookup_singleton_eq.
  assert (H2 : Atoi "abc" = inl (NumError "Atoi" "abc" ErrSyntax))
    by (vm_compute; reflexivity).
  assert (H3 : @List _ (cluster equalitySelector) (namespace configureFlags)
                 (listOptions configureFlags
                    (Get (Query (post "/increment" "job-1")) "pod_name"))
                 corruptCluster
               = (corruptCluster, inr [corruptJob]))
    by (apply (clusterList_selected equalitySelector configureFlags "job-1");
        [discriminate|reflexivity|apply lookup_singleton_eq|reflexivity]).
  pose proof (@corrupt_value_is_500_and_not_written _
                (cluster equalitySelector) quotePlain configureFlags
                corruptCluster corruptCluster (post "/increment" "job-1")
                corruptJob [] "abc" _ eq_refl ltac:(discriminate) H3 H1 H2)
    as Hthm.
  cbv zeta in Hthm. destruct Hthm as (_ & Hinc & Hdec).
  split; [exact H1|]. split; [exact H2|]. split; [exact Hinc|exact Hdec].
Defined.

Lemma decrement_floor_at_zero_witness :
  let res :=
    @exec _ (cluster equalitySelector) _
      (buildDecrementHandler quotePlain configureFlags newResponse
         (post "/decrement" "job-1")) oneJob in
  allowNegative configureFlags = false
  /\ counterOf "active-jobs" job1 = Some 0
  /\ res.2 = okResponse "0"
  /\ storedLabel res.1.1 "default" "job-1" "active-jobs" = Some None.
Proof.
  intros res.
  set (written := mutated configureFlags job1 0).
  set (stored := withResourceVersion written 8).
  assert (H1 : @List _ (cluster equalitySelector) (namespace configureFlags)
                 (listOptions configureFlags
                    (Get (Query (post "/decrement" "job-1")) "pod_name"))
                 oneJob
               = (oneJob, inr [job1]))
    by (apply (clusterList_selected equalitySelector configureFlags "job-1");
        [discriminate|reflexivity|apply lookup_singleton_eq|reflexivity]).
  assert (H2 : counterOf (label configureFlags) job1 = Some 0)
    by reflexivity.
  assert (H3 : @Update _ (cluster equalitySelector) (Namespace job1) written
                 oneJob
               = (<[("default", "job-1") := stored]> oneJob, inr stored))
    by (apply (clusterUpdate_accepted "default" oneJob written job1);
        [reflexivity|apply lookup_singleton_eq|reflexivity]).
  pose proof (@decrement_floor_at_zero _ (cluster equalitySelector)
                quotePlain configureFlags oneJob oneJob _
                (post "/decrement" "job-1") job1 stored []
                eq_refl ltac:(discriminate) eq_refl H1 H2 H3) as Hthm.
  cbv zeta in Hthm. destruct Hthm as (_ & _ & _ & Hreq).
  split; [reflexivity|]. split; [exact H2|].
  unfold res. rewrite Hreq. split; [reflexivity|].
  unfold storedLabel. cbn [fst]. rewrite lookup_insert_eq. reflexivity.
Defined.

Lemma decrement_to_zero_label_witness :
  let cl : gmap (string * string) Pod := {[ ("default", "job-1") := activeJob ]} in
  counterOf "active-jobs" activeJob = Some 1
  /\ decrement configureFlags 1 = 0
  /\ (exists written,
        (@exec _ (cluster equalitySelector) _
           (updateLabel quotePlain configureFlags newResponse "job-1"
              (decrement configureFlags)) cl).1.2
        = [ListCall "default" (listOptions configureFlags "job-1");
           UpdateCall "default" written]
        /\ getLabel (Labels written) "active-jobs" = None)
  /\ (exists written,
        (@exec _ (cluster equalitySelector) _
           (updateLabel quotePlain keepZero newResponse "job-1"
              (decrement keepZero)) cl).1.2
        = [ListCall "default" (listOptions keepZero "job-1");
           UpdateCall "default" written]
        /\ getLabel (Labels written) "active-jobs" = Some "0").
Proof.
  intros cl.
  assert (H1 : forall ws,
            namespace ws = "default" -> labelSelector ws = EmptyString ->
            @List _ (cluster equalitySelector) (namespace ws)
              (listOptions ws "job-1") cl
            = (cl, inr [activeJob])).
  { intros ws Hns Hsel.
    apply (clusterList_selected equalitySelector ws "job-1").
    - rewrite Hns. discriminate.
    - reflexivity.
    - rewrite Hns. apply lookup_singleton_eq.
    - rewrite Hsel. reflexivity. }
  assert (H2 : counterOf "active-jobs" activeJob = Some 1)
    by (vm_compute; reflexivity).
  split; [exact H2|]. split; [reflexivity|]. split.
  - destruct (@decrement_to_zero_label _ (cluster equalitySelector)
                quotePlain configureFlags cl cl newResponse "job-1"
                activeJob [] 1 (H1 configureFlags eq_refl eq_refl) H2 eq_refl)
      as (written & Hcalls & Hlbl & _).
    exists written. split; [exact Hcalls|exact Hlbl].
  - destruct (@decrement_to_zero_label _ (cluster equalitySelector)
                quotePlain keepZero cl cl newResponse "job-1"
                activeJob [] 1 (H1 keepZero eq_refl eq_refl) H2 eq_refl)
      as (written & Hcalls & Hlbl & _).
    exists written. split; [exact Hcalls|exact Hlbl].
Defined.

Lemma absent_label_reads_as_zero_witness :
  getLabel (Labels job1) "active-jobs" = None
  /\ (@exec _ (cluster equalitySelector) _
        (updateLabel quotePlain configureFlags newResponse "job-1"
           increment) oneJob).2
     = (okResponse "1", None)
  /\ increment (-3) = -2
  /\ increment 41 = 42
  /\ increment MaxInt = MinInt.
Proof.
  assert (H1 : @List _ (cluster equalitySelector) (namespace configureFlags)
                 (listOptions configureFlags "job-1") oneJob
               = (oneJob, inr [job1]))
    by (apply (clusterList_selected equalitySelector configureFlags "job-1");
        [discriminate|reflexivity|apply lookup_singleton_eq|reflexivity]).
  assert (H2 : getLabel (Labels job1) (label configureFlags) = None)
    by reflexivity.
  destruct (@absent_label_reads_as_zero _ (cluster equalitySelector)
              quotePlain configureFlags oneJob oneJob newResponse "job-1"
              job1 [] increment H1 H2)
    as (Hrun & _ & Hinc).
  split; [exact H2|]. split.
  - rewrite Hrun.
    rewrite (clusterUpdate_accepted "default" oneJob _ job1);
      [reflexivity|reflexivity|apply lookup_singleton_eq|reflexivity].
  - split; [|split].
    + apply (Hinc (-3)). unfold inInt, MinInt, MaxInt. lia.
    + apply (Hinc 41). unfold inInt, MinInt, MaxInt. lia.
    + apply (Hinc MaxInt). unfold inInt, MinInt, MaxInt. lia.
Defined.

Lemma default_scenario_witness :
  let serve path c :=
    @exec _ (cluster equalitySelector) _
      (router quotePlain configureFlags newResponse (post path "job-1")) c in
  let s1 := serve "/increment" oneJob in
  let s2 := serve "/increment" s1.1.1 in
  let s3 := serve "/decrement" s2.1.1 in
  let s4 := serve "/decrement" s3.1.1 in
  (forall labels, equalitySelector EmptyString labels = true)
  /\ getLabel (Labels job1) "active-jobs" = None
  /\ s1.2 = okResponse "1"
  /\ storedLabel s1.1.1 "default" "job-1" "active-jobs" = Some (Some "1")
  /\ s2.2 = okResponse "2"
  /\ s3.2 = okResponse "1"
  /\ s4.2 = okResponse "0"
  /\ storedLabel s4.1.1 "default" "job-1" "active-jobs" = Some None.
Proof.
  intros serve s1 s2 s3 s4.
  assert (H1 : forall labels, equalitySelector EmptyString labels = true)
    by (intros labels; reflexivity).
  assert (H2 : oneJob !! ("default", "job-1") = Some job1)
    by apply lookup_singleton_eq.
  pose proof (default_scenario equalitySelector quotePlain oneJob job1
                H1 H2 eq_refl eq_refl eq_refl) as Hthm.
  cbv zeta in Hthm.
  destruct Hthm as (R1 & L1 & R2 & _ & R3 & _ & R4 & L4).
  split; [exact H1|]. split; [reflexivity|].
  repeat split; assumption.
Defined.


Lemma zero_policy_on_any_operation_witness :
  let minusOne : gmap (string * string) Pod :=
    {[ ("default", "job-1") := minusOneJob ]} in
  counterOf "active-jobs" minusOneJob = Some (-1)
  /\ (exists written,
        (@exec _ (cluster equalitySelector) _
           (updateLabel quotePlain signedCounter newResponse "job-1"
              increment) minusOne).1.2
        = [ListCall "default" (listOptions signedCounter "job-1");
           UpdateCall "default" written]
        /\ getLabel (Labels written) "active-jobs" = None)
  /\ (exists written,
        (@exec _ (cluster equalitySelector) _
           (updateLabel quotePlain keepZero newResponse "job-1"
              (decrement keepZero)) oneJob).1.2
        = [ListCall "default" (listOptions keepZero "job-1");
           UpdateCall "default" written]
        /\ getLabel (Labels written) "active-jobs" = Some "0").
Proof.
  intros minusOne.
  assert (H1 : counterOf "active-jobs" minusOneJob = Some (-1))
    by (vm_compute; reflexivity).
  split; [exact H1|]. split.
  - assert (HL : @List _ (cluster equalitySelector) (namespace signedCounter)
                   (listOptions signedCounter "job-1") minusOne
                 = (minusOne, inr [minusOneJob]))
      by (apply (clusterList_selected equalitySelector signedCounter "job-1");
          [discriminate|reflexivity|apply lookup_singleton_eq|reflexivity]).
    destruct (@zero_policy_on_any_operation _ (cluster equalitySelector)
                quotePlain signedCounter minusOne minusOne newResponse
                "job-1" minusOneJob [] HL) as (Hinc & _).
    destruct (Hinc eq_refl H1) as (_ & written & Hcalls & Hlbl).
    exists written. split; assumption.
  - assert (HL : @List _ (cluster equalitySelector) (namespace keepZero)
                   (listOptions keepZero "job-1") oneJob
                 = (oneJob, inr [job1]))
      by (apply (clusterList_selected equalitySelector keepZero "job-1");
          [discriminate|reflexivity|apply lookup_singleton_eq|reflexivity]).
    destruct (@zero_policy_on_any_operation _ (cluster equalitySelector)
                quotePlain keepZero oneJob oneJob newResponse
                "job-1" job1 [] HL) as (_ & Hdec).
    destruct (Hdec eq_refl eq_refl eq_refl) as (_ & written & Hcalls & Hlbl).
    exists written. split; assumption.
Defined.

(** * Further properties of the handlers *)

(** ** Requests that never reach the store *)

Section Rejected.

Context {St : Type} `{Clientset St}.
Variable Quote : string -> string.
Variable ws : webhookServer.

(** X1. A request whose method is not POST is answered 405, whatever its
    query, by either handler: no store call is made and the store is as it
    was. *)
Theorem other_method_is_405 (st : St) (r : Request) :
  Method r <> MethodPost ->
  let response :=
    {| statusCode := Some StatusMethodNotAllowed;
       body := "Method not allowed" ++ newline |} in
  exec (buildIncrementHandler Quote ws newResponse r) st = (st, [], response)
  /\ exec (buildDecrementHandler Quote ws newResponse r) st
     = (st, [], response).
Proof.
  intros HM response.
  unfold buildIncrementHandler, buildDecrementHandler, updateLabelRequest.
  destruct (String.eqb_spec (Method r) MethodPost) as [Heq|_];
    [contradiction|].
  split; reflexivity.
Qed.

(** X2. A POST request whose query has no [pod_name], or an empty one, is
    answered 400 by either handler: no store call is made. *)
Theorem missing_pod_name_is_400 (st : St) (r : Request) :
  Method r = MethodPost ->
  Get (Query r) "pod_name" = EmptyString ->
  let response :=
    {| statusCode := Some StatusBadRequest;
       body := "Missing pod_name query parameter" ++ newline |} in
  exec (buildIncrementHandler Quote ws newResponse r) st = (st, [], response)
  /\ exec (buildDecrementHandler Quote ws newResponse r) st
     = (st, [], response).
Proof.
  intros HM HQ response.
  unfold buildIncrementHandler, buildDecrementHandler, updateLabelRequest.
  rewrite HM, HQ. split; reflexivity.
Qed.

End Rejected.

(** ** The store calls of an invocation *)

Section Calls.

Context {St : Type} `{Clientset St}.
Variable Quote : string -> string.
Variable ws : webhookServer.

(** An attempt is a query, or a query and the write of the record
    mutated from the first pod of the answer. *)
Lemma updateLabel_calls_shape w podName cb st :
  (exec (updateLabel Quote ws w podName cb) st).1.2
  = [ListCall (namespace ws) (listOptions ws podName)]
  \/ exists st1 pod rest v,
       List (namespace ws) (listOptions ws podName) st
       = (st1, inr (pod :: rest))
       /\ counterOf (label ws) pod = Some v
       /\ (exec (updateLabel Quote ws w podName cb) st).1.2
          = [ListCall (namespace ws) (listOptions ws podName);
             UpdateCall (Namespace pod) (mutated ws pod (cb v))].
Proof.
  destruct (List (namespace ws) (listOptions ws podName) st)
    as [st1 [e|[|pod rest]]] eqn:HL.
  - left. rewrite (exec_updateLabel_list_error Quote ws _ _ _ _ _ _ HL).
    reflexivity.
  - left. rewrite (exec_updateLabel_no_pod Quote ws _ _ _ _ _ HL).
    reflexivity.
  - destruct (counterOf (label ws) pod) as [v|] eqn:Hctr.
    + right. exists st1, pod, rest, v. split; [reflexivity|].
      split; [exact Hctr|].
      rewrite (exec_updateLabel_write Quote ws _ _ _ _ _ _ _ _ HL Hctr).
      destruct (Update _ _ st1) as [st2 res]. reflexivity.
    + left. unfold counterOf in Hctr.
      destruct (getLabel (Labels pod) (label ws)) as [valueStr|] eqn:Hlbl;
        [|discriminate].
      destruct (Atoi valueStr) as [e|v] eqn:Hparse; [|discriminate].
      rewrite (exec_updateLabel_corrupt Quote ws _ _ _ _ _ _ _ _ _
                 HL Hlbl Hparse).
      reflexivity.
Qed.

Lemma attempts_calls_Forall (P : Call -> Prop) podName cb n w lastErr st :
  (forall w st, Forall P (exec (updateLabel Quote ws w podName cb) st).1.2) ->
  Forall P (attempts n (fun w => updateLabel Quote ws w podName cb)
              w lastErr st).1.2.
Proof.
  intros Hone. revert w lastErr st.
  induction n as [|n IH]; intros w lastErr st; [constructor|].
  cbn [attempts]. specialize (Hone w st).
  destruct (exec (updateLabel Quote ws w podName cb) st)
    as [[st1 c1] [w1 [e|]]]; cbn [fst snd] in *; [|exact Hone].
  destruct (IsConflict e); cbn [fst snd]; [|exact Hone].
  specialize (IH w1 (Some e) st1).
  destruct (attempts n _ w1 (Some e) st1) as [[st2 c2] r].
  cbn [fst snd] in *. apply Forall_app. split; assumption.
Qed.

Lemma attempts_calls_counts podName cb n w lastErr st :
  let calls := (attempts n (fun w => updateLabel Quote ws w podName cb)
                  w lastErr st).1.2 in
  (length (List.filter isListCall calls) <= n)%nat
  /\ (length (List.filter isUpdateCall calls)
      <= length (List.filter isListCall calls))%nat.
Proof.
  revert w lastErr st. induction n as [|n IH]; intros w lastErr st;
    [simpl; lia|].
  cbn [attempts].
  assert (Hone :
    (length (List.filter isListCall
               (exec (updateLabel Quote ws w podName cb) st).1.2) = 1)%nat
    /\ (length (List.filter isUpdateCall
                  (exec (updateLabel Quote ws w podName cb) st).1.2)
        <= 1)%nat).
  { destruct (updateLabel_calls_shape w podName cb st)
      as [->|(st1 & pod & rest & v & _ & _ & ->)]; simpl; lia. }
  destruct (exec (updateLabel Quote ws w podName cb) st)
    as [[st1 c1] [w1 [e|]]]; cbn [fst snd] in *; [|lia].
  destruct (IsConflict e); cbn [fst snd]; [|lia].
  specialize (IH w1 (Some e) st1).
  destruct (attempts n _ w1 (Some e) st1) as [[st2 c2] r].
  cbn [fst snd] in *. rewrite !List.filter_app, !length_app. lia.
Qed.

Lemma attempts_calls_head podName cb n w lastErr st :
  exists rest,
    (attempts (S n) (fun w => updateLabel Quote ws w podName cb)
       w lastErr st).1.2
    = ListCall (namespace ws) (listOptions ws podName) :: rest.
Proof.
  cbn [attempts].
  pose proof (updateLabel_calls_shape w podName cb st) as Hshape.
  destruct (exec (updateLabel Quote ws w podName cb) st)
    as [[st1 c1] [w1 [e|]]]; cbn [fst snd] in *.
  - destruct (IsConflict e); cbn [fst snd].
    + destruct (attempts n _ w1 (Some e) st1) as [[st2 c2] r].
      cbn [fst snd].
      destruct Hshape as [->|(? & ? & ? & ? & _ & _ & ->)];
        eexists; reflexivity.
    + destruct Hshape as [->|(? & ? & ? & ? & _ & _ & ->)];
        eexists; reflexivity.
  - destruct Hshape as [->|(? & ? & ? & ? & _ & _ & ->)];
      eexists; reflexivity.
Qed.

(** X3. Whatever the store answers, an engine invocation begins with a
    query, makes at most four queries, and never more writes than
    queries: the retry is bounded. *)
Theorem invocation_calls_are_bounded w podName callback st :
  let calls := (exec (retryUpdateLabel Quote ws w podName callback) st).1.2 in
  (exists rest,
     calls = ListCall (namespace ws) (listOptions ws podName) :: rest)
  /\ (length (List.filter isListCall calls) <= 4)%nat
  /\ (length (List.filter isUpdateCall calls)
      <= length (List.filter isListCall calls))%nat.
Proof.
  intros calls. unfold calls, retryUpdateLabel.
  rewrite exec_RetryOnConflict.
  change (Steps DefaultBackoff) with 4%nat.
  split; [apply (attempts_calls_head podName callback 3)
         |apply (attempts_calls_counts podName callback 4)].
Qed.

(** X4. Every query of an invocation is made in the configured namespace,
    for the pod named in the request, with the configured label selector
    and a limit of one; every write goes to the namespace of the pod it
    submits. *)
Theorem invocation_calls_are_scoped w podName callback st :
  Forall (fun c =>
            match c with
            | ListCall ns opts =>
                ns = namespace ws
                /\ FieldSelector opts = "metadata.name=" ++ podName
                /\ LabelSelector opts = labelSelector ws
                /\ Limit opts = 1%nat
            | UpdateCall ns pod => ns = Namespace pod
            end)
    (exec (retryUpdateLabel Quote ws w podName callback) st).1.2.
Proof.
  unfold retryUpdateLabel. rewrite exec_RetryOnConflict.
  apply attempts_calls_Forall. intros w' st'.
  destruct (updateLabel_calls_shape w' podName callback st')
    as [->|(st1 & pod & rest & v & _ & _ & ->)].
  - repeat constructor.
  - repeat constructor. symmetry. apply mutated_Namespace.
Qed.

(** X5. The record an attempt submits is the first pod of the answer
    with its counter label changed and nothing else: name, namespace,
    resource version and every other label are as fetched. *)
Theorem only_the_counter_label_changes
    w podName callback st st1 pod rest ns written :
  List (namespace ws) (listOptions ws podName) st = (st1, inr (pod :: rest)) ->
  In (UpdateCall ns written)
     (exec (updateLabel Quote ws w podName callback) st).1.2 ->
  ns = Namespace pod
  /\ Name written = Name pod
  /\ Namespace written = Namespace pod
  /\ ResourceVersion written = ResourceVersion pod
  /\ (forall key, key <> label ws ->
        getLabel (Labels written) key = getLabel (Labels pod) key).
Proof.
  intros HL Hin.
  destruct (updateLabel_calls_shape w podName callback st)
    as [Hc|(st1' & pod' & rest' & v & HL' & _ & Hc)]; rewrite Hc in Hin.
  - destruct Hin as [Hin|[]]. discriminate.
  - rewrite HL in HL'. injection HL' as <- <- <-.
    destruct Hin as [Hin|[Hin|[]]]; [discriminate|].
    injection Hin as <- <-.
    rewrite mutated_Name, mutated_Namespace, mutated_ResourceVersion.
    repeat split; try reflexivity.
    intros key Hne. apply getLabel_mutated_ne. congruence.
Qed.

(** X6. What an attempt writes, the next attempt reads back: the record
    submitted for a new value carries a counter label that parses to that
    value, or no counter label when the value is 0 and labels are removed
    at zero, which reads as 0. *)
Theorem written_counter_reads_back
    w podName callback st st1 pod rest v ns written :
  List (namespace ws) (listOptions ws podName) st = (st1, inr (pod :: rest)) ->
  counterOf (label ws) pod = Some v ->
  inInt (callback v) ->
  In (UpdateCall ns written)
     (exec (updateLabel Quote ws w podName callback) st).1.2 ->
  counterOf (label ws) written = Some (callback v)
  /\ getLabel (Labels written) (label ws)
     = (if (callback v =? 0)%Z && removeOnZero ws then None
        else Some (Itoa (callback v))).
Proof.
  intros HL Hctr Hin Hcall.
  rewrite (exec_updateLabel_write Quote ws _ _ _ _ _ _ _ _ HL Hctr) in Hcall.
  destruct (Update _ _ st1) as [st2 res]. cbn [fst snd] in Hcall.
  destruct Hcall as [Hc|[Hc|[]]]; [discriminate|].
  injection Hc as <- <-. split.
  - apply counterOf_mutated, Hin.
  - apply getLabel_mutated.
Qed.

End Calls.

(** ** The response of an invocation *)

Section Responses.

Context {St : Type} `{Clientset St}.
Variable Quote : string -> string.
Variable ws : webhookServer.

(** An attempt never changes a status that is already written. *)
Lemma updateLabel_status_kept w podName cb st code :
  statusCode w = Some code ->
  statusCode (exec (updateLabel Quote ws w podName cb) st).2.1 = Some code.
Proof.
  intros Hs.
  destruct (exec (updateLabel Quote ws w podName cb) st)
    as [[st1 c1] [w1 err]] eqn:Hrun. cbn [fst snd].
  destruct (exec_updateLabel_cases Quote ws _ _ _ _ _ _ _ _ Hrun)
    as [(e1 & Heq)|[Heq|[(s & e1 & Hp & Heq)|[(e1 & Heq)|(v & Heq)]]]];
    unfold listFailed, podNotFound, invalidLabel, updateFailed, updated in Heq;
    injection Heq as -> _;
    rewrite ?statusCode_http_Error, ?statusCode_Write, Hs; reflexivity.
Qed.

Lemma attempts_status_kept podName cb n w lastErr st code :
  statusCode w = Some code ->
  statusCode (attempts n (fun w => updateLabel Quote ws w podName cb)
                w lastErr st).2.1 = Some code.
Proof.
  revert w lastErr st. induction n as [|n IH]; intros w lastErr st Hs;
    [exact Hs|].
  cbn [attempts].
  pose proof (updateLabel_status_kept w podName cb st code Hs) as Hone.
  destruct (exec (updateLabel Quote ws w podName cb) st)
    as [[st1 c1] [w1 [e|]]]; cbn [fst snd] in *; [|exact Hone].
  destruct (IsConflict e); cbn [fst snd]; [|exact Hone].
  specialize (IH w1 (Some e) st1 Hone).
  destruct (attempts n _ w1 (Some e) st1) as [[st2 c2] r].
  exact IH.
Qed.

Lemma attempts_after_conflict podName cb n w lastErr st st1 c1 w1 e :
  exec (updateLabel Quote ws w podName cb) st = (st1, c1, (w1, Some e)) ->
  IsConflict e = true ->
  (attempts (S n) (fun w => updateLabel Quote ws w podName cb)
     w lastErr st).2
  = (attempts n (fun w => updateLabel Quote ws w podName cb)
       w1 (Some e) st1).2.
Proof.
  intros Hrun He. cbn [attempts]. rewrite Hrun, He.
  destruct (attempts n _ w1 (Some e) st1) as [[st2 c2] r]. reflexivity.
Qed.

(** X7. Once an attempt of a request has been refused with a conflict,
    the status of the response is 500, whatever the later attempts do:
    the refused attempt has written it, and a retry that succeeds can only
    append to the body. *)
Theorem conflict_fixes_the_status_at_500
    podName callback st st1 calls w1 e :
  exec (updateLabel Quote ws newResponse podName callback) st
  = (st1, calls, (w1, Some e)) ->
  IsConflict e = true ->
  statusCode
    (exec (retryUpdateLabel Quote ws newResponse podName callback) st).2.1
  = Some StatusInternalServerError.
Proof.
  intros Hrun He. unfold retryUpdateLabel. rewrite exec_RetryOnConflict.
  change (Steps DefaultBackoff) with 4%nat.
  rewrite (attempts_after_conflict podName callback 3 _ _ _ _ _ _ _ Hrun He).
  apply attempts_status_kept.
  apply (conflict_attempt_status Quote ws _ _ _ _ _ _ _ _ Hrun He).
Qed.



End Responses.

(** ** The values written at the bounds *)

Lemma counterOf_inInt (lbl : string) (pod : Pod) (v : Z) :
  counterOf lbl pod = Some v -> inInt v.
Proof.
  unfold counterOf. destruct (getLabel (Labels pod) lbl) as [s|].
  - destruct (Atoi s) as [e|v'] eqn:Hs; [discriminate|].
    intros [= <-]. eapply Atoi_inInt, Hs.
  - intros [= <-]. unfold inInt, MinInt, MaxInt. lia.
Qed.

Lemma Atoi_out_of_range (z : Z) :
  ~ inInt z -> Atoi (Itoa z) = inl (NumError "Atoi" (Itoa z) ErrRange).
Proof.
  intros Hz. unfold Atoi. rewrite parseDecimal_Itoa.
  destruct (Z.leb_spec MinInt z) as [Hlo|Hlo]; [|reflexivity].
  destruct (Z.leb_spec z MaxInt) as [Hhi|Hhi]; [|reflexivity].
  exfalso. apply Hz. split; assumption.
Qed.

Section Bounds.

Context {St : Type} `{Clientset St}.
Variable Quote : string -> string.
Variable ws : webhookServer.

(** X9. With negative values not allowed, a decrement never submits a
    negative counter, not even for a pod whose label is negative already:
    the value written is the larger of 0 and the predecessor of the value
    read. *)
Theorem decrement_never_writes_negative
    w podName st st1 pod rest v ns written :
  allowNegative ws = false ->
  List (namespace ws) (listOptions ws podName) st = (st1, inr (pod :: rest)) ->
  counterOf (label ws) pod = Some v ->
  In (UpdateCall ns written)
     (exec (updateLabel Quote ws w podName (decrement ws)) st).1.2 ->
  decrement ws v = Z.max 0 (v - 1)
  /\ counterOf (label ws) written = Some (Z.max 0 (v - 1)).
Proof.
  intros Hneg HL Hctr Hcall.
  pose proof (counterOf_inInt _ _ _ Hctr) as Hv.
  assert (Hdec : decrement ws v = Z.max 0 (v - 1)).
  { unfold decrement. rewrite Hneg. cbn [negb andb].
    destruct (Z.leb_spec v 0); [lia|].
    rewrite wrapInt_inInt; [lia|].
    unfold inInt, MinInt, MaxInt in *. lia. }
  split; [exact Hdec|].
  rewrite (exec_updateLabel_write Quote ws _ _ _ _ _ _ _ _ HL Hctr) in Hcall.
  destruct (Update _ _ st1) as [st2 res]. cbn [fst snd] in Hcall.
  destruct Hcall as [Hc|[Hc|[]]]; [discriminate|].
  injection Hc as <- <-. rewrite Hdec.
  apply counterOf_mutated. unfold inInt, MinInt, MaxInt in *. lia.
Qed.

(** X10. The increment is the successor of the value read, except at the
    largest [int], where Go's addition wraps: the counter submitted for a
    pod that carries the largest [int] is the smallest one. *)
Theorem increment_wraps_at_the_largest_int
    w podName st st1 pod rest v ns written :
  List (namespace ws) (listOptions ws podName) st = (st1, inr (pod :: rest)) ->
  counterOf (label ws) pod = Some v ->
  In (UpdateCall ns written)
     (exec (updateLabel Quote ws w podName increment) st).1.2 ->
  increment v = (if (v =? MaxInt)%Z then MinInt else v + 1)
  /\ counterOf (label ws) written
     = Some (if (v =? MaxInt)%Z then MinInt else v + 1).
Proof.
  intros HL Hctr Hcall.
  pose proof (counterOf_inInt _ _ _ Hctr) as Hv.
  assert (Hinc : increment v = (if (v =? MaxInt)%Z then MinInt else v + 1)).
  { unfold increment. destruct (Z.eqb_spec v MaxInt) as [->|Hne].
    - reflexivity.
    - apply wrapInt_inInt. unfold inInt, MinInt, MaxInt in *. lia. }
  split; [exact Hinc|].
  rewrite (exec_updateLabel_write Quote ws _ _ _ _ _ _ _ _ HL Hctr) in Hcall.
  destruct (Update _ _ st1) as [st2 res]. cbn [fst snd] in Hcall.
  destruct Hcall as [Hc|[Hc|[]]]; [discriminate|].
  injection Hc as <- <-. rewrite <- Hinc.
  apply counterOf_mutated, wrapInt_range.
Qed.

(** X11. A counter label that is a decimal number outside the range of
    [int] is treated as any other label that does not parse: the request
    is answered 500, the engine returns the range error, and the query is
    the only call. *)
Theorem out_of_range_label_is_corrupt
    podName callback st st1 pod rest z :
  List (namespace ws) (listOptions ws podName) st = (st1, inr (pod :: rest)) ->
  getLabel (Labels pod) (label ws) = Some (Itoa z) ->
  ~ inInt z ->
  exists w',
    exec (retryUpdateLabel Quote ws newResponse podName callback) st
    = (st1, [ListCall (namespace ws) (listOptions ws podName)],
       (w', Some (Wrap (NumError "Atoi" (Itoa z) ErrRange)
                    ("invalid " ++ Quote (label ws) ++ " label value: "
                       ++ Quote (Itoa z)))))
    /\ statusCode w' = Some StatusInternalServerError.
Proof.
  intros HL Hlbl Hz.
  pose proof (Atoi_out_of_range z Hz) as Hparse.
  eexists. split.
  - apply exec_retry_first_attempt.
    + eapply exec_updateLabel_corrupt; eassumption.
    + intros e [= <-]. split; [reflexivity|discriminate].
  - reflexivity.
Qed.

End Bounds.

(** ** Requests served by the cluster, one after the other *)

Section ServedOnce.

Variable matches : string -> gmap string string -> bool.
Variable Quote : string -> string.
Variable ws : webhookServer.

(** X12. With nobody else writing, a request that names, by a plain
    name, a pod that the cluster holds in the configured namespace and
    the selector selects is answered 200 with a body that parses to the
    new value; afterwards the stored pod carries that value as its counter
    and the next resource version, and every other pod of the cluster is
    as it was. *)
Theorem served_request_updates_one_pod
    (c : gmap (string * string) Pod) (r : Request) (pod : Pod) (v : Z)
    (callback : Z -> Z) :
  Method r = MethodPost ->
  Get (Query r) "pod_name" <> EmptyString ->
  plainName (Get (Query r) "pod_name") = true ->
  namespace ws <> EmptyString ->
  let podName := Get (Query r) "pod_name" in
  c !! (namespace ws, podName) = Some pod ->
  Name pod = podName ->
  Namespace pod = namespace ws ->
  matches (labelSelector ws) (labelsOf pod) = true ->
  counterOf (label ws) pod = Some v ->
  inInt (callback v) ->
  let res :=
    @exec _ (cluster matches) _
      (updateLabelRequest Quote ws newResponse r callback) c in
  statusCode res.2 = Some StatusOK
  /\ Atoi (body res.2) = inr (callback v)
  /\ (exists stored,
        res.1.1 !! (namespace ws, podName) = Some stored
        /\ counterOf (label ws) stored = Some (callback v)
        /\ ResourceVersion stored = N.succ (ResourceVersion pod)
        /\ Name stored = Name pod
        /\ Namespace stored = Namespace pod)
  /\ (forall key, key <> (namespace ws, podName) -> res.1.1 !! key = c !! key).
Proof.
  intros HM HQ Hplain Hnsne podName Hc Hname Hns Hm Hctr Hin res.
  unfold res, podName in *.
  rewrite (exec_cluster_request matches Quote ws c r pod v callback
             HM HQ Hc Hname Hns Hm Hctr
             Hnsne Hplain).
  cbn [fst snd statusCode body].
  split; [reflexivity|]. split; [apply Atoi_Itoa, Hin|]. split.
  - eexists. split; [apply lookup_insert_eq|].
    unfold withResourceVersion. cbn [Name Namespace ResourceVersion].
    rewrite mutated_Name, mutated_Namespace.
    repeat split.
    apply (counterOf_mutated ws pod (callback v) Hin).
  - intros key Hne. apply lookup_insert_ne. congruence.
Qed.

(** X13. An increment followed by a decrement of a pod named by a plain
    name, served one after the other, leaves the counter where it was:
    the answers are the successor of the counter and then the counter
    itself.  This needs four things: the selector selects the pod as it
    is, and still selects it with the incremented counter as its label;
    the counter is below the largest [int]; and the counter is not
    negative or negative values are allowed. *)
Theorem increment_then_decrement_restores
    (c : gmap (string * string) Pod) (r : Request) (pod : Pod) (v : Z) :
  Method r = MethodPost ->
  Get (Query r) "pod_name" <> EmptyString ->
  plainName (Get (Query r) "pod_name") = true ->
  namespace ws <> EmptyString ->
  let podName := Get (Query r) "pod_name" in
  c !! (namespace ws, podName) = Some pod ->
  Name pod = podName ->
  Namespace pod = namespace ws ->
  matches (labelSelector ws) (labelsOf pod) = true ->
  matches (labelSelector ws) (labelsOf (mutated ws pod (v + 1))) = true ->
  counterOf (label ws) pod = Some v ->
  v < MaxInt ->
  allowNegative ws = true \/ 0 <= v ->
  let s1 :=
    @exec _ (cluster matches) _
      (buildIncrementHandler Quote ws newResponse r) c in
  let s2 :=
    @exec _ (cluster matches) _
      (buildDecrementHandler Quote ws newResponse r) s1.1.1 in
  s1.2 = {| statusCode := Some StatusOK; body := Itoa (v + 1) |}
  /\ s2.2 = {| statusCode := Some StatusOK; body := Itoa v |}
  /\ exists stored,
       s2.1.1 !! (namespace ws, podName) = Some stored
       /\ counterOf (label ws) stored = Some v
       /\ ResourceVersion stored = N.succ (N.succ (ResourceVersion pod)).
Proof.
  intros HM HQ Hplain Hnsne podName Hc Hname Hns Hm Hm1 Hctr Hmax Hsign s1 s2.
  pose proof (counterOf_inInt _ _ _ Hctr) as Hv.
  assert (Hinc : increment v = v + 1).
  { unfold increment. apply wrapInt_inInt.
    unfold inInt, MinInt, MaxInt in *. lia. }
  assert (Hin1 : inInt (v + 1)).
  { unfold inInt, MinInt, MaxInt in *. lia. }
  assert (Hdec : decrement ws (v + 1) = v).
  { unfold decrement.
    replace (v + 1 - 1) with v by lia.
    destruct Hsign as [-> | Hpos]; cbn [negb andb].
    - apply wrapInt_inInt, Hv.
    - destruct (allowNegative ws); cbn [negb andb].
      + apply wrapInt_inInt, Hv.
      + destruct (Z.leb_spec (v + 1) 0); [lia|]. apply wrapInt_inInt, Hv. }
  unfold s2, s1, buildIncrementHandler, buildDecrementHandler, podName in *.
  rewrite (exec_cluster_request matches Quote ws c r pod v increment
             HM HQ Hc Hname Hns Hm Hctr
             Hnsne Hplain).
  rewrite Hinc. cbn [fst snd].
  set (pod1 := withResourceVersion (mutated ws pod (v + 1))
                 (N.succ (ResourceVersion pod))).
  assert (Hc1 : <[(namespace ws, Get (Query r) "pod_name") := pod1]> c
                !! (namespace ws, Get (Query r) "pod_name") = Some pod1)
    by apply lookup_insert_eq.
  assert (Hname1 : Name pod1 = Get (Query r) "pod_name").
  { unfold pod1, withResourceVersion. cbn [Name].
    rewrite mutated_Name. exact Hname. }
  assert (Hns1 : Namespace pod1 = namespace ws).
  { unfold pod1, withResourceVersion. cbn [Namespace].
    rewrite mutated_Namespace. exact Hns. }
  assert (Hctr1 : counterOf (label ws) pod1 = Some (v + 1)).
  { unfold pod1. rewrite counterOf_withResourceVersion.
    apply (counterOf_mutated ws pod (v + 1) Hin1). }
  rewrite (exec_cluster_request matches Quote ws _ r pod1 (v + 1)
             (decrement ws) HM HQ Hc1 Hname1 Hns1 Hm1 Hctr1
             Hnsne Hplain).
  rewrite Hdec. cbn [fst snd].
  split; [reflexivity|]. split; [reflexivity|].
  eexists. split; [apply lookup_insert_eq|].
  split; [|reflexivity].
  rewrite counterOf_withResourceVersion.
  apply (counterOf_mutated ws pod1 v Hv).
Qed.

End ServedOnce.

(** ** Every request comes to an end, whatever the schedule *)

(** X14. However the store calls of the requests in flight are
    interleaved, and whatever the other requests are, a request has
    finished once it has had eight turns: no request retries without
    end. *)
Theorem request_finishes_within_eight_turns
    (matches : string -> gmap string string -> bool)
    (Quote : string -> string) (ws : webhookServer)
    (sys : System ResponseWriter) (i : nat) (r : Request)
    (callback : Z -> Z) (sched : list nat) :
  requests sys !! i
  = Some (updateLabelRequest Quote ws newResponse r callback) ->
  (8 <= turns i sched)%nat ->
  exists w, requests (runSchedule matches sched sys) !! i = Some (Ret w).
Proof.
  intros Hi Hturns.
  apply (runSchedule_finishes matches sched i 8 sys _ Hi);
    [apply updateLabelRequest_finishes|exact Hturns].
Qed.

(** * The other draft: [/register-job] and [/unregister-job] *)

Section Draft.

Context {St : Type} `{Clientset St}.
Variable Quote : string -> string.
Variable ws : JobTracker.webhookServer.

Lemma draft_mutated_Namespace (pod : Pod) (newValue : Z) :
  Namespace (JobTracker.mutated pod newValue) = Namespace pod.
Proof. unfold JobTracker.mutated. destruct (_ <=? _)%Z; reflexivity. Qed.

(** An attempt of the draft on a pod whose counter parses. *)
Lemma exec_updateJobsLabel_write w podName cb st st1 pod rest v :
  List (JobTracker.namespace ws) (JobTracker.listOptions ws podName) st
  = (st1, inr (pod :: rest)) ->
  counterOf JobTracker.activeJobsLabel pod = Some v ->
  exec (JobTracker.updateJobsLabel Quote ws w podName cb) st =
  let '(st2, r) :=
    Update (Namespace pod) (JobTracker.mutated pod (cb v)) st1 in
  (st2,
   [ListCall (JobTracker.namespace ws) (JobTracker.listOptions ws podName);
    UpdateCall (Namespace pod) (JobTracker.mutated pod (cb v))],
   match r with
   | inl err => updateFailed w err
   | inr _ => (Write (JobTracker.updatedBody v podName) w, None)
   end).
Proof.
  intros HL Hctr.
  unfold JobTracker.updateJobsLabel, JobTracker.listOptions in *. simpl.
  rewrite HL. simpl. unfold counterOf in Hctr.
  destruct (getLabel (Labels pod) JobTracker.activeJobsLabel)
    as [valueStr|].
  - destruct (Atoi valueStr) as [e|v']; [discriminate|].
    injection Hctr as ->. fold (JobTracker.mutated pod (cb v)).
    rewrite draft_mutated_Namespace. simpl.
    destruct (Update _ _ st1) as [st2 [err|p2]]; reflexivity.
  - injection Hctr as <-. fold (JobTracker.mutated pod (cb 0)).
    rewrite draft_mutated_Namespace. simpl.
    destruct (Update _ _ st1) as [st2 [err|p2]]; reflexivity.
Qed.

(** X15. The draft never stores a counter that is not positive: when the
    new value is 0 or less the record it submits has no counter label,
    otherwise the label is the decimal string of the new value; read
    back, the counter is the larger of 0 and the new value. *)
Theorem draft_never_writes_zero_or_less
    w podName callback st st1 pod rest v ns written :
  List (JobTracker.namespace ws) (JobTracker.listOptions ws podName) st
  = (st1, inr (pod :: rest)) ->
  counterOf JobTracker.activeJobsLabel pod = Some v ->
  inInt (callback v) ->
  In (UpdateCall ns written)
     (exec (JobTracker.updateJobsLabel Quote ws w podName callback) st).1.2 ->
  getLabel (Labels written) JobTracker.activeJobsLabel
  = (if (callback v <=? 0)%Z then None else Some (Itoa (callback v)))
  /\ counterOf JobTracker.activeJobsLabel written
     = Some (Z.max 0 (callback v)).
Proof.
  intros HL Hctr Hin Hcall.
  rewrite (exec_updateJobsLabel_write _ _ _ _ _ _ _ _ HL Hctr) in Hcall.
  destruct (Update _ _ st1) as [st2 res]. cbn [fst snd] in Hcall.
  destruct Hcall as [Hc|[Hc|[]]]; [discriminate|].
  injection Hc as <- <-.
  unfold counterOf, JobTracker.mutated.
  destruct (Z.leb_spec (callback v) 0) as [Hle|Hgt]; cbn [Labels withLabels].
  - rewrite getLabel_deleteLabel. split; [reflexivity|]. f_equal. lia.
  - rewrite getLabel_setLabel. split; [reflexivity|].
    rewrite Atoi_Itoa by exact Hin. f_equal. lia.
Qed.

(** X16. The draft answers with the value it read, not with the value it
    wrote: when the store accepts the write, the body names the counter as
    it was before the callback was applied. *)
Theorem draft_answers_the_value_read
    podName callback st st1 st2 pod rest v p2 :
  List (JobTracker.namespace ws) (JobTracker.listOptions ws podName) st
  = (st1, inr (pod :: rest)) ->
  counterOf JobTracker.activeJobsLabel pod = Some v ->
  Update (Namespace pod) (JobTracker.mutated pod (callback v)) st1
  = (st2, inr p2) ->
  exec (JobTracker.updateJobsLabel Quote ws newResponse podName callback) st
  = (st2,
     [ListCall (JobTracker.namespace ws) (JobTracker.listOptions ws podName);
      UpdateCall (Namespace pod) (JobTracker.mutated pod (callback v))],
     ({| statusCode := Some StatusOK;
         body := "active-jobs label updated to " ++ Itoa v
                   ++ " for pod " ++ podName |},
      None)).
Proof.
  intros HL Hctr HU.
  rewrite (exec_updateJobsLabel_write _ _ _ _ _ _ _ _ HL Hctr), HU.
  reflexivity.
Qed.

(** X17. For a counter that is not negative and below the largest [int],
    the draft and the server under its default policies (the label
    active-jobs, removed at zero, no negative values) make the same store
    calls with the same records and leave the store in the same state, for
    the increment as for the decrement; they differ in the body of the
    answer only. *)
Theorem draft_writes_what_the_server_writes
    (ws1 : webhookServer) w podName st st1 pod rest v :
  namespace ws1 = JobTracker.namespace ws ->
  labelSelector ws1 = JobTracker.labelSelector ws ->
  label ws1 = JobTracker.activeJobsLabel ->
  removeOnZero ws1 = true ->
  allowNegative ws1 = false ->
  List (namespace ws1) (listOptions ws1 podName) st
  = (st1, inr (pod :: rest)) ->
  counterOf (label ws1) pod = Some v ->
  0 <= v < MaxInt ->
  (exec (JobTracker.updateJobsLabel Quote ws w podName
           JobTracker.registerJob) st).1
  = (exec (updateLabel Quote ws1 w podName increment) st).1
  /\ (exec (JobTracker.updateJobsLabel Quote ws w podName
              JobTracker.unregisterJob) st).1
     = (exec (updateLabel Quote ws1 w podName (decrement ws1)) st).1.
Proof.
  intros Hns Hsel Hlbl Hrm Hneg HL Hctr Hv.
  assert (Hopts : JobTracker.listOptions ws podName = listOptions ws1 podName).
  { unfold JobTracker.listOptions, listOptions. rewrite Hsel. reflexivity. }
  assert (HL' : List (JobTracker.namespace ws)
                  (JobTracker.listOptions ws podName) st
                = (st1, inr (pod :: rest))).
  { rewrite Hopts, <- Hns. exact HL. }
  assert (Hctr' : counterOf JobTracker.activeJobsLabel pod = Some v).
  { rewrite <- Hlbl. exact Hctr. }
  assert (Hinc : JobTracker.mutated pod (JobTracker.registerJob v)
                 = mutated ws1 pod (increment v)).
  { unfold JobTracker.mutated, mutated, JobTracker.registerJob, increment.
    rewrite wrapInt_inInt by (unfold inInt, MinInt, MaxInt in *; lia).
    rewrite Hlbl, Hrm.
    destruct (Z.leb_spec (v + 1) 0); [lia|].
    destruct (Z.eqb_spec (v + 1) 0); [lia|]. reflexivity. }
  assert (Hdec : JobTracker.mutated pod (JobTracker.unregisterJob v)
                 = mutated ws1 pod (decrement ws1 v)).
  { unfold JobTracker.mutated, mutated, JobTracker.unregisterJob, decrement.
    rewrite wrapInt_inInt by (unfold inInt, MinInt, MaxInt in *; lia).
    rewrite Hlbl, Hrm, Hneg. cbn [negb andb].
    destruct (Z.leb_spec v 0) as [Hz|Hz].
    - destruct (Z.leb_spec (v - 1) 0); [reflexivity|lia].
    - destruct (Z.leb_spec (v - 1) 0) as [Hle|Hgt];
        destruct (Z.eqb_spec (v - 1) 0); try lia; reflexivity. }
  rewrite !(exec_updateJobsLabel_write _ _ _ _ _ _ _ _ HL' Hctr').
  rewrite !(exec_updateLabel_write Quote ws1 _ _ _ _ _ _ _ _ HL Hctr).
  rewrite Hinc, Hdec, Hopts, Hns.
  split.
  - destruct (Update _ (mutated ws1 pod (increment v)) st1) as [st2 res].
    reflexivity.
  - destruct (Update _ (mutated ws1 pod (decrement ws1 v)) st1) as [st2 res].
    reflexivity.
Qed.

End Draft.

(** * The pod name in the field selector *)

Section Unescaped.

Variable matches : string -> gmap string string -> bool.
Variable Quote : string -> string.
Variable ws : webhookServer.

Lemma clusterList_name_namespace (ns n selector : string)
    (c : gmap (string * string) Pod) :
  ns <> EmptyString ->
  plainName n = true ->
  plainName ns = true ->
  clusterList matches ns
    {| FieldSelector := "metadata.name=" ++ n ++ ",metadata.namespace=" ++ ns;
       LabelSelector := selector; Limit := 1 |} c
  = (c, inr match c !! (ns, n) with
            | Some pod => if matches selector (labelsOf pod) then [pod] else []
            | None => []
            end).
Proof.
  intros Hne Hn Hns. unfold clusterList.
  cbn [FieldSelector LabelSelector Limit].
  rewrite (ParseSelector_name_namespace _ _ Hn Hns).
  assert (Hname : forall key, podField key "metadata.name" = Some key.2)
    by reflexivity.
  assert (Hnamespace : forall key,
            podField key "metadata.namespace" = Some key.1)
    by reflexivity.
  destruct ns as [|a ns]; [contradiction|].
  cbn [forallb fieldLabel RequiresExactMatch notHas fieldValue negb andb].
  change (knownField "metadata.name") with true.
  change (knownField "metadata.namespace") with true.
  change (String.eqb "metadata.name" "metadata.name") with true.
  cbn [negb andb].
  destruct (c !! (String a ns, n)) as [pod|]; [|reflexivity].
  cbn [List.filter forallb fst snd]. unfold meets.
  cbn [fieldLabel notHas fieldValue]. rewrite Hname, Hnamespace.
  cbn [fst snd xorb]. rewrite !String.eqb_refl. cbn [andb].
  destruct (matches selector (labelsOf pod)); reflexivity.
Qed.

(** X18. The pod name goes into the field selector as it comes, and the
    store reads a comma in it as the end of the name: a request whose
    [pod_name] is a name followed by [,metadata.namespace=] and the
    configured namespace is served as the request for that name.  The pod
    of that name is updated and the answer is 200, although [pod_name] is
    the name of no pod. *)
Theorem unescaped_pod_name_is_a_selector
    (c : gmap (string * string) Pod) (r : Request) (n : string)
    (pod : Pod) (v : Z) (callback : Z -> Z) :
  Method r = MethodPost ->
  Get (Query r) "pod_name" = n ++ ",metadata.namespace=" ++ namespace ws ->
  plainName n = true ->
  plainName (namespace ws) = true ->
  namespace ws <> EmptyString ->
  c !! (namespace ws, n) = Some pod ->
  Name pod = n ->
  Namespace pod = namespace ws ->
  matches (labelSelector ws) (labelsOf pod) = true ->
  counterOf (label ws) pod = Some v ->
  let written := mutated ws pod (callback v) in
  plainName (Get (Query r) "pod_name") = false
  /\ @exec _ (cluster matches) _
       (updateLabelRequest Quote ws newResponse r callback) c
     = (<[(namespace ws, n) :=
            withResourceVersion written (N.succ (ResourceVersion pod))]> c,
        [ListCall (namespace ws) (listOptions ws (Get (Query r) "pod_name"));
         UpdateCall (namespace ws) written],
        {| statusCode := Some StatusOK; body := Itoa (callback v) |}).
Proof.
  intros HM Hq Hn Hns Hne Hc Hname Hnsp Hm Hctr written.
  assert (HQ : Get (Query r) "pod_name" <> EmptyString).
  { rewrite Hq. destruct n; discriminate. }
  split.
  { rewrite Hq. clear -Hn. induction n as [|a n IH].
    - reflexivity.
    - apply plainName_cons in Hn as (Hslash & Hcomma & Heq & Hn).
      change (String a n ++ ",metadata.namespace=" ++ namespace ws)
        with (String a (n ++ ",metadata.namespace=" ++ namespace ws)).
      cbn [plainName]. rewrite (IH Hn). apply andb_false_r. }
  rewrite (@exec_updateLabelRequest _ (cluster matches) Quote ws _ _ _ _
             HM HQ).
  assert (HL : @List _ (cluster matches) (namespace ws)
                 (listOptions ws (Get (Query r) "pod_name")) c
               = (c, inr [pod])).
  { unfold listOptions. rewrite Hq. cbn [List cluster].
    rewrite (clusterList_name_namespace _ _ _ _ Hne Hn Hns), Hc, Hm.
    reflexivity. }
  rewrite (@exec_retry_first_attempt _ (cluster matches) Quote ws
             newResponse (Get (Query r) "pod_name") callback c
             (<[(namespace ws, n) :=
                  withResourceVersion written (N.succ (ResourceVersion pod))]>
                c)
             [ListCall (namespace ws)
                (listOptions ws (Get (Query r) "pod_name"));
              UpdateCall (namespace ws) written]
             (Write (Itoa (callback v)) newResponse) None);
    [reflexivity| |discriminate].
  rewrite (@exec_updateLabel_write _ (cluster matches) Quote ws _ _ _ _ _ _
             _ _ HL Hctr).
  fold written. rewrite Hnsp. cbn [Update cluster].
  rewrite (clusterUpdate_accepted (namespace ws) c written pod).
  - unfold written. rewrite mutated_Name, Hname. reflexivity.
  - unfold written. rewrite mutated_Namespace. exact Hnsp.
  - unfold written. rewrite mutated_Name, Hname. exact Hc.
  - unfold written. apply mutated_ResourceVersion.
Qed.

(** X19. An equals sign at the end of the pod name makes the field
    selector one the store cannot read: the query is refused, whether or
    not the pod of that name is there, and the request is answered 500
    after that one call; nothing is written. *)
Theorem bare_equals_is_a_bad_request
    (c : gmap (string * string) Pod) (r : Request) (n : string)
    (callback : Z -> Z) :
  Method r = MethodPost ->
  Get (Query r) "pod_name" = n ++ "=" ->
  plainName n = true ->
  n <> EmptyString ->
  let res :=
    @exec _ (cluster matches) _
      (updateLabelRequest Quote ws newResponse r callback) c in
  statusCode res.2 = Some StatusInternalServerError
  /\ res.1.1 = c
  /\ res.1.2
     = [ListCall (namespace ws) (listOptions ws (Get (Query r) "pod_name"))].
Proof.
  intros HM Hq Hn Hne res.
  assert (HQ : Get (Query r) "pod_name" <> EmptyString).
  { rewrite Hq. destruct n; [congruence|discriminate]. }
  assert (HL : @List _ (cluster matches) (namespace ws)
                 (listOptions ws (Get (Query r) "pod_name")) c
               = (c, inl badRequestError)).
  { unfold listOptions. rewrite Hq. cbn [List cluster].
    unfold clusterList. cbn [FieldSelector].
    rewrite (ParseSelector_bare_equals _ Hn Hne). reflexivity. }
  unfold res.
  rewrite (@exec_updateLabelRequest _ (cluster matches) Quote ws _ _ _ _
             HM HQ).
  rewrite (@exec_retry_first_attempt _ (cluster matches) Quote ws
             newResponse (Get (Query r) "pod_name") callback c c
             [ListCall (namespace ws)
                (listOptions ws (Get (Query r) "pod_name"))]
             (listFailed newResponse badRequestError).1
             (listFailed newResponse badRequestError).2).
  - repeat split.
  - rewrite (@exec_updateLabel_list_error _ (cluster matches) Quote ws _ _ _
               _ _ _ HL).
    reflexivity.
  - intros e [= <-]. split; [reflexivity|discriminate].
Qed.

End Unescaped.

(** * The further properties at work *)

Lemma clusterOf_selected (ws : webhookServer) (pod : Pod) :
  namespace ws <> EmptyString ->
  plainName (Name pod) = true ->
  Namespace pod = namespace ws ->
  equalitySelector (labelSelector ws) (labelsOf pod) = true ->
  @List _ (cluster equalitySelector) (namespace ws)
    (listOptions ws (Name pod)) (clusterOf pod)
  = (clusterOf pod, inr [pod]).
Proof.
  intros Hnsne Hplain Hns Hm.
  apply (clusterList_selected equalitySelector ws (Name pod));
    [exact Hnsne|exact Hplain| |exact Hm].
  rewrite <- Hns. apply lookup_singleton_eq.
Qed.

Lemma exec_updateLabel_write_calls {St : Type} `{Clientset St}
    Quote ws w podName cb st st1 pod rest v :
  List (namespace ws) (listOptions ws podName) st = (st1, inr (pod :: rest)) ->
  counterOf (label ws) pod = Some v ->
  (exec (updateLabel Quote ws w podName cb) st).1.2
  = [ListCall (namespace ws) (listOptions ws podName);
     UpdateCall (Namespace pod) (mutated ws pod (cb v))].
Proof.
  intros HL Hctr.
  rewrite (exec_updateLabel_write Quote ws _ _ _ _ _ _ _ _ HL Hctr).
  destruct (Update _ _ st1) as [st2 res]. reflexivity.
Qed.

Lemma other_method_is_405_witness :
  Method (get "/increment" "job-1") <> MethodPost
  /\ @exec _ (cluster equalitySelector) _
       (buildIncrementHandler quotePlain configureFlags newResponse
          (get "/increment" "job-1")) oneJob
     = (oneJob, [],
        {| statusCode := Some StatusMethodNotAllowed;
           body := "Method not allowed" ++ newline |}).
Proof.
  assert (HM : Method (get "/increment" "job-1") <> MethodPost)
    by discriminate.
  split; [exact HM|].
  apply (@other_method_is_405 _ (cluster equalitySelector) quotePlain
           configureFlags oneJob (get "/increment" "job-1") HM).
Defined.

Lemma missing_pod_name_is_400_witness :
  Get (Query (postWithoutName "/decrement")) "pod_name" = EmptyString
  /\ Get (Query (post "/decrement" EmptyString)) "pod_name" = EmptyString
  /\ @exec _ (cluster equalitySelector) _
       (buildDecrementHandler quotePlain configureFlags newResponse
          (postWithoutName "/decrement")) oneJob
     = (oneJob, [],
        {| statusCode := Some StatusBadRequest;
           body := "Missing pod_name query parameter" ++ newline |})
  /\ @exec _ (cluster equalitySelector) _
       (buildDecrementHandler quotePlain configureFlags newResponse
          (post "/decrement" EmptyString)) oneJob
     = (oneJob, [],
        {| statusCode := Some StatusBadRequest;
           body := "Missing pod_name query parameter" ++ newline |}).
Proof.
  split; [reflexivity|]. split; [reflexivity|]. split.
  - apply (@missing_pod_name_is_400 _ (cluster equalitySelector) quotePlain
             configureFlags oneJob (postWithoutName "/decrement")
             eq_refl eq_refl).
  - apply (@missing_pod_name_is_400 _ (cluster equalitySelector) quotePlain
             configureFlags oneJob (post "/decrement" EmptyString)
             eq_refl eq_refl).
Defined.

Lemma only_the_counter_label_changes_witness :
  let written := mutated configureFlags workerJob 2 in
  In (UpdateCall "default" written)
     (@exec _ (cluster equalitySelector) _
        (updateLabel quotePlain configureFlags newResponse "job-1" increment)
        (clusterOf workerJob)).1.2
  /\ Name written = "job-1"
  /\ ResourceVersion written = 7%N
  /\ getLabel (Labels written) "app" = Some "worker".
Proof.
  intros written.
  assert (HL : @List _ (cluster equalitySelector) (namespace configureFlags)
                 (listOptions configureFlags "job-1") (clusterOf workerJob)
               = (clusterOf workerJob, inr [workerJob]))
    by (apply (clusterOf_selected configureFlags workerJob);
        [discriminate|reflexivity..]).
  assert (Hctr : counterOf (label configureFlags) workerJob = Some 1).
  { unfold counterOf, workerJob, getLabel. cbn [Labels].
    rewrite lookup_insert_ne by discriminate.
    rewrite lookup_singleton_eq. reflexivity. }
  assert (Hin : In (UpdateCall "default" written)
                  (@exec _ (cluster equalitySelector) _
                     (updateLabel quotePlain configureFlags newResponse
                        "job-1" increment) (clusterOf workerJob)).1.2).
  { rewrite (@exec_updateLabel_write_calls _ (cluster equalitySelector)
               quotePlain configureFlags _ _ _ _ _ _ _ _ HL Hctr).
    right. left. reflexivity. }
  destruct (@only_the_counter_label_changes _ (cluster equalitySelector)
              quotePlain configureFlags newResponse "job-1" increment
              (clusterOf workerJob) (clusterOf workerJob) workerJob []
              "default" written HL Hin)
    as (_ & Hname & _ & Hrv & Hother).
  split; [exact Hin|]. split; [exact Hname|]. split; [exact Hrv|].
  rewrite (Hother "app") by discriminate.
  apply lookup_insert_eq.
Defined.

Lemma written_counter_reads_back_witness :
  let written := mutated configureFlags job1 1 in
  inInt (increment 0)
  /\ In (UpdateCall "default" written)
       (@exec _ (cluster equalitySelector) _
          (updateLabel quotePlain configureFlags newResponse "job-1" increment)
          oneJob).1.2
  /\ counterOf "active-jobs" written = Some 1.
Proof.
  intros written.
  assert (HL : @List _ (cluster equalitySelector) (namespace configureFlags)
                 (listOptions configureFlags "job-1") oneJob
               = (oneJob, inr [job1]))
    by (apply (clusterOf_selected configureFlags job1);
        [discriminate|reflexivity..]).
  assert (Hctr : counterOf (label configureFlags) job1 = Some 0)
    by reflexivity.
  assert (Hint : inInt (increment 0))
    by (vm_compute; split; discriminate).
  assert (Hin : In (UpdateCall "default" written)
                  (@exec _ (cluster equalitySelector) _
                     (updateLabel quotePlain configureFlags newResponse
                        "job-1" increment) oneJob).1.2).
  { rewrite (@exec_updateLabel_write_calls _ (cluster equalitySelector)
               quotePlain configureFlags _ _ _ _ _ _ _ _ HL Hctr).
    right. left. reflexivity. }
  split; [exact Hint|]. split; [exact Hin|].
  apply (@written_counter_reads_back _ (cluster equalitySelector)
           quotePlain configureFlags newResponse "job-1" increment
           oneJob oneJob job1 [] 0 "default" written HL Hctr Hint Hin).
Defined.

Lemma conflict_fixes_the_status_at_500_witness :
  let run :=
    @exec _ (interfered equalitySelector) _
      (retryUpdateLabel quotePlain configureFlags newResponse "job-1"
         increment) (oneJob, 1%nat) in
  statusCode run.2.1 = Some StatusInternalServerError
  /\ run.2.2 = None
  /\ length run.1.2 = 4%nat.
Proof.
  intros run. unfold run.
  destruct (@exec _ (interfered equalitySelector) _
              (updateLabel quotePlain configureFlags newResponse "job-1"
                 increment) (oneJob, 1%nat))
    as [[st1 calls] [w1 err]] eqn:Hrun.
  assert (He : option_map IsConflict
                 (@exec _ (interfered equalitySelector) _
                    (updateLabel quotePlain configureFlags newResponse
                       "job-1" increment) (oneJob, 1%nat)).2.2
               = Some true)
    by (vm_compute; reflexivity).
  rewrite Hrun in He. cbn [fst snd] in He.
  destruct err as [e|]; [|discriminate].
  injection He as He.
  split.
  - apply (@conflict_fixes_the_status_at_500 _ (interfered equalitySelector)
             quotePlain configureFlags "job-1" increment
             (oneJob, 1%nat) st1 calls w1 e Hrun He).
  - split; vm_compute; reflexivity.
Defined.

Lemma decrement_never_writes_negative_witness :
  let written := mutated configureFlags negativeJob 0 in
  In (UpdateCall "default" written)
     (@exec _ (cluster equalitySelector) _
        (updateLabel quotePlain configureFlags newResponse "job-1"
           (decrement configureFlags)) (clusterOf negativeJob)).1.2
  /\ decrement configureFlags (-5) = 0
  /\ counterOf "active-jobs" written = Some 0.
Proof.
  intros written.
  assert (HL : @List _ (cluster equalitySelector) (namespace configureFlags)
                 (listOptions configureFlags "job-1") (clusterOf negativeJob)
               = (clusterOf negativeJob, inr [negativeJob]))
    by (apply (clusterOf_selected configureFlags negativeJob);
        [discriminate|reflexivity..]).
  assert (Hctr : counterOf (label configureFlags) negativeJob = Some (-5)).
  { unfold counterOf, negativeJob, getLabel. cbn [Labels].
    rewrite lookup_singleton_eq. reflexivity. }
  assert (Hin : In (UpdateCall "default" written)
                  (@exec _ (cluster equalitySelector) _
                     (updateLabel quotePlain configureFlags newResponse
                        "job-1" (decrement configureFlags))
                     (clusterOf negativeJob)).1.2).
  { rewrite (@exec_updateLabel_write_calls _ (cluster equalitySelector)
               quotePlain configureFlags _ _ _ _ _ _ _ _ HL Hctr).
    right. left. reflexivity. }
  split; [exact Hin|].
  apply (@decrement_never_writes_negative _ (cluster equalitySelector)
           quotePlain configureFlags newResponse "job-1"
           (clusterOf negativeJob) (clusterOf negativeJob) negativeJob []
           (-5) "default" written eq_refl HL Hctr Hin).
Defined.

Lemma increment_wraps_at_the_largest_int_witness :
  let written := mutated configureFlags fullJob MinInt in
  In (UpdateCall "default" written)
     (@exec _ (cluster equalitySelector) _
        (updateLabel quotePlain configureFlags newResponse "job-1" increment)
        (clusterOf fullJob)).1.2
  /\ increment MaxInt = MinInt
  /\ counterOf "active-jobs" written = Some MinInt.
Proof.
  intros written.
  assert (HL : @List _ (cluster equalitySelector) (namespace configureFlags)
                 (listOptions configureFlags "job-1") (clusterOf fullJob)
               = (clusterOf fullJob, inr [fullJob]))
    by (apply (clusterOf_selected configureFlags fullJob);
        [discriminate|reflexivity..]).
  assert (Hctr : counterOf (label configureFlags) fullJob = Some MaxInt).
  { unfold counterOf, fullJob, getLabel. cbn [Labels].
    rewrite lookup_singleton_eq.
    rewrite Atoi_Itoa by (vm_compute; split; discriminate). reflexivity. }
  assert (Hin : In (UpdateCall "default" written)
                  (@exec _ (cluster equalitySelector) _
                     (updateLabel quotePlain configureFlags newResponse
                        "job-1" increment) (clusterOf fullJob)).1.2).
  { rewrite (@exec_updateLabel_write_calls _ (cluster equalitySelector)
               quotePlain configureFlags _ _ _ _ _ _ _ _ HL Hctr).
    right. left. reflexivity. }
  split; [exact Hin|].
  apply (@increment_wraps_at_the_largest_int _ (cluster equalitySelector)
           quotePlain configureFlags newResponse "job-1"
           (clusterOf fullJob) (clusterOf fullJob) fullJob []
           MaxInt "default" written HL Hctr Hin).
Defined.

Lemma out_of_range_label_is_corrupt_witness :
  let run :=
    @exec _ (cluster equalitySelector) _
      (retryUpdateLabel quotePlain configureFlags newResponse "job-1"
         increment) (clusterOf overfullJob) in
  ~ inInt (MaxInt + 1)
  /\ statusCode run.2.1 = Some StatusInternalServerError
  /\ run.2.2
     = Some (Wrap (NumError "Atoi" "9223372036854775808" ErrRange)
               ("invalid " ++ quotePlain "active-jobs" ++ " label value: "
                  ++ quotePlain "9223372036854775808"))
  /\ run.1.2
     = [ListCall "default" (listOptions configureFlags "job-1")]
  /\ run.1.1 = clusterOf overfullJob.
Proof.
  intros run. unfold run.
  assert (HL : @List _ (cluster equalitySelector) (namespace configureFlags)
                 (listOptions configureFlags "job-1") (clusterOf overfullJob)
               = (clusterOf overfullJob, inr [overfullJob]))
    by (apply (clusterOf_selected configureFlags overfullJob);
        [discriminate|reflexivity..]).
  assert (Hlbl : getLabel (Labels overfullJob) (label configureFlags)
                 = Some (Itoa (MaxInt + 1))).
  { unfold overfullJob, getLabel. cbn [Labels]. apply lookup_singleton_eq. }
  assert (Hz : ~ inInt (MaxInt + 1))
    by (unfold inInt, MinInt, MaxInt; lia).
  split; [exact Hz|].
  destruct (@out_of_range_label_is_corrupt _ (cluster equalitySelector)
              quotePlain configureFlags "job-1" increment
              (clusterOf overfullJob) (clusterOf overfullJob) overfullJob []
              (MaxInt + 1) HL Hlbl Hz)
    as (w' & Hrun & Hstatus).
  rewrite Hrun. cbn [fst snd].
  split; [exact Hstatus|]. split; [reflexivity|]. split; reflexivity.
Defined.

Lemma served_request_updates_one_pod_witness :
  let res :=
    @exec _ (cluster equalitySelector) _
      (updateLabelRequest quotePlain configureFlags newResponse
         (post "/increment" "job-1") increment) oneJob in
  statusCode res.2 = Some StatusOK
  /\ Atoi (body res.2) = inr 1
  /\ exists stored,
       res.1.1 !! ("default", "job-1") = Some stored
       /\ counterOf "active-jobs" stored = Some 1
       /\ ResourceVersion stored = 8%N.
Proof.
  intros res. unfold res.
  assert (Hc : oneJob !! (namespace configureFlags, "job-1") = Some job1)
    by apply lookup_singleton_eq.
  assert (Hint : inInt (increment 0))
    by (vm_compute; split; discriminate).
  assert (HQ : Get (Query (post "/increment" "job-1")) "pod_name"
               <> EmptyString) by discriminate.
  assert (Hnsne : namespace configureFlags <> EmptyString) by discriminate.
  pose proof (served_request_updates_one_pod equalitySelector quotePlain
                configureFlags oneJob (post "/increment" "job-1") job1 0
                increment eq_refl HQ eq_refl Hnsne Hc eq_refl eq_refl eq_refl
                eq_refl Hint)
    as Hthm.
  cbv zeta in Hthm.
  destruct Hthm as (Hs & Hb & (stored & Hst & Hcnt & Hrv & _) & _).
  split; [exact Hs|]. split; [exact Hb|].
  exists stored. split; [exact Hst|]. split; [exact Hcnt|exact Hrv].
Defined.

Lemma increment_then_decrement_restores_witness :
  let s1 :=
    @exec _ (cluster equalitySelector) _
      (buildIncrementHandler quotePlain configureFlags newResponse
         (post "/increment" "job-1")) oneJob in
  let s2 :=
    @exec _ (cluster equalitySelector) _
      (buildDecrementHandler quotePlain configureFlags newResponse
         (post "/increment" "job-1")) s1.1.1 in
  s1.2 = okResponse "1"
  /\ s2.2 = okResponse "0"
  /\ exists stored,
       s2.1.1 !! ("default", "job-1") = Some stored
       /\ counterOf "active-jobs" stored = Some 0
       /\ ResourceVersion stored = 9%N.
Proof.
  intros s1 s2. unfold s2, s1.
  assert (Hc : oneJob !! (namespace configureFlags, "job-1") = Some job1)
    by apply lookup_singleton_eq.
  assert (HQ : Get (Query (post "/increment" "job-1")) "pod_name"
               <> EmptyString) by discriminate.
  assert (Hnsne : namespace configureFlags <> EmptyString) by discriminate.
  assert (Hmax : 0 < MaxInt) by reflexivity.
  assert (Hsign : allowNegative configureFlags = true \/ 0 <= 0)
    by (right; lia).
  pose proof (increment_then_decrement_restores equalitySelector quotePlain
                configureFlags oneJob (post "/increment" "job-1") job1 0
                eq_refl HQ eq_refl Hnsne Hc eq_refl eq_refl eq_refl eq_refl
                eq_refl Hmax Hsign)
    as Hthm.
  cbv zeta in Hthm.
  destruct Hthm as (H1 & H2 & stored & Hst & Hcnt & Hrv).
  split; [exact H1|]. split; [exact H2|].
  exists stored. split; [exact Hst|]. split; [exact Hcnt|exact Hrv].
Defined.

Lemma request_finishes_within_eight_turns_witness :
  (8 <= turns 0 [0; 1; 0; 0; 1; 0; 0; 0; 0; 0]%nat)%nat
  /\ exists w,
       requests
         (runSchedule equalitySelector [0; 1; 0; 0; 1; 0; 0; 0; 0; 0]%nat
            twoIncrements) !! 0%nat
       = Some (Ret w).
Proof.
  assert (Hturns : (8 <= turns 0 [0; 1; 0; 0; 1; 0; 0; 0; 0; 0]%nat)%nat)
    by (vm_compute; lia).
  split; [exact Hturns|].
  apply (request_finishes_within_eight_turns equalitySelector quotePlain
           configureFlags twoIncrements 0 (post "/increment" "job-1")
           increment [0; 1; 0; 0; 1; 0; 0; 0; 0; 0]%nat eq_refl Hturns).
Defined.

Lemma draft_never_writes_zero_or_less_witness :
  let written := JobTracker.mutated job1 (-1) in
  inInt (JobTracker.unregisterJob 0)
  /\ In (UpdateCall "default" written)
       (@exec _ (cluster equalitySelector) _
          (JobTracker.updateJobsLabel quotePlain JobTracker.configureFlags
             newResponse "job-1" JobTracker.unregisterJob) oneJob).1.2
  /\ getLabel (Labels written) "active-jobs" = None
  /\ counterOf "active-jobs" written = Some 0.
Proof.
  intros written.
  assert (HL : @List _ (cluster equalitySelector)
                 (JobTracker.namespace JobTracker.configureFlags)
                 (JobTracker.listOptions JobTracker.configureFlags "job-1")
                 oneJob
               = (oneJob, inr [job1]))
    by (apply (clusterOf_selected configureFlags job1);
        [discriminate|reflexivity..]).
  assert (Hctr : counterOf JobTracker.activeJobsLabel job1 = Some 0)
    by reflexivity.
  assert (Hint : inInt (JobTracker.unregisterJob 0))
    by (vm_compute; split; discriminate).
  assert (Hin : In (UpdateCall "default" written)
                  (@exec _ (cluster equalitySelector) _
                     (JobTracker.updateJobsLabel quotePlain
                        JobTracker.configureFlags newResponse "job-1"
                        JobTracker.unregisterJob) oneJob).1.2).
  { rewrite (@exec_updateJobsLabel_write _ (cluster equalitySelector)
               quotePlain JobTracker.configureFlags _ _ _ _ _ _ _ _ HL Hctr).
    destruct (@Update _ (cluster equalitySelector) _ _ oneJob) as [st2 res].
    right. left. reflexivity. }
  split; [exact Hint|]. split; [exact Hin|].
  apply (@draft_never_writes_zero_or_less _ (cluster equalitySelector)
           quotePlain JobTracker.configureFlags newResponse "job-1"
           JobTracker.unregisterJob oneJob oneJob job1 [] 0 "default"
           written HL Hctr Hint Hin).
Defined.

Lemma draft_answers_the_value_read_witness :
  let run :=
    @exec _ (cluster equalitySelector) _
      (JobTracker.updateJobsLabel quotePlain JobTracker.configureFlags
         newResponse "job-1" JobTracker.registerJob) oneJob in
  run.2 = (okResponse "active-jobs label updated to 0 for pod job-1", None)
  /\ (counterOf "active-jobs" <$> run.1.1 !! ("default", "job-1"))
     = Some (Some 1).
Proof.
  intros run. unfold run.
  assert (HL : @List _ (cluster equalitySelector)
                 (JobTracker.namespace JobTracker.configureFlags)
                 (JobTracker.listOptions JobTracker.configureFlags "job-1")
                 oneJob
               = (oneJob, inr [job1]))
    by (apply (clusterOf_selected configureFlags job1);
        [discriminate|reflexivity..]).
  assert (Hctr : counterOf JobTracker.activeJobsLabel job1 = Some 0)
    by reflexivity.
  pose proof (clusterUpdate_accepted "default" oneJob
                (JobTracker.mutated job1 (JobTracker.registerJob 0)) job1
                eq_refl (lookup_singleton_eq _ _) eq_refl) as HU.
  rewrite (@draft_answers_the_value_read _ (cluster equalitySelector)
             quotePlain JobTracker.configureFlags "job-1"
             JobTracker.registerJob oneJob oneJob _ job1 [] 0 _ HL Hctr HU).
  cbn [fst snd]. split; [reflexivity|].
  rewrite lookup_insert_eq. reflexivity.
Defined.

Lemma draft_writes_what_the_server_writes_witness :
  0 <= 1 < MaxInt
  /\ (@exec _ (cluster equalitySelector) _
        (JobTracker.updateJobsLabel quotePlain JobTracker.configureFlags
           newResponse "job-1" JobTracker.registerJob)
        (clusterOf activeJob)).1
     = (@exec _ (cluster equalitySelector) _
          (updateLabel quotePlain configureFlags newResponse "job-1"
             increment) (clusterOf activeJob)).1
  /\ (@exec _ (cluster equalitySelector) _
        (JobTracker.updateJobsLabel quotePlain JobTracker.configureFlags
           newResponse "job-1" JobTracker.unregisterJob)
        (clusterOf activeJob)).1
     = (@exec _ (cluster equalitySelector) _
          (updateLabel quotePlain configureFlags newResponse "job-1"
             (decrement configureFlags)) (clusterOf activeJob)).1.
Proof.
  assert (HL : @List _ (cluster equalitySelector) (namespace configureFlags)
                 (listOptions configureFlags "job-1") (clusterOf activeJob)
               = (clusterOf activeJob, inr [activeJob]))
    by (apply (clusterOf_selected configureFlags activeJob);
        [discriminate|reflexivity..]).
  assert (Hctr : counterOf (label configureFlags) activeJob = Some 1).
  { unfold counterOf, activeJob, getLabel. cbn [Labels].
    rewrite lookup_singleton_eq. reflexivity. }
  assert (Hv : 0 <= 1 < MaxInt) by (unfold MaxInt; lia).
  split; [exact Hv|].
  apply (@draft_writes_what_the_server_writes _ (cluster equalitySelector)
           quotePlain JobTracker.configureFlags configureFlags newResponse
           "job-1" (clusterOf activeJob) (clusterOf activeJob) activeJob []
           1 eq_refl eq_refl eq_refl eq_refl eq_refl HL Hctr Hv).
Defined.

Lemma unescaped_pod_name_is_a_selector_witness :
  let res :=
    @exec _ (cluster equalitySelector) _
      (updateLabelRequest quotePlain configureFlags newResponse
         (post "/increment" "job-1,metadata.namespace=default") increment)
      oneJob in
  oneJob !! ("default", "job-1,metadata.namespace=default") = None
  /\ res.2 = okResponse "1"
  /\ (counterOf "active-jobs" <$> res.1.1 !! ("default", "job-1"))
     = Some (Some 1).
Proof.
  intros res.
  assert (Hne : namespace configureFlags <> EmptyString) by discriminate.
  pose proof (unescaped_pod_name_is_a_selector equalitySelector quotePlain
                configureFlags oneJob
                (post "/increment" "job-1,metadata.namespace=default")
                "job-1" job1 0 increment eq_refl eq_refl eq_refl eq_refl Hne
                (lookup_singleton_eq _ _) eq_refl eq_refl eq_refl eq_refl)
    as Hthm.
  cbv zeta in Hthm. destruct Hthm as [_ Hrun].
  unfold res. rewrite Hrun. cbn [fst snd].
  split; [apply lookup_singleton_ne; discriminate|].
  split; [reflexivity|].
  rewrite lookup_insert_eq. reflexivity.
Defined.

Lemma bare_equals_is_a_bad_request_witness :
  let res :=
    @exec _ (cluster equalitySelector) _
      (updateLabelRequest quotePlain configureFlags newResponse
         (post "/increment" "job-1=") increment) oneJob in
  statusCode res.2 = Some StatusInternalServerError
  /\ res.1.1 = oneJob
  /\ length res.1.2 = 1%nat.
Proof.
  intros res.
  assert (Hne : "job-1" <> EmptyString) by discriminate.
  pose proof (bare_equals_is_a_bad_request equalitySelector quotePlain
                configureFlags oneJob (post "/increment" "job-1=")
                "job-1" increment eq_refl eq_refl eq_refl Hne)
    as Hthm.
  cbv zeta in Hthm. destruct Hthm as (Hstatus & Hstate & Hcalls).
  fold res in Hstatus, Hstate, Hcalls.
  split; [exact Hstatus|]. split; [exact Hstate|].
  rewrite Hcalls. reflexivity.
Defined.
